(** * GigaClaw: the agent execution pipeline

    A shallow embedding of the container runner (container-runner.ts), of the
    container-side environment loader (load-env.ts) and of the message router
    (message-router.ts), with the properties their specification states;
    then of the command line of the container, of the Telegram adapter
    (telegram.ts) and of the values read at start-up (config.ts), with
    further properties that the code shows.

    JavaScript strings are sequences of UTF-16 code units; [length], [slice],
    [indexOf], [startsWith], [trim] and [split] act on code units, exactly as
    the String methods the sources call.  Host side effects (the file system,
    the in-process maps, the calls made to collaborators) are threaded through
    a state-and-exception monad. *)

From Stdlib Require Import ZArith NArith Ascii String DecimalString.
From Stdlib Require Import DecimalZ.
From stdpp Require Import base list gmap strings sorting.

Local Open Scope Z_scope.

(* ================================================================== *)
(** * JavaScript strings *)
(* ================================================================== *)

Module JS.

(** A string is the list of its UTF-16 code units. *)
Abbreviation jsstring := (list N).

(** A source-code literal (ASCII only) as a JavaScript string. *)
Definition js (s : string) : jsstring :=
  map N_of_ascii (list_ascii_of_string s).
Arguments js s : simpl never.

(** [s.length] *)
Definition len (s : list N) : Z := Z.of_nat (length s).

(** Relative index resolution of [String.prototype.slice]: a negative index
    counts from the end, and the result is clamped to [0 .. length]. *)
Definition clamp_index (n i : Z) : Z :=
  if i <? 0 then Z.max (n + i) 0 else Z.min i n.

(** [s.slice(b, e)] *)
Definition slice (s : list N) (b e : Z) : list N :=
  let from := clamp_index (len s) b in
  let to := clamp_index (len s) e in
  take (Z.to_nat (to - from)) (drop (Z.to_nat from) s).

(** [s.slice(b)] *)
Definition slice_from (s : list N) (b : Z) : list N :=
  slice s b (len s).

(** [s.startsWith(p)] *)
Fixpoint startsWith (s p : list N) {struct p} : bool :=
  match p, s with
  | [], _ => true
  | _ :: _, [] => false
  | c :: p', d :: s' => (d =? c)%N && startsWith s' p'
  end.

(** [s.indexOf(p)], searching from position [i] of the original string:
    the first position at which [p] occurs, or [-1]. *)
Fixpoint indexOf_from (i : Z) (s p : list N) : Z :=
  if startsWith s p then i
  else match s with
       | [] => -1
       | _ :: s' => indexOf_from (i + 1) s' p
       end.

Definition indexOf (s p : list N) : Z := indexOf_from 0 s p.

(** The code units [String.prototype.trim] strips: WhiteSpace and
    LineTerminator of ECMA-262. *)
Definition is_whitespace (c : N) : bool :=
  ((9 <=? c) && (c <=? 13) || (c =? 32) || (c =? 160) || (c =? 5760)
   || (8192 <=? c) && (c <=? 8202)
   || (c =? 8232) || (c =? 8233) || (c =? 8239) || (c =? 8287)
   || (c =? 12288) || (c =? 65279))%N.

Fixpoint trimStart (s : list N) : list N :=
  match s with
  | [] => []
  | c :: s' => if is_whitespace c then trimStart s' else s
  end.

Definition trimEnd (s : list N) : list N := rev (trimStart (rev s)).

(** [s.trim()] *)
Definition trim (s : list N) : list N := trimEnd (trimStart s).

(** [s.split(sep)] for a one-code-unit separator; the result is never the
    empty array. *)
Fixpoint split (sep : N) (s : list N) : list (list N) :=
  match s with
  | [] => [[]]
  | c :: s' =>
      if (c =? sep)%N then [] :: split sep s'
      else match split sep s' with
           | l :: ls => (c :: l) :: ls
           | [] => [[c]]
           end
  end.

(** [lines.join(sep)] *)
Fixpoint join (sep : list N) (ls : list (list N)) : list N :=
  match ls with
  | [] => []
  | [l] => l
  | l :: ls' => l ++ sep ++ join sep ls'
  end.

(** The line feed, the separator of [split('\n')]. *)
Definition LF : N := 10%N.

(** Truthiness of a string: every string but the empty one. *)
Definition truthy (s : list N) : bool :=
  match s with [] => false | _ => true end.

(** Truthiness of an optional string property ([undefined] is falsy). *)
Definition truthy_opt (o : option (list N)) : bool :=
  match o with Some s => truthy s | None => false end.

(** A number in a template literal: its decimal digits.  This is what
    JavaScript prints for an integer below 10^21 in absolute value; from
    there on it prints an exponent, and only the integers up to 2^53 are
    all Numbers.  The exit codes, process identities and Telegram numbers
    printed here are far below. *)
Definition of_Z (z : Z) : list N := js (NilZero.string_of_int (Z.to_int z)).

(** Comparison of two strings, code unit by code unit, as [<] does in
    JavaScript. *)
Fixpoint ltb (a b : list N) : bool :=
  match a, b with
  | _, [] => false
  | [], _ :: _ => true
  | x :: a', y :: b' => (x <? y)%N || ((x =? y)%N && ltb a' b')
  end.

(** [a <= b] on strings: [b] does not come before [a]. *)
Definition le (a b : list N) : Prop := ltb b a = false.

(** The number of bytes of a string in UTF-8, the encoding in which the
    child's output arrives ([Buffer.byteLength]): a surrogate pair takes four
    bytes, a lone surrogate is replaced by U+FFFD and takes three. *)
Definition is_high_surrogate (c : N) : bool := ((55296 <=? c) && (c <=? 56319))%N.
Definition is_low_surrogate (c : N) : bool := ((56320 <=? c) && (c <=? 57343))%N.

Fixpoint byteLength (s : list N) : Z :=
  match s with
  | [] => 0
  | c :: s' =>
      if (c <? 128)%N then 1 + byteLength s'
      else if (c <? 2048)%N then 2 + byteLength s'
      else if is_high_surrogate c then
        match s' with
        | d :: s'' => if is_low_surrogate d then 4 + byteLength s''
                      else 3 + byteLength s'
        | [] => 3
        end
      else 3 + byteLength s'
  end.

End JS.

Import JS.

(* ================================================================== *)
(** * Host effects: a state-and-exception monad and the file system *)
(* ================================================================== *)

Module Host.

(** A path, as the list of its segments.  [path.join] appends segments and
    then normalises what it got; a path is kept here as it was joined,
    which is the path the file system sees when every segment is an
    ordinary name ([Paths.normalize] below is the normalisation). *)
Abbreviation Path := (list (list N)).

(** What a failing call of the [fs] module throws. *)
Inductive Exn :=
  | EACCES (p : Path)
  | ENOENT (p : Path).

Inductive Result (A : Type) :=
  | Ok (a : A)
  | Throw (e : Exn).
Arguments Ok {A} a.
Arguments Throw {A} e.

(** A computation over a state [S] that returns or throws; what it did to
    the state before throwing stays done. *)
Definition M (S A : Type) : Type := S -> Result A * S.

Definition ret {S A} (a : A) : M S A := fun s => (Ok a, s).

Definition bind {S A B} (c : M S A) (k : A -> M S B) : M S B :=
  fun s => match c s with
           | (Ok a, s') => k a s'
           | (Throw e, s') => (Throw e, s')
           end.

Definition throw {S A} (e : Exn) : M S A := fun s => (Throw e, s).

Definition get {S} : M S S := fun s => (Ok s, s).

Definition modify {S} (f : S -> S) : M S unit := fun s => (Ok tt, f s).

(** [try { c } catch (err) { h err }] *)
Definition try_catch {S A} (c : M S A) (h : Exn -> M S A) : M S A :=
  fun s => match c s with
           | (Ok a, s') => (Ok a, s')
           | (Throw e, s') => h e s'
           end.

(** Run a computation on a component of a larger state. *)
Definition zoom {S T A} (proj : T -> S) (upd : S -> T -> T) (c : M S A) : M T A :=
  fun t => match c (proj t) with
           | (r, s') => (r, upd s' t)
           end.

Definition when {S} (b : bool) (c : M S unit) : M S unit :=
  if b then c else ret tt.

(** The host file system: file contents, the directories that exist, and
    the paths on which the process is refused access. *)
Record Disk := {
  files : gmap (list (list N)) (list N);
  dirs : gset (list (list N));
  denied : gset (list (list N));
}.

Definition set_files (f : gmap (list (list N)) (list N)) (d : Disk) : Disk :=
  {| files := f; dirs := dirs d; denied := denied d |}.

Definition set_dirs (ds : gset (list (list N))) (d : Disk) : Disk :=
  {| files := files d; dirs := ds; denied := denied d |}.

(** Every non-empty prefix of a path: the directories a recursive [mkdir]
    makes sure exist. *)
Fixpoint ancestors (p : Path) : list Path :=
  match p with
  | [] => []
  | seg :: p' => [seg] :: map (cons seg) (ancestors p')
  end.

(** [fs.existsSync(p)] *)
Definition existsSync (p : Path) : M Disk bool :=
  fun d => (Ok (bool_decide (p ∈ dirs d) || bool_decide (is_Some (files d !! p))), d).

(** [fs.mkdirSync(p, { recursive: true })] *)
Definition mkdirSync (p : Path) : M Disk unit :=
  fun d => if bool_decide (p ∈ denied d) then (Throw (EACCES p), d)
           else (Ok tt, set_dirs (dirs d ∪ list_to_set (ancestors p)) d).

(** [fs.readFileSync(p, 'utf-8')] *)
Definition readFileSync (p : Path) : M Disk (list N) :=
  fun d => if bool_decide (p ∈ denied d) then (Throw (EACCES p), d)
           else match files d !! p with
                | Some c => (Ok c, d)
                | None => (Throw (ENOENT p), d)
                end.

(** [fs.writeFileSync(p, content)] *)
Definition writeFileSync (p : Path) (content : list N) : M Disk unit :=
  fun d => if bool_decide (p ∈ denied d) then (Throw (EACCES p), d)
           else (Ok tt, set_files (<[p := content]> (files d)) d).

End Host.

Import Host.

Notation "'let*' x ':=' c 'in' k" := (bind c (fun x => k))
  (at level 10, x name, c at level 100, k at level 200).
Notation "'do*' c 'in' k" := (bind c (fun _ => k))
  (at level 10, c at level 100, k at level 200).

(* ================================================================== *)
(** * Configuration (config.ts) *)
(* ================================================================== *)

(** The values config.ts reads from the process environment.  The trigger
    pattern is the regular expression [^@NAME\b] with the [i] flag; its
    [test] method is taken as given.  The output cap carries the bounds its
    schema enforces at start-up (a positive integer of at most 100 MB). *)
Class Config := {
  ASSISTANT_NAME : list N;
  MESSAGE_PREFIX : list N;
  TRIGGER_PATTERN_test : list N -> bool;
  PROJECT_ROOT : list (list N);
  CONTAINER_MAX_OUTPUT_SIZE : Z;
  max_output_positive : 0 < CONTAINER_MAX_OUTPUT_SIZE;
  max_output_bounded : CONTAINER_MAX_OUTPUT_SIZE <= 104857600;
}.

Definition GROUPS_DIR {cfg : Config} : Path := PROJECT_ROOT ++ [js "groups"].
Definition DATA_DIR {cfg : Config} : Path := PROJECT_ROOT ++ [js "data"].
Definition MAIN_GROUP_FOLDER : list N := js "main".

(* ================================================================== *)
(** * The container runner (container-runner.ts) *)
(* ================================================================== *)

Module Runner.

(** Sentinel markers for robust output parsing. *)
Definition OUTPUT_START_MARKER : list N := js "---GIGACLAW_OUTPUT_START---".
Definition OUTPUT_END_MARKER : list N := js "---GIGACLAW_OUTPUT_END---".

Definition ALLOWED_ENV_VARS : list (list N) :=
  [ js "CLAUDE_CODE_OAUTH_TOKEN";
    js "ANTHROPIC_API_KEY";
    js "ANTHROPIC_BASE_URL";
    js "ANTHROPIC_AUTH_TOKEN";
    js "TZ" ].

Record ContainerInput := {
  prompt : list N;
  sessionId : option (list N);
  groupFolder : list N;
  chatJid : list N;
  isMain : bool;
  isScheduledTask : option bool;
}.

Inductive Status := StatusSuccess | StatusError.

Record ContainerOutput := {
  status : Status;
  result : option (list N);
  newSessionId : option (list N);
  error : option (list N);
}.

Record VolumeMount := {
  hostPath : list (list N);
  containerPath : list N;
  readonly : bool;
}.

(** A group as registered (types.ts): the fields the runner and the router
    read.  An extra mount request is handed to the validator as it is. *)
Record MountRequest := {
  req_hostPath : list N;
  req_containerPath : list N;
  req_readonly : bool;
}.

Record ContainerConfig := {
  timeout : option Z;
  additionalMounts : option (list MountRequest);
}.

Record RegisteredGroup := {
  name : list N;
  folder : list N;
  containerConfig : option ContainerConfig;
}.

(** A task as the router projects it for the snapshot. *)
Record Task := {
  id : list N;
  group_folder : list N;
  task_prompt : list N;
  schedule_type : list N;
  schedule_value : list N;
  task_status : list N;
  next_run : option (list N);
}.

Record AvailableGroup := {
  jid : list N;
  group_name : list N;
  lastActivity : list N;
  isRegistered : bool;
}.

#[global] Instance Status_eq_dec : EqDecision Status.
Proof. solve_decision. Defined.
#[global] Instance ContainerOutput_eq_dec : EqDecision ContainerOutput.
Proof. solve_decision. Defined.
#[global] Instance VolumeMount_eq_dec : EqDecision VolumeMount.
Proof. solve_decision. Defined.

(** What the runner takes from outside its own file: [JSON.parse] read at
    the type [ContainerOutput] ([None] when the parse throws, or yields
    [null], on which reading [.status] throws inside the same [try]);
    [JSON.stringify] of the two snapshots, of the session map and of the
    router state; the mount
    validator of mount-security.ts, which drops what it rejects and does
    not throw; the clock. *)
Class Builtins := {
  JSON_parse : list N -> option ContainerOutput;
  JSON_stringify_tasks : list Task -> list N;
  JSON_stringify_groups : list AvailableGroup -> list N -> list N;
  JSON_stringify_sessions : gmap (list N) (list N) -> list N;
  JSON_stringify_state : gmap (list N) (list N) -> list N;
  validateAdditionalMounts : list MountRequest -> list N -> bool -> list VolumeMount;
  Date_toISOString : list N;
}.

Section Runner.
Context {cfg : Config} {bi : Builtins}.

(** ** Environment filtering and volume mounts *)

(** The predicate of [envContent.split('\n').filter(...)]. *)
Definition envLineAllowed (line : list N) : bool :=
  let trimmed := trim line in
  if negb (truthy trimmed) || startsWith trimmed (js "#") then false
  else existsb (fun v => startsWith trimmed (v ++ js "=")) ALLOWED_ENV_VARS.

Definition filterEnvLines (envContent : list N) : list (list N) :=
  List.filter envLineAllowed (split LF envContent).

Definition envDir : Path := DATA_DIR ++ [js "env"].
Definition envFile : Path := PROJECT_ROOT ++ [js ".env"].

Definition buildVolumeMounts (group : RegisteredGroup) (isMain : bool)
  : M Disk (list VolumeMount) :=
  let projectRoot := PROJECT_ROOT in
  let groupMount :=
    {| hostPath := GROUPS_DIR ++ [folder group];
       containerPath := js "/workspace/group"; readonly := false |} in
  let* mounts :=
    (if isMain then
       ret [ {| hostPath := projectRoot;
                containerPath := js "/workspace/project"; readonly := false |};
             groupMount ]
     else
       let globalDir := GROUPS_DIR ++ [js "global"] in
       let* globalExists := existsSync globalDir in
       ret (if globalExists then
              [ groupMount;
                {| hostPath := globalDir;
                   containerPath := js "/workspace/global"; readonly := true |} ]
            else [ groupMount ])) in
  let groupSessionsDir := DATA_DIR ++ [js "sessions"; folder group] in
  do* mkdirSync (groupSessionsDir ++ [js ".claude"]) in
  let mounts := mounts ++
    [ {| hostPath := groupSessionsDir;
         containerPath := js "/home/user"; readonly := false |} ] in
  let groupIpcDir := DATA_DIR ++ [js "ipc"; folder group] in
  do* mkdirSync (groupIpcDir ++ [js "messages"]) in
  do* mkdirSync (groupIpcDir ++ [js "tasks"]) in
  let mounts := mounts ++
    [ {| hostPath := groupIpcDir;
         containerPath := js "/workspace/ipc"; readonly := false |} ] in
  do* mkdirSync envDir in
  let* envExists := existsSync envFile in
  let* mounts :=
    (if envExists then
       let* envContent := readFileSync envFile in
       let filteredLines := filterEnvLines envContent in
       if 0 <? Z.of_nat (length filteredLines) then
         do* writeFileSync (envDir ++ [js "env"])
                       (join [LF] filteredLines ++ [LF]) in
         ret (mounts ++
              [ {| hostPath := envDir;
                   containerPath := js "/workspace/env-dir"; readonly := true |} ])
       else ret mounts
     else ret mounts) in
  match containerConfig group with
  | Some cfg =>
      match additionalMounts cfg with
      | Some requested =>
          ret (mounts ++ validateAdditionalMounts requested (name group) isMain)
      | None => ret mounts
      end
  | None => ret mounts
  end.

(** ** The child process

    The promise of [runContainerAgent] is driven by the events of the spawned
    child: decoded chunks of its two output streams, the expiry of the timer
    set by [setTimeout], the ['close'] event with the exit code ([null] when
    a signal ended the child) and the ['error'] event.  The state below holds
    the variables the executor closes over; [settled] is the value the
    promise was resolved with, and only the first [resolve] counts.  Calls
    of the logger leave no trace in it. *)

Inductive ChildEvent :=
  | StdoutData (chunk : list N)
  | StderrData (chunk : list N)
  | TimerFired
  | Close (code : option Z)
  | SpawnError.

Record RunState := {
  stdout : list N;
  stderr : list N;
  stdoutTruncated : bool;
  stderrTruncated : bool;
  timerArmed : bool;
  settled : option ContainerOutput;
}.

Definition spawned : RunState :=
  {| stdout := []; stderr := []; stdoutTruncated := false;
     stderrTruncated := false; timerArmed := true; settled := None |}.

Definition with_stdout (s : list N) (truncated : bool) (st : RunState) : RunState :=
  {| stdout := s; stderr := stderr st; stdoutTruncated := truncated;
     stderrTruncated := stderrTruncated st; timerArmed := timerArmed st;
     settled := settled st |}.

Definition with_stderr (s : list N) (truncated : bool) (st : RunState) : RunState :=
  {| stdout := stdout st; stderr := s; stdoutTruncated := stdoutTruncated st;
     stderrTruncated := truncated; timerArmed := timerArmed st;
     settled := settled st |}.

(** [clearTimeout(timeout)], and the timer having fired. *)
Definition disarm (st : RunState) : RunState :=
  {| stdout := stdout st; stderr := stderr st;
     stdoutTruncated := stdoutTruncated st;
     stderrTruncated := stderrTruncated st; timerArmed := false;
     settled := settled st |}.

(** [resolve(o)]: settles the promise unless it is settled already. *)
Definition resolve (o : ContainerOutput) (st : RunState) : RunState :=
  match settled st with
  | Some _ => st
  | None =>
      {| stdout := stdout st; stderr := stderr st;
         stdoutTruncated := stdoutTruncated st;
         stderrTruncated := stderrTruncated st; timerArmed := timerArmed st;
         settled := Some o |}
  end.

(** [{ status: 'error', result: null, error: msg }] *)
Definition errorOutput (msg : list N) : ContainerOutput :=
  {| status := StatusError; result := None; newSessionId := None;
     error := Some msg |}.

(** [container.stdout.on('data', ...)] *)
Definition onStdoutData (chunk : list N) (st : RunState) : RunState :=
  if stdoutTruncated st then st
  else
    let remaining := CONTAINER_MAX_OUTPUT_SIZE - len (stdout st) in
    if len chunk >? remaining then
      with_stdout (stdout st ++ slice chunk 0 remaining) true st
    else
      with_stdout (stdout st ++ chunk) (stdoutTruncated st) st.

(** [container.stderr.on('data', ...)] *)
Definition onStderrData (chunk : list N) (st : RunState) : RunState :=
  if stderrTruncated st then st
  else
    let remaining := CONTAINER_MAX_OUTPUT_SIZE - len (stderr st) in
    if len chunk >? remaining then
      with_stderr (stderr st ++ slice chunk 0 remaining) true st
    else
      with_stderr (stderr st ++ chunk) (stderrTruncated st) st.

(** The callback of [setTimeout]: the child is killed and the promise
    resolved.  A cleared timer never fires. *)
Definition onTimeout (st : RunState) : RunState :=
  if timerArmed st then
    resolve (errorOutput (js "Container timed out")) (disarm st)
  else st.

(** The payload of the result protocol, as the ['close'] handler takes it
    from the accumulated stdout. *)
Definition extractPayload (out : list N) : list N :=
  let startIdx := indexOf out OUTPUT_START_MARKER in
  let endIdx := indexOf out OUTPUT_END_MARKER in
  if negb (startIdx =? -1) && negb (endIdx =? -1) && (endIdx >? startIdx) then
    trim (slice out (startIdx + len OUTPUT_START_MARKER) endIdx)
  else
    let lines := split LF (trim out) in
    default [] (last lines).

(** The [try]/[catch] of the ['close'] handler. *)
Definition parseOutput (out : list N) : ContainerOutput :=
  match JSON_parse (extractPayload out) with
  | Some output => output
  | None => errorOutput (js "Failed to parse container output")
  end.

(** [`${code}`] for an exit code. *)
Definition showCode (code : option Z) : list N :=
  match code with
  | Some n => of_Z n
  | None => js "null"
  end.

(** [container.on('close', ...)] *)
Definition onClose (code : option Z) (st : RunState) : RunState :=
  let st := disarm st in
  if negb (bool_decide (code = Some 0)) then
    resolve (errorOutput (js "Container exited with code " ++ showCode code)) st
  else
    resolve (parseOutput (stdout st)) st.

(** [container.on('error', ...)] *)
Definition onError (st : RunState) : RunState :=
  resolve (errorOutput (js "Container spawn error")) (disarm st).

Definition handle (st : RunState) (ev : ChildEvent) : RunState :=
  match ev with
  | StdoutData chunk => onStdoutData chunk st
  | StderrData chunk => onStderrData chunk st
  | TimerFired => onTimeout st
  | Close code => onClose code st
  | SpawnError => onError st
  end.

Definition runChild (events : list ChildEvent) : RunState :=
  fold_left handle events spawned.

(** Everything the child wrote to a stream, whether kept or not. *)
Definition emitted_stdout (events : list ChildEvent) : list N :=
  concat (omap (fun ev => match ev with StdoutData c => Some c | _ => None end)
               events).

Definition emitted_stderr (events : list ChildEvent) : list N :=
  concat (omap (fun ev => match ev with StderrData c => Some c | _ => None end)
               events).

(** The invariant of one stream: the buffer is the emitted stream cut at
    the cap, and the flag is raised only once the stream went over it. *)
Definition capped (buffer : list N) (truncated : bool) (stream : list N) : Prop :=
  buffer = take (Z.to_nat CONTAINER_MAX_OUTPUT_SIZE) stream
  ∧ (truncated = false → len stream <= CONTAINER_MAX_OUTPUT_SIZE)
  ∧ (truncated = true → CONTAINER_MAX_OUTPUT_SIZE < len stream).

(** An event of an output stream, as opposed to one that ends the turn. *)
Definition is_data (ev : ChildEvent) : bool :=
  match ev with
  | StdoutData _ | StderrData _ => true
  | _ => false
  end.

(** The fallback payload in the words of the specification: the last
    non-empty line of stdout. *)
Definition spec_lastNonEmptyLine (out : list N) : list N :=
  default [] (last (List.filter truthy (split LF out))).

(** The synchronous part of [runContainerAgent], before the promise is
    created: nothing catches what it throws. *)
Definition prepare (group : RegisteredGroup) (input : ContainerInput)
  : M Disk (list VolumeMount) :=
  let groupDir := GROUPS_DIR ++ [folder group] in
  do* mkdirSync groupDir in
  let* mounts := buildVolumeMounts group (isMain input) in
  let logsDir := GROUPS_DIR ++ [folder group; js "logs"] in
  do* mkdirSync logsDir in
  ret mounts.

(** ** The streams of the child

    Right after the spawn the executor writes the input to the child,
    [container.stdin.write(JSON.stringify(input))], and ends the stream.
    Both calls return at once; when the write fails ([EPIPE]: the child
    has exited without reading its input) the stream emits ['error'].  So
    may the two output streams.  The executor registers no listener for
    ['error'] on any of the three streams, and the host installs no
    handler for uncaught exceptions (index.ts): Node throws the error of
    an ['error'] event that has no listener, and the host process ends. *)
Inductive Stream := Stdin | Stdout | Stderr.

(** What reaches the host from a spawned child: an event the executor
    listens to, or the ['error'] of a stream. *)
Inductive ProcessEvent :=
  | Handled (ev : ChildEvent)
  | StreamError (stream : Stream).

(** What becomes of the promise once the child is spawned.  It is never
    rejected: the executor has no [reject]. *)
Inductive Outcome :=
  | StillPending
  | ResolvedWith (o : ContainerOutput)
  | HostTerminated.

Fixpoint deliver (st : RunState) (events : list ProcessEvent) : Outcome :=
  match events with
  | [] =>
      match settled st with
      | Some o => ResolvedWith o
      | None => StillPending
      end
  | Handled ev :: events => deliver (handle st ev) events
  | StreamError _ :: _ => HostTerminated
  end.

Definition runProcess (events : list ProcessEvent) : Outcome :=
  deliver spawned events.

(** [runContainerAgent(group, input)], for a child from which [events]
    reach the host: [Throw] is a rejected promise, [Ok] what becomes of
    the promise after these events.  A child that cannot be started is
    reported by the ['error'] event of the child; [spawn] itself is taken
    not to throw. *)
Definition runContainerAgent (group : RegisteredGroup) (input : ContainerInput)
    (events : list ProcessEvent) : M Disk Outcome :=
  let* mounts := prepare group input in
  ret (runProcess events).

(** ** IPC snapshots *)

Definition writeTasksSnapshot (groupFolder : list N) (isMain : bool)
    (tasks : list Task) : M Disk unit :=
  let groupIpcDir := DATA_DIR ++ [js "ipc"; groupFolder] in
  do* mkdirSync groupIpcDir in
  let filteredTasks :=
    if isMain then tasks
    else filter (fun t => group_folder t = groupFolder) tasks in
  let tasksFile := groupIpcDir ++ [js "current_tasks.json"] in
  writeFileSync tasksFile (JSON_stringify_tasks filteredTasks).

Definition writeGroupsSnapshot (groupFolder : list N) (isMain : bool)
    (groups : list AvailableGroup) : M Disk unit :=
  let groupIpcDir := DATA_DIR ++ [js "ipc"; groupFolder] in
  do* mkdirSync groupIpcDir in
  let visibleGroups := if isMain then groups else [] in
  let groupsFile := groupIpcDir ++ [js "available_groups.json"] in
  writeFileSync groupsFile (JSON_stringify_groups visibleGroups Date_toISOString).

End Runner.
End Runner.

(* ================================================================== *)
(** * The environment loader inside the container (load-env.ts) *)
(* ================================================================== *)

Module LoadEnv.

(** The body of the loop of [loadContainerEnv] for one line: the variable
    it assigns, if any. *)
Definition parseLine (line : list N) : option (list N * list N) :=
  let trimmed := trim line in
  if negb (truthy trimmed) || startsWith trimmed (js "#") then None
  else
    let eqIndex := indexOf trimmed (js "=") in
    if eqIndex >? 0 then
      let key := trim (slice trimmed 0 eqIndex) in
      let value := trim (slice_from trimmed (eqIndex + 1)) in
      Some (key, value)
    else None.

Definition loadLine (env : gmap (list N) (list N)) (line : list N)
  : gmap (list N) (list N) :=
  match parseLine line with
  | Some (key, value) => <[key := value]> env
  | None => env
  end.

(** [loadContainerEnv()] on the content of [/workspace/env-dir/env]: the
    process environment after the loop. *)
Definition loadContainerEnv (envContent : list N) (env : gmap (list N) (list N))
  : gmap (list N) (list N) :=
  fold_left loadLine (split LF envContent) env.

End LoadEnv.

(* ================================================================== *)
(** * The message router (message-router.ts) *)
(* ================================================================== *)

Module Router.
Import Runner.

Record NewMessage := {
  msg_id : list N;
  chat_jid : list N;
  sender : list N;
  sender_name : list N;
  content : list N;
  timestamp : list N;
}.

Record Chat := {
  chat_id : list N;
  chat_name : list N;
  last_message_time : list N;
}.

(** The relational store behind db.ts, as far as the router reads it. *)
Record Db := {
  db_messages : list NewMessage;
  db_tasks : list Task;
  db_chats : list Chat;
}.

(** How a call of [runContainerAgent] ends for the router: its promise is
    resolved with an output, or rejected. *)
Inductive RunOutcome :=
  | Resolved (output : ContainerOutput)
  | Rejected (e : Exn).

(** The calls the router makes to the runner and to the transport. *)
Inductive Call :=
  | CallRunContainerAgent (group : RegisteredGroup) (input : ContainerInput)
  | CallSendTypingAction (chatId : list N)
  | CallSendMessage (jid : list N) (text : list N).

(** The host process as the router sees it: the file system (on which
    [saveState] and [saveJson] make the maps durable), the shared
    in-process maps of state.ts, the store, and the calls made so far
    (latest last). *)
Record World := {
  disk : Disk;
  sessions : gmap (list N) (list N);
  lastAgentTimestamp : gmap (list N) (list N);
  registeredGroups : gmap (list N) RegisteredGroup;
  db : Db;
  calls : list Call;
}.

Definition set_disk (d : Disk) (w : World) : World :=
  {| disk := d; sessions := sessions w;
     lastAgentTimestamp := lastAgentTimestamp w;
     registeredGroups := registeredGroups w; db := db w;
     calls := calls w |}.

Definition set_sessions (s : gmap (list N) (list N)) (w : World) : World :=
  {| disk := disk w; sessions := s;
     lastAgentTimestamp := lastAgentTimestamp w;
     registeredGroups := registeredGroups w; db := db w;
     calls := calls w |}.

Definition set_lastAgentTimestamp (t : gmap (list N) (list N)) (w : World) : World :=
  {| disk := disk w; sessions := sessions w; lastAgentTimestamp := t;
     registeredGroups := registeredGroups w; db := db w;
     calls := calls w |}.

Definition set_db (b : Db) (w : World) : World :=
  {| disk := disk w; sessions := sessions w;
     lastAgentTimestamp := lastAgentTimestamp w;
     registeredGroups := registeredGroups w; db := b;
     calls := calls w |}.

Definition record_call (c : Call) (w : World) : World :=
  {| disk := disk w; sessions := sessions w;
     lastAgentTimestamp := lastAgentTimestamp w;
     registeredGroups := registeredGroups w; db := db w;
     calls := calls w ++ [c] |}.

(** A file-system computation of the runner, run on the host's disk. *)
Definition on_disk {A} (c : M Disk A) : M World A := zoom disk set_disk c.

Section Router.
Context {cfg : Config} {bi : Builtins}.

(** Modelled from the spec: [getMessagesSince] of db.ts, which is not among
    the sources: the stored messages of the chat strictly after the given
    timestamp, excluding those authored by the assistant, in the order of
    the store. *)
Definition getMessagesSince (b : Db) (chatJid sinceTimestamp botName : list N)
  : list NewMessage :=
  List.filter
    (fun m => bool_decide (chat_jid m = chatJid)
              && ltb sinceTimestamp (timestamp m)
              && negb (bool_decide (sender_name m = botName)))
    (db_messages b).

(** Modelled from the spec: [saveJson] of utils.ts, which is not among the
    sources, and of which the specification says no more than its callers
    do: it is taken to write the JSON text of the data to the file with
    [fs.writeFileSync], so that a write the host refuses throws.  [json] is
    the text [JSON.stringify] gives for the data. *)
Definition saveJson (p : Path) (json : list N) : M World unit :=
  on_disk (writeFileSync p json).

(** [saveState()] (state.ts): the watermarks, then the session handles. *)
Definition saveState : M World unit :=
  let* w := get in
  do* saveJson (DATA_DIR ++ [js "router_state.json"])
        (JSON_stringify_state (lastAgentTimestamp w)) in
  saveJson (DATA_DIR ++ [js "sessions.json"])
    (JSON_stringify_sessions (sessions w)).

Definition getAvailableGroups (w : World) : list AvailableGroup :=
  let chats := db_chats (db w) in
  map (fun c =>
         {| jid := chat_id c;
            group_name := chat_name c;
            lastActivity := last_message_time c;
            isRegistered :=
              bool_decide (is_Some (registeredGroups w !! chat_id c)) |})
      chats.

(** [escapeXml]: the four chained [replace] calls, for the ampersand first
    and then for the two angle brackets and the double quote.  No
    replacement text holds a character that a later call replaces, so one
    pass over the code units does the same. *)
Definition escapeXml (s : list N) : list N :=
  flat_map (fun c =>
              if (c =? 38)%N then js "&amp;"
              else if (c =? 60)%N then js "&lt;"
              else if (c =? 62)%N then js "&gt;"
              else if (c =? 34)%N then js "&quot;"
              else [c]) s.

Definition quote : list N := [34%N].

Definition formatMessage (m : NewMessage) : list N :=
  js "<message sender=" ++ quote ++ escapeXml (sender_name m) ++ quote
  ++ js " time=" ++ quote ++ timestamp m ++ quote ++ js ">"
  ++ escapeXml (content m) ++ js "</message>".

Definition buildPrompt (missedMessages : list NewMessage) : list N :=
  let lines := map formatMessage missedMessages in
  js "<messages>" ++ [LF] ++ join [LF] lines ++ [LF] ++ js "</messages>".

Definition TELEGRAM_PREFIX : list N := js "telegram@chat:".

(** [runAgent(group, prompt, chatJid)], when the runner ends the turn as
    [run] says. *)
Definition runAgent (run : ContainerInput -> RunOutcome) (group : RegisteredGroup)
    (prompt : list N) (chatJid : list N) : M World (option (list N)) :=
  let isMain := bool_decide (folder group = MAIN_GROUP_FOLDER) in
  let* w := get in
  let sessionId := sessions w !! folder group in
  let tasks := db_tasks (db w) in
  do* on_disk (writeTasksSnapshot (folder group) isMain
                 (map (fun t =>
                         {| id := id t;
                            group_folder := group_folder t;
                            task_prompt := task_prompt t;
                            schedule_type := schedule_type t;
                            schedule_value := schedule_value t;
                            task_status := task_status t;
                            next_run := next_run t |}) tasks)) in
  let availableGroups := getAvailableGroups w in
  do* on_disk (writeGroupsSnapshot (folder group) isMain availableGroups) in
  try_catch
    (let input :=
       {| prompt := prompt; sessionId := sessionId;
          groupFolder := folder group; chatJid := chatJid; isMain := isMain;
          isScheduledTask := None |} in
     do* modify (record_call (CallRunContainerAgent group input)) in
     let* output :=
       match run input with
       | Resolved output => ret output
       | Rejected e => throw e
       end in
     do* (if truthy_opt (newSessionId output) then
            do* modify (fun w =>
                  set_sessions
                    (<[folder group := default [] (newSessionId output)]> (sessions w)) w) in
            let* w := get in
            saveJson (DATA_DIR ++ [js "sessions.json"])
              (JSON_stringify_sessions (sessions w))
          else ret tt) in
     if bool_decide (status output = StatusError) then ret None
     else ret (result output))
    (fun err => ret None).

(** [processMessage(msg)] *)
Definition processMessage (run : ContainerInput -> RunOutcome) (msg : NewMessage)
  : M World unit :=
  let* w := get in
  match registeredGroups w !! chat_jid msg with
  | None => ret tt
  | Some group =>
      let content := trim (content msg) in
      let isMainGroup := bool_decide (folder group = MAIN_GROUP_FOLDER) in
      if negb isMainGroup && negb (TRIGGER_PATTERN_test content) then ret tt
      else
        let sinceTimestamp := default [] (lastAgentTimestamp w !! chat_jid msg) in
        let missedMessages :=
          getMessagesSince (db w) (chat_jid msg) sinceTimestamp ASSISTANT_NAME in
        let prompt := buildPrompt missedMessages in
        if negb (truthy prompt) then ret tt
        else
          do* when (startsWith (chat_jid msg) TELEGRAM_PREFIX)
                (modify (record_call
                   (CallSendTypingAction
                      (drop (length TELEGRAM_PREFIX) (chat_jid msg))))) in
          let* response := runAgent run group prompt (chat_jid msg) in
          if truthy_opt response then
            do* modify (fun w =>
                  set_lastAgentTimestamp
                    (<[chat_jid msg := timestamp msg]> (lastAgentTimestamp w)) w) in
            do* saveState in
            modify (record_call
              (CallSendMessage (chat_jid msg)
                 (MESSAGE_PREFIX ++ ASSISTANT_NAME ++ js ": "
                  ++ default [] response)))
          else ret tt
  end.

(** ** Sequences of turns

    Between two messages the store changes as the transport stores what
    arrives; the caller of [processMessage] catches what it throws and goes
    on with the next message. *)
Record Turn := {
  turn_db : Db;
  turn_msg : NewMessage;
  turn_run : ContainerInput -> RunOutcome;
}.

Definition playTurn (w : World) (t : Turn) : World :=
  snd (processMessage (turn_run t) (turn_msg t) (set_db (turn_db t) w)).

Definition play (w : World) (turns : list Turn) : World :=
  fold_left playTurn turns w.

(** The watermark of a chat, as [processMessage] reads it. *)
Definition watermark (w : World) (chatJid : list N) : list N :=
  default [] (lastAgentTimestamp w !! chatJid).

(** The timestamps of the messages of one chat in a sequence of turns, in
    the order of the turns. *)
Definition chat_timestamps (chatJid : list N) (turns : list Turn) : list (list N) :=
  map (fun t => timestamp (turn_msg t))
      (filter (fun t => chat_jid (turn_msg t) = chatJid) turns).

End Router.
End Router.

(* ================================================================== *)
(** * A concrete host, for running the model *)
(* ================================================================== *)

Module Demo.
Import Runner Router.

(** A double-quoted JSON string. *)
Definition q (s : string) : list N := [34%N] ++ js s ++ [34%N].

Definition is_word (c : N) : bool :=
  ((48 <=? c) && (c <=? 57) || (65 <=? c) && (c <=? 90)
   || (97 <=? c) && (c <=? 122) || (c =? 95))%N.

Definition upper (c : N) : N :=
  if ((97 <=? c) && (c <=? 122))%N then (c - 32)%N else c.

(** The trigger pattern of the assistant name [Neo], on ASCII input. *)
Definition trigger_Neo (s : list N) : bool :=
  bool_decide (map upper (take 4 s) = js "@NEO")
  && match drop 4 s with
     | [] => true
     | c :: _ => negb (is_word c)
     end.

Definition config : Config := {|
  ASSISTANT_NAME := js "Neo";
  MESSAGE_PREFIX := [];
  TRIGGER_PATTERN_test := trigger_Neo;
  PROJECT_ROOT := [js "srv"; js "gigaclaw"];
  CONTAINER_MAX_OUTPUT_SIZE := 10485760;
  max_output_positive := eq_refl;
  max_output_bounded := ltac:(discriminate);
|}.

(** A host whose output cap is four code units. *)
Definition small_cap : Config := {|
  ASSISTANT_NAME := js "Neo";
  MESSAGE_PREFIX := [];
  TRIGGER_PATTERN_test := trigger_Neo;
  PROJECT_ROOT := [js "srv"; js "gigaclaw"];
  CONTAINER_MAX_OUTPUT_SIZE := 4;
  max_output_positive := eq_refl;
  max_output_bounded := ltac:(discriminate);
|}.

Definition ok_payload : list N :=
  js "{" ++ q "status" ++ js ":" ++ q "success" ++ js ","
  ++ q "result" ++ js ":" ++ q "ok" ++ js "}".

Definition ok_output : ContainerOutput :=
  {| status := StatusSuccess; result := Some (js "ok");
     newSessionId := None; error := None |}.

Definition err_payload : list N :=
  js "{" ++ q "status" ++ js ":" ++ q "error" ++ js ","
  ++ q "result" ++ js ":null," ++ q "error" ++ js ":" ++ q "x" ++ js "}".

Definition err_output : ContainerOutput :=
  {| status := StatusError; result := None;
     newSessionId := None; error := Some (js "x") |}.

(** A stand-in for [JSON.parse] that knows the two payloads above. *)
Definition parse_known (s : list N) : option ContainerOutput :=
  if bool_decide (s = ok_payload) then Some ok_output
  else if bool_decide (s = err_payload) then Some err_output
  else None.

Definition builtins : Builtins := {|
  JSON_parse := parse_known;
  JSON_stringify_tasks := fun ts => js "tasks:" ++ join (js ",") (map id ts);
  JSON_stringify_groups :=
    fun gs now => js "groups:" ++ join (js ",") (map jid gs) ++ js "@" ++ now;
  JSON_stringify_sessions :=
    fun m => js "sessions:" ++ join (js ",") (map snd (map_to_list m));
  JSON_stringify_state :=
    fun m => js "state:" ++ join (js ",") (map snd (map_to_list m));
  validateAdditionalMounts := fun _ _ _ => [];
  Date_toISOString := js "2024-05-01T10:00:00.000Z";
|}.

Definition empty_disk : Disk := {| files := ∅; dirs := ∅; denied := ∅ |}.

(** A host on which the directory of the main group may not be written. *)
Definition locked_disk : Disk :=
  {| files := ∅; dirs := ∅;
     denied := {[ [js "srv"; js "gigaclaw"; js "groups"; js "main"] ]} |}.

(** A host whose environment file holds an indented allowed variable, a
    secret, a comment and an allowed variable. *)
Definition env_content : list N :=
  js " TZ=UTC" ++ [LF] ++ js "DB_PASSWORD=hunter2" ++ [LF]
  ++ js "# keys" ++ [LF] ++ js "ANTHROPIC_API_KEY=sk-1" ++ [LF].

Definition env_disk : Disk :=
  {| files := {[ [js "srv"; js "gigaclaw"; js ".env"] := env_content ]};
     dirs := ∅; denied := ∅ |}.

Definition main_input : ContainerInput :=
  {| prompt := js "<messages></messages>"; sessionId := None;
     groupFolder := js "main"; chatJid := js "telegram@chat:1";
     isMain := true; isScheduledTask := None |}.

Definition main_group : RegisteredGroup :=
  {| name := js "Main"; folder := js "main"; containerConfig := None |}.

Definition family_group : RegisteredGroup :=
  {| name := js "Family"; folder := js "family"; containerConfig := None |}.

Definition main_jid : list N := js "telegram@chat:1".
Definition family_jid : list N := js "telegram@chat:2".

Definition task_of (i f : string) : Task :=
  {| id := js i; group_folder := js f; task_prompt := js "remind";
     schedule_type := js "once"; schedule_value := js "2024-06-01";
     task_status := js "active"; next_run := None |}.

Definition message_at (i : string) (chat : list N) (ts text : string) : NewMessage :=
  {| msg_id := js i; chat_jid := chat; sender := js "42";
     sender_name := js "alice"; content := js text; timestamp := js ts |}.

Definition first_msg : NewMessage :=
  message_at "telegram_1" main_jid "2024-05-01T10:00:00.000Z" "hello".

(** A second message of the same chat, sent within the same second. *)
Definition same_second_msg : NewMessage :=
  message_at "telegram_2" main_jid "2024-05-01T10:00:00.000Z" "anyone?".

Definition earlier_msg : NewMessage :=
  message_at "telegram_0" main_jid "2024-05-01T09:00:00.000Z" "early".

Definition store : Db :=
  {| db_messages := [first_msg; same_second_msg];
     db_tasks := [task_of "t1" "main"; task_of "t2" "family"];
     db_chats := [] |}.

Definition world : World :=
  {| disk := empty_disk; sessions := ∅; lastAgentTimestamp := ∅;
     registeredGroups := {[ main_jid := main_group; family_jid := family_group ]};
     db := store; calls := [] |}.

(** The same host after the first message was answered. *)
Definition world_answered : World :=
  set_lastAgentTimestamp {[ main_jid := timestamp first_msg ]} world.

Definition answers (text : string) : ContainerInput -> RunOutcome :=
  fun _ => Resolved {| status := StatusSuccess; result := Some (js text);
                       newSessionId := None; error := None |}.

(** A turn that fails after the agent opened a new session. *)
Definition session_error_output : ContainerOutput :=
  {| status := StatusError; result := None;
     newSessionId := Some (js "s2"); error := Some (js "boom") |}.

Definition fails_with_session : ContainerInput -> RunOutcome :=
  fun _ => Resolved session_error_output.

Definition turn_of (m : NewMessage) (run : ContainerInput -> RunOutcome) : Turn :=
  {| turn_db := store; turn_msg := m; turn_run := run |}.

Definition later_msg : NewMessage :=
  message_at "telegram_3" main_jid "2024-05-01T11:30:00.000Z" "thanks".

Definition fails_plainly : ContainerInput -> RunOutcome :=
  fun _ => Resolved (errorOutput (js "Container timed out")).

End Demo.

(* ================================================================== *)
(** * The container command line (container-runner.ts) *)
(* ================================================================== *)

Module Args.
Import Runner.

Section Args.

(** The host path of a mount as the string the runner interpolates, the
    user and group of the process ([undefined] where the platform has
    none), and the image named by config.ts. *)
Variable pathString : list (list N) -> list N.
Variables getuid getgid : option Z.
Variable CONTAINER_IMAGE : list N.

(** The body of the loop over the mounts: what one mount pushes. *)
Definition mountArgs (mount : VolumeMount) : list (list N) :=
  if readonly mount then
    [ js "--mount";
      js "type=bind,source=" ++ pathString (hostPath mount)
      ++ js ",target=" ++ containerPath mount ++ js ",readonly" ]
  else
    [ js "-v"; pathString (hostPath mount) ++ js ":" ++ containerPath mount ].

(** [buildContainerArgs(mounts)] *)
Definition buildContainerArgs (mounts : list VolumeMount) : list (list N) :=
  let args := [js "run"; js "-i"; js "--rm"] in
  let uid := default 1000 getuid in
  let gid := default 1000 getgid in
  let args := args ++ [js "--user"; of_Z uid ++ js ":" ++ of_Z gid] in
  let args := args ++ [js "-e"; js "HOME=/home/user"] in
  let args := fold_left (fun args mount => args ++ mountArgs mount) mounts args in
  args ++ [CONTAINER_IMAGE].

End Args.
End Args.

(* ================================================================== *)
(** * The transport: chat identifiers and the Telegram adapter
      (message-router.ts, telegram.ts) *)
(* ================================================================== *)

Module Transport.
Import Runner Router.

(** ** [parseInt(s, 10)]

    Leading white space is skipped, one sign is read, and the longest run
    of decimal digits that follows gives the value; without a digit the
    result is [NaN], here [None].  The value is the integer the digits
    denote: JavaScript returns the Number nearest to it, which is that
    integer itself up to 2^53. *)
Definition is_digit (c : N) : bool := ((48 <=? c) && (c <=? 57))%N.

Fixpoint digits_value (acc : Z) (s : list N) : Z :=
  match s with
  | c :: s' =>
      if is_digit c then digits_value (10 * acc + (Z.of_N c - 48)) s' else acc
  | [] => acc
  end.

Definition parseInt10 (s : list N) : option Z :=
  let trimmed := trimStart s in
  let signed :=
    match trimmed with
    | c :: rest =>
        if (c =? 45)%N then (-1, rest)
        else if (c =? 43)%N then (1, rest)
        else (1, trimmed)
    | [] => (1, trimmed)
    end in
  match snd signed with
  | c :: _ =>
      if is_digit c then Some (fst signed * digits_value 0 (snd signed))
      else None
  | [] => None
  end.

(** ** [sendMessage(jid, text)] (message-router.ts)

    The call of [sendTelegramResponse] it makes, if any. *)
Definition sendMessage (jid text : list N) : option (Z * list N) :=
  if startsWith jid TELEGRAM_PREFIX then
    let chatIdStr := split 58 jid !! 1%nat in
    if negb (truthy_opt chatIdStr) then None
    else
      match parseInt10 (default [] chatIdStr) with
      | None => None
      | Some chatId => Some (chatId, text)
      end
  else None.

(** The chat that [processMessage] sends the typing indicator to, for a
    chat identifier that starts with the Telegram prefix:
    [parseInt(msg.chat_jid.replace('telegram@chat:', ''), 10)], read from
    the argument recorded with the call. *)
Definition typingChatId (recorded : list N) : option Z := parseInt10 recorded.

(** ** The Telegram adapter (telegram.ts)

    The numbers of an update are JavaScript Numbers; Telegram's are
    integers, and they are kept as such. *)

Record TgUser := {
  user_id : Z;
  username : option (list N);
  first_name : list N;
  last_name : option (list N);
}.

Record TgMessage := {
  message_id : Z;
  tg_chat_id : Z;
  from : option TgUser;
  text : option (list N);
  date : Z;
}.

Record Context := { message : option TgMessage }.

(** [a || b] on strings that may be missing. *)
Definition or_else (a : option (list N)) (b : list N) : list N :=
  if truthy_opt a then default [] a else b.

(** [Number.isSafeInteger]: the integers that are Numbers together with
    both their neighbours, which JavaScript prints in full and [parseInt]
    reads back exactly. *)
Definition isSafeInteger (z : Z) : bool := Z.abs z <? 9007199254740992.

(** The time values a [Date] can hold, in milliseconds either side of the
    epoch; [toISOString] throws a [RangeError] on a date built from any
    other number. *)
Definition isTimeValue (ms : Z) : bool := Z.abs ms <=? 8640000000000000.

Section Adapter.

(** [new Date(ms).toISOString()], for a time value. *)
Variable Date_toISOString_ms : Z -> list N.

(** [telegramToNewMessage(ctx)]: the message, or the text of the error it
    throws. *)
Definition telegramToNewMessage (ctx : Context) : list N + NewMessage :=
  match message ctx with
  | None => inl (js "telegramToNewMessage called without message")
  | Some msg =>
      match from msg with
      | None => inl (js "telegramToNewMessage called without from")
      | Some sender_ =>
          if isTimeValue (date msg * 1000) then
            inr {| msg_id := js "telegram_" ++ of_Z (message_id msg);
                   chat_jid := js "telegram@chat:" ++ of_Z (tg_chat_id msg);
                   sender := of_Z (user_id sender_);
                   sender_name :=
                     or_else (username sender_)
                       (or_else (Some (first_name sender_))
                          (or_else (last_name sender_) (js "Unknown")));
                   content := or_else (text msg) [];
                   timestamp := Date_toISOString_ms (date msg * 1000) |}
          else inl (js "Invalid time value")
      end
  end.

End Adapter.

(** The authorization middleware of [startTelegramLoop]: whether it calls
    [next()] for an update, given the allowed user identifiers. *)
Definition authorized (allowed : list Z) (ctx : Context) : bool :=
  match message ctx with
  | None => true
  | Some msg =>
      match from msg with
      | None => false
      | Some user =>
          if (user_id user =? 0) then false
          else bool_decide (user_id user ∈ allowed)
      end
  end.

(** One round of [poll]: the updates are handled in order and each one
    handled moves the offset past it; an update whose handling throws ends
    the round. *)
Fixpoint pollRound (throws : Z -> bool) (updates : list Z) (offset : Z) : Z :=
  match updates with
  | [] => offset
  | update_id :: rest =>
      if throws update_id then offset
      else pollRound throws rest (update_id + 1)
  end.

End Transport.

(* ================================================================== *)
(** * The prompt, as the router writes it (message-router.ts) *)
(* ================================================================== *)

Module Prompt.
Import Router.

(** [s.replace(/c/g, rep)] for a pattern of one character. *)
Definition replaceAll (c : N) (rep : list N) (s : list N) : list N :=
  flat_map (fun x => if (x =? c)%N then rep else [x]) s.

(** [escapeXml] as the source chains it. *)
Definition escapeXml_chained (s : list N) : list N :=
  replaceAll 34 (js "&quot;")
    (replaceAll 62 (js "&gt;")
       (replaceAll 60 (js "&lt;")
          (replaceAll 38 (js "&amp;") s))).

End Prompt.

(* ================================================================== *)
(** * Start-up values (config.ts) *)
(* ================================================================== *)

Module ConfigLoad.
Import Transport.

(** [Schema.parse(parseInt(process.env.X || dflt, 10))] for a schema
    [z.number().int().positive().max(limit)]: the value, or [None] when
    the schema throws and the process does not start. *)
Definition parseBounded (limit : Z) (dflt : list N) (env : option (list N))
  : option Z :=
  let raw := or_else env dflt in
  match parseInt10 raw with
  | None => None
  | Some n => if (0 <? n) && (n <=? limit) then Some n else None
  end.

Definition load_CONTAINER_TIMEOUT (env : option (list N)) : option Z :=
  parseBounded 3600000 (js "300000") env.

Definition load_CONTAINER_MAX_OUTPUT_SIZE (env : option (list N)) : option Z :=
  parseBounded 104857600 (js "10485760") env.

(** [TELEGRAM_ALLOWED_USER_IDS]: the empty list when the variable is unset
    or empty, else every comma-separated entry read by [parseInt] once
    trimmed, each of which the schema wants positive. *)
Definition load_TELEGRAM_ALLOWED_USER_IDS (env : option (list N))
  : option (list Z) :=
  if truthy_opt env then
    let ids := map (fun entry => parseInt10 (trim entry)) (split 44 (default [] env)) in
    if forallb (fun id => match id with Some n => 0 <? n | None => false end) ids
    then Some (omap (fun id => id) ids)
    else None
  else Some [].

End ConfigLoad.

(* ================================================================== *)
(** * Paths as the file system sees them *)
(* ================================================================== *)

Module Paths.

(** One segment more of an absolute path under [path.normalize]: an empty
    segment and [.] change nothing, [..] drops the segment before it (at
    the root there is none to drop), any other name is appended. *)
Definition normalizeStep (acc : Path) (seg : list N) : Path :=
  if bool_decide (seg = []) || bool_decide (seg = js ".") then acc
  else if bool_decide (seg = js "..") then removelast acc
  else acc ++ [seg].

(** [path.join(...p)] for an absolute first argument, on POSIX: the
    arguments are joined with [/], split again at every [/] and
    normalised. *)
Definition normalize (p : Path) : Path :=
  fold_left normalizeStep (flat_map (split 47) p) [].

(** An ordinary name: not empty, neither [.] nor [..], without [/]. *)
Definition isName (seg : list N) : bool :=
  truthy seg && negb (bool_decide (seg = js "."))
  && negb (bool_decide (seg = js "..")) && negb (existsb (N.eqb 47) seg).

End Paths.

(* ================================================================== *)
(** * The entrypoint of the container (entrypoint.sh) *)
(* ================================================================== *)

Module Entrypoint.

(** The script reads the mounted environment file twice:
    [export $(cat /workspace/env-dir/env | xargs)], and then
    [env $(cat /workspace/env-dir/env | xargs) node /app/dist/index.js].
    [xargs] without a command echoes the words of its input, which blanks
    and newlines separate; the shell splits the echoed line into words
    again and hands each to [export], and later to [env].

    Quotes and the backslash mean something to [xargs], [*], [?] and the
    opening bracket to the shell, which expands the words it split; a word
    that starts with [-] is an option to [echo], to [export] or to [env].
    The embedding covers the files without any of these, and without
    control characters other than the line feed and the tab: on any other
    file it gives [None].  It gives [None] as well when the agent is not
    started: [export] refuses a word whose name is not a name of the shell,
    which ends the script under [set -e], and [env] takes the first word
    without [=] as the command to run in place of [node]. *)
Definition is_blank (c : N) : bool :=
  ((c =? 32) || (c =? 9) || (c =? 10))%N.

Definition is_covered (c : N) : bool :=
  (is_blank c
   || (32 <? c) && (c <? 127)
      && negb ((c =? 39) || (c =? 34) || (c =? 92) || (c =? 42) || (c =? 63)
               || (c =? 91)))%N.

(** A character of a word that the embedding covers. *)
Definition is_word_char (c : N) : bool := is_covered c && negb (is_blank c).

(** The words of a text: its maximal runs of characters that are not
    blank. *)
Fixpoint words_from (word : list N) (s : list N) : list (list N) :=
  match s with
  | [] => if truthy word then [word] else []
  | c :: s' =>
      if is_blank c then
        (if truthy word then [word] else []) ++ words_from [] s'
      else words_from (word ++ [c]) s'
  end.

Definition words (s : list N) : list (list N) := words_from [] s.

(** A name of the shell: a letter or an underscore, then letters, digits
    and underscores. *)
Definition is_name_start (c : N) : bool :=
  ((65 <=? c) && (c <=? 90) || (97 <=? c) && (c <=? 122) || (c =? 95))%N.

Definition is_name_char (c : N) : bool :=
  (is_name_start c || (48 <=? c) && (c <=? 57))%N.

Definition is_identifier (name : list N) : bool :=
  match name with
  | [] => false
  | c :: rest => is_name_start c && forallb is_name_char rest
  end.

(** The variable one word assigns, for [export] and for [env] alike: what
    stands before the first [=] is the name, what follows it the value. *)
Definition assignment (word : list N) : option (list N * list N) :=
  let eqIndex := indexOf word (js "=") in
  if eqIndex =? -1 then None
  else
    let name := slice word 0 eqIndex in
    if is_identifier name then Some (name, slice_from word (eqIndex + 1))
    else None.

(** The assignments the script makes from the content of the file, in
    order. *)
Definition exports (envContent : list N) : option (list (list N * list N)) :=
  if forallb is_covered envContent
     && forallb (fun word => negb (startsWith word (js "-"))) (words envContent)
  then
    foldr (fun word rest =>
             match assignment word, rest with
             | Some a, Some b => Some (a :: b)
             | _, _ => None
             end)
          (Some []) (words envContent)
  else None.

(** The environment in which the script starts the agent. *)
Definition exported (envContent : list N) (env : gmap (list N) (list N))
  : option (gmap (list N) (list N)) :=
  match exports envContent with
  | Some assignments =>
      Some (fold_left (fun env a => <[fst a := snd a]> env) assignments env)
  | None => None
  end.

End Entrypoint.

(* ================================================================== *)
(** * Sample updates, messages and hosts *)
(* ================================================================== *)

Module Samples.
Import Runner Router Transport.

Definition ann : TgUser :=
  {| user_id := 42; username := None; first_name := js "Ann";
     last_name := None |}.

(** A text message of a group chat; group chats have negative numbers. *)
Definition group_chat_message : TgMessage :=
  {| message_id := 7; tg_chat_id := -1001234; from := Some ann;
     text := Some (js "@Neo hello"); date := 1714557600 |}.

Definition update : Context := {| message := Some group_chat_message |}.

(** A clock that knows one instant. *)
Definition clock (ms : Z) : list N := js "2024-05-01T10:00:00.000Z".

(** A message of the family group that calls the assistant. *)
Definition triggered_msg : NewMessage :=
  Demo.message_at "telegram_5" Demo.family_jid "2024-05-01T12:00:00.000Z"
    "@Neo hello".

Definition reminder_msg : NewMessage :=
  Demo.message_at "telegram_6" Demo.family_jid "2024-05-01T12:05:00.000Z"
    "@Neo and then?".

(** A host that may not write into the IPC directory of the main group. *)
Definition locked_ipc_world : World :=
  set_disk
    {| files := ∅; dirs := ∅;
       denied := {[ [js "srv"; js "gigaclaw"; js "data"; js "ipc"; js "main"] ]} |}
    Demo.world.

(** The update identifiers of one round of polling, the third of which
    cannot be handled. *)
Definition round : list Z := [10; 11; 12; 13].
Definition third_throws (update_id : Z) : bool := update_id =? 12.

(** A host that may not write the state file of the router. *)
Definition locked_state_world : World :=
  set_disk
    {| files := ∅; dirs := ∅;
       denied := {[ [js "srv"; js "gigaclaw"; js "data"; js "router_state.json"] ]} |}
    Demo.world.

(** A host whose environment file gives the time zone a value with a
    blank in it. *)
Definition spaced_env_content : list N :=
  js "TZ=UTC FOO=bar" ++ [LF] ++ js "DB_PASSWORD=hunter2" ++ [LF].

Definition spaced_env_disk : Disk :=
  {| files := {[ [js "srv"; js "gigaclaw"; js ".env"] := spaced_env_content ]};
     dirs := ∅; denied := ∅ |}.

End Samples.

(* ================================================================== *)
(** * Facts about strings *)
(* ================================================================== *)

Module JSFacts.

(** ** The order on strings *)

Lemma ltb_irrefl (a : list N) : ltb a a = false.
Proof.
  induction a as [|x a IH]; [done|]. cbn.
  rewrite N.ltb_irrefl, N.eqb_refl. done.
Qed.

Lemma ltb_trans (a b c : list N) :
  ltb a b = true → ltb b c = true → ltb a c = true.
Proof.
  revert b c. induction a as [|x a IH]; intros [|y b] [|z c]; cbn; try done.
  rewrite !orb_true_iff, !andb_true_iff, !N.ltb_lt, !N.eqb_eq.
  intros [Hxy|[-> Hab]] [Hyz|[-> Hbc]]; [left; lia|by left|by left|].
  right. split; [done|]. eauto.
Qed.

Lemma ltb_connex (a b : list N) :
  ltb a b = false → ltb b a = false → a = b.
Proof.
  revert b. induction a as [|x a IH]; intros [|y b]; cbn; try done.
  rewrite !orb_false_iff, !andb_false_iff, !N.ltb_ge, !N.eqb_neq.
  intros [Hxy Hab] [Hyx Hba].
  assert (x = y) as -> by lia.
  f_equal. apply IH.
  - destruct Hab; [done|done].
  - destruct Hba; [done|done].
Qed.

#[global] Instance le_reflexive : Reflexive le.
Proof. intros a. apply ltb_irrefl. Qed.

#[global] Instance le_transitive : Transitive le.
Proof.
  intros a b c Hab Hbc. unfold le in *.
  destruct (ltb c a) eqn:Hca; [|done].
  destruct (ltb a b) eqn:Hlt.
  - by rewrite (ltb_trans c a b) in Hbc.
  - assert (a = b) as -> by by apply ltb_connex. congruence.
Qed.


(** ** Lengths and slices *)

Lemma len_nonneg (s : list N) : 0 <= len s.
Proof. unfold len. lia. Qed.
Lemma len_app (s t : list N) : len (s ++ t) = len s + len t.
Proof. unfold len. rewrite length_app. lia. Qed.

Lemma slice_prefix (s : list N) (n : Z) :
  0 <= n → slice s 0 n = take (Z.to_nat n) s.
Proof.
  intros Hn. unfold slice, clamp_index. pose proof (len_nonneg s).
  change (0 <? 0) with false. cbv iota.
  destruct (Z.ltb_spec n 0); [lia|].
  rewrite (Z.min_l 0 (len s)) by lia.
  change (Z.to_nat 0) with 0%nat. rewrite drop_0, Z.sub_0_r.
  destruct (Z.le_gt_cases n (len s)).
  - by rewrite Z.min_l by lia.
  - rewrite Z.min_r by lia. unfold len in *.
    rewrite !take_ge; [done|lia..].
Qed.

Lemma slice_from_drop (s : list N) (n : Z) :
  0 <= n → slice_from s n = drop (Z.to_nat n) s.
Proof.
  intros Hn. unfold slice_from, slice, clamp_index. pose proof (len_nonneg s).
  destruct (Z.ltb_spec n 0); [lia|].
  destruct (Z.ltb_spec (len s) 0); [lia|].
  rewrite Z.min_id.
  destruct (Z.le_gt_cases n (len s)).
  - rewrite Z.min_l by lia. apply take_ge. rewrite length_drop. unfold len in *. lia.
  - rewrite Z.min_r by lia. rewrite Z.sub_diag. cbn.
    rewrite !drop_ge; [done|unfold len in *; lia..].
Qed.

Lemma slice_middle (a b c : list N) :
  slice (a ++ b ++ c) (len a) (len a + len b) = b.
Proof.
  unfold slice, clamp_index. rewrite !len_app.
  pose proof (len_nonneg a). pose proof (len_nonneg b). pose proof (len_nonneg c).
  destruct (Z.ltb_spec (len a) 0); [lia|].
  destruct (Z.ltb_spec (len a + len b) 0); [lia|].
  rewrite !Z.min_l by lia.
  replace (len a + len b - len a) with (len b) by lia.
  unfold len. rewrite !Nat2Z.id.
  rewrite drop_app_length. by rewrite take_app_length.
Qed.

(** ** Bytes

    A string takes at least one byte and at most three bytes per code
    unit in UTF-8. *)

Lemma len_cons (c : N) (s : list N) : len (c :: s) = 1 + len s.
Proof. unfold len. cbn [length]. lia. Qed.

Lemma byteLength_bounds (s : list N) :
  (len s <= byteLength s ∧ byteLength s <= 3 * len s)
  ∧ ∀ c, len (c :: s) <= byteLength (c :: s) ∧ byteLength (c :: s) <= 3 * len (c :: s).
Proof.
  induction s as [|d s [IH1 IH2]].
  - split; [done|]. intros c. rewrite len_cons. change (len []) with 0.
    cbn [byteLength].
    destruct (c <? 128)%N; [lia|]. destruct (c <? 2048)%N; [lia|].
    destruct (is_high_surrogate c); lia.
  - split; [apply IH2|]. intros c.
    specialize (IH2 d). rewrite !len_cons in *.
    cbn [byteLength] in *.
    destruct (c <? 128)%N; [lia|]. destruct (c <? 2048)%N; [lia|].
    destruct (is_high_surrogate c); [|lia].
    destruct (is_low_surrogate d); lia.
Qed.

(** ** Prefixes and occurrences *)

Lemma startsWith_spec (s p : list N) :
  startsWith s p = true ↔ ∃ r, s = p ++ r.
Proof.
  revert s. induction p as [|c p IH]; intros s; cbn.
  - split; [intros _; by exists s|done].
  - destruct s as [|d s]; [split; [done|by intros [r ?]]|].
    rewrite andb_true_iff, N.eqb_eq, IH. split.
    + intros [-> [r ->]]. by exists r.
    + intros [r [= -> ->]]. eauto.
Qed.

(** [indexOf] returns the first position at which the pattern occurs. *)
Lemma indexOf_from_found (i : Z) (s p : list N) (j : Z) :
  indexOf_from i s p = j → j ≠ -1 → 0 <= i →
  ∃ n : nat, j = i + Z.of_nat n ∧ (n <= length s)%nat
    ∧ startsWith (drop n s) p = true
    ∧ ∀ k : nat, (k < n)%nat → startsWith (drop k s) p = false.
Proof.
  revert i. induction s as [|c s IH]; intros i Hj Hne Hi; cbn in Hj.
  - destruct (startsWith [] p) eqn:Hp; [|congruence].
    exists 0%nat. repeat split; [lia|done|done|lia].
  - destruct (startsWith (c :: s) p) eqn:Hp.
    + exists 0%nat. repeat split; [lia|cbn; lia|done|lia].
    + destruct (IH (i + 1) Hj Hne ltac:(lia)) as (n & -> & Hn & Hat & Hbefore).
      exists (S n). repeat split; [lia|cbn; lia|done|].
      intros [|k] Hk; [done|]. cbn. apply Hbefore. lia.
Qed.

Lemma indexOf_from_absent (i : Z) (s p : list N) :
  indexOf_from i s p = -1 → 0 <= i →
  ∀ k : nat, (k <= length s)%nat → startsWith (drop k s) p = false.
Proof.
  revert i. induction s as [|c s IH]; intros i Hj Hi k Hk; cbn in Hj.
  - destruct (startsWith [] p) eqn:Hp; [lia|]. by rewrite drop_nil.
  - destruct (startsWith (c :: s) p) eqn:Hp; [lia|].
    destruct k as [|k]; [done|]. cbn. apply (IH (i + 1)); [done|lia|]. cbn in Hk. lia.
Qed.

Lemma indexOf_from_first (i : Z) (s p : list N) (n : nat) :
  startsWith (drop n s) p = true →
  (∀ k : nat, (k < n)%nat → startsWith (drop k s) p = false) →
  (n <= length s)%nat →
  indexOf_from i s p = i + Z.of_nat n.
Proof.
  revert i s. induction n as [|n IH]; intros i s Hat Hbefore Hn.
  - rewrite drop_0 in Hat. destruct s; cbn; rewrite Hat; lia.
  - destruct s as [|c s]; [cbn in Hn; lia|].
    pose proof (Hbefore 0%nat ltac:(lia)) as H0. rewrite drop_0 in H0.
    cbn [indexOf_from]. rewrite H0.
    rewrite (IH (i + 1) s); [lia|done| |cbn in Hn; lia].
    intros k Hk. apply (Hbefore (S k)). lia.
Qed.

Lemma indexOf_spec (s p : list N) :
  (indexOf s p = -1
   ∧ ∀ k : nat, (k <= length s)%nat → startsWith (drop k s) p = false)
  ∨ ∃ n : nat, indexOf s p = Z.of_nat n ∧ (n <= length s)%nat
      ∧ startsWith (drop n s) p = true
      ∧ ∀ k : nat, (k < n)%nat → startsWith (drop k s) p = false.
Proof.
  unfold indexOf. destruct (decide (indexOf_from 0 s p = -1)) as [Heq|Hne].
  - left. split; [done|]. by apply (indexOf_from_absent 0).
  - right. destruct (indexOf_from_found 0 s p _ eq_refl Hne ltac:(lia))
      as (n & Hn & ?). exists n. by rewrite Hn.
Qed.

(** ** Trimming *)

Lemma trimStart_spec (s : list N) :
  trimStart s = [] ∨ ∃ c t, trimStart s = c :: t ∧ is_whitespace c = false.
Proof.
  induction s as [|c s IH]; cbn; [by left|].
  destruct (is_whitespace c) eqn:Hc; [done|]. right. by exists c, s.
Qed.

Lemma trimEnd_spec (s : list N) :
  trimEnd s = [] ∨ ∃ t c, trimEnd s = t ++ [c] ∧ is_whitespace c = false.
Proof.
  unfold trimEnd. destruct (trimStart_spec (rev s)) as [->|(c & t & -> & Hc)].
  - by left.
  - right. by exists (rev t), c.
Qed.

(** ** Lines *)

Lemma split_nonempty (sep : N) (s : list N) : split sep s ≠ [].
Proof.
  destruct s as [|c s]; cbn; [done|].
  destruct (c =? sep)%N; [done|]. by destruct (split sep s).
Qed.

Lemma split_sep_free (sep : N) (s : list N) :
  Forall (λ l, ¬ In sep l) (split sep s).
Proof.
  induction s as [|c s IH]; cbn.
  - repeat constructor. by intros [].
  - destruct (N.eqb_spec c sep) as [->|Hne].
    + constructor; [by intros []|done].
    + destruct (split sep s) as [|l ls]; [repeat constructor; by intros [|[]]|].
      apply Forall_cons in IH as [Hl Hls]. constructor; [|done].
      by intros [|].
Qed.

Lemma join_split (sep : N) (s : list N) : join [sep] (split sep s) = s.
Proof.
  induction s as [|c s IH]; [done|]. cbn [split].
  pose proof (split_nonempty sep s) as Hne.
  destruct (N.eqb_spec c sep) as [->|Hc].
  - destruct (split sep s) as [|l ls]; [done|]. cbn in *. by rewrite IH.
  - destruct (split sep s) as [|l ls]; [done|].
    destruct ls; cbn in *; by rewrite <- IH.
Qed.

Lemma join_snoc (sep : list N) (init : list (list N)) (line : list N) :
  join sep (init ++ [line])
  = match init with
    | [] => line
    | _ => join sep init ++ sep ++ line
    end.
Proof.
  induction init as [|l init IH]; [done|].
  destruct init as [|l2 init]; [done|].
  change (join sep ((l :: l2 :: init) ++ [line]))
    with (l ++ sep ++ join sep ((l2 :: init) ++ [line])).
  rewrite IH. cbn [join]. by rewrite <- !app_assoc.
Qed.

Lemma last_line_spec (sep : N) (s : list N) :
  let line := default [] (last (split sep s)) in
  ¬ In sep line
  ∧ ∃ before, s = before ++ line ∧ (before = [] ∨ ∃ b, before = b ++ [sep]).
Proof.
  intros line. pose proof (split_sep_free sep s) as Hfree.
  pose proof (join_split sep s) as Hjoin.
  pose proof (split_nonempty sep s) as Hne.
  subst line. destruct (split sep s) as [|x l _] using rev_ind; [done|].
  rewrite last_snoc. cbn.
  apply Forall_app in Hfree as [_ Hx]. apply Forall_inv in Hx.
  split; [done|]. rewrite join_snoc in Hjoin.
  destruct l as [|l1 l].
  - exists []. by auto.
  - exists (join [sep] (l1 :: l) ++ [sep]). rewrite <- Hjoin, <- app_assoc.
    split; [done|]. right. by eexists.
Qed.

Lemma last_line_empty (s : list N) :
  default [] (last (split LF (trim s))) = [] ↔ trim s = [].
Proof.
  split.
  - intros Hline.
    destruct (last_line_spec LF (trim s)) as (_ & before & Hs & Hbefore).
    rewrite Hline, app_nil_r in Hs.
    destruct Hbefore as [->|[b ->]]; [done|].
    unfold trim in *. destruct (trimEnd_spec (trimStart s)) as [->|(t & c & Ht & Hc)]; [done|].
    rewrite Ht in Hs. apply app_inj_tail in Hs as [_ ->]. done.
  - intros ->. done.
Qed.

Lemma split_app_sep (sep : N) (l x : list N) :
  ¬ In sep l → split sep (l ++ sep :: x) = l :: split sep x.
Proof.
  induction l as [|c l IH]; intros Hl; cbn.
  - by rewrite N.eqb_refl.
  - destruct (N.eqb_spec c sep) as [->|Hne]; [by destruct Hl; left|].
    rewrite IH; [done|]. intros ?. apply Hl. by right.
Qed.

Lemma split_join_newline (sep : N) (ls : list (list N)) :
  Forall (λ l, ¬ In sep l) ls →
  ls ≠ [] →
  split sep (join [sep] ls ++ [sep]) = ls ++ [[]].
Proof.
  induction ls as [|l ls IH]; intros Hls Hne; [done|].
  apply Forall_cons in Hls as [Hl Hls].
  destruct ls as [|l2 ls].
  - cbn. by rewrite split_app_sep.
  - change (join [sep] (l :: l2 :: ls)) with (l ++ [sep] ++ join [sep] (l2 :: ls)).
    rewrite <- !app_assoc. cbn [app]. rewrite split_app_sep by done.
    rewrite IH by done. done.
Qed.

End JSFacts.

(* ================================================================== *)
(** * Facts about the file system calls *)
(* ================================================================== *)

Module HostFacts.

Lemma mkdirSync_ok (p : Path) (d : Disk) :
  p ∉ denied d →
  mkdirSync p d = (Ok tt, set_dirs (dirs d ∪ list_to_set (ancestors p)) d).
Proof. intros Hp. unfold mkdirSync. by rewrite bool_decide_eq_false_2. Qed.

Lemma mkdirSync_denied (p : Path) (d : Disk) :
  p ∈ denied d → mkdirSync p d = (Throw (EACCES p), d).
Proof. intros Hp. unfold mkdirSync. by rewrite bool_decide_eq_true_2. Qed.

Lemma writeFileSync_ok (p : Path) (c : list N) (d : Disk) :
  p ∉ denied d →
  writeFileSync p c d = (Ok tt, set_files (<[p := c]> (files d)) d).
Proof. intros Hp. unfold writeFileSync. by rewrite bool_decide_eq_false_2. Qed.

(** What a call that returned has done. *)
Lemma bind_inv {S A B} (c : M S A) (k : A → M S B) (s s' : S) (b : B) :
  bind c k s = (Ok b, s') →
  ∃ a s1, c s = (Ok a, s1) ∧ k a s1 = (Ok b, s').
Proof.
  unfold bind. destruct (c s) as [[a|e] s1]; [|done]. eauto.
Qed.

Lemma mkdirSync_inv (p : Path) (d d' : Disk) (u : unit) :
  mkdirSync p d = (Ok u, d') → files d' = files d ∧ denied d' = denied d.
Proof. unfold mkdirSync. case_bool_decide; [done|]. by intros [= _ <-]. Qed.

Lemma existsSync_inv (p : Path) (d d' : Disk) (b : bool) :
  existsSync p d = (Ok b, d') →
  d' = d ∧ (is_Some (files d !! p) → b = true).
Proof.
  intros [= <- <-]. split; [done|]. intros Hp.
  by rewrite (bool_decide_eq_true_2 _ Hp), orb_true_r.
Qed.

Lemma readFileSync_inv (p : Path) (d d' : Disk) (c : list N) :
  readFileSync p d = (Ok c, d') → d' = d ∧ files d !! p = Some c.
Proof.
  unfold readFileSync. case_bool_decide; [done|].
  destruct (files d !! p); [|done]. by intros [= <- <-].
Qed.

Lemma writeFileSync_inv (p : Path) (c : list N) (d d' : Disk) (u : unit) :
  writeFileSync p c d = (Ok u, d') → files d' = <[p := c]> (files d).
Proof. unfold writeFileSync. case_bool_decide; [done|]. by intros [= _ <-]. Qed.

End HostFacts.

(* ================================================================== *)
(** * The IPC snapshots *)
(* ================================================================== *)

Module SnapshotSpec.
Import Runner HostFacts.

Section Snapshots.
Context {cfg : Config} {bi : Builtins}.

(** C7. For every task list and every group folder whose IPC directory the
    host may write, [writeTasksSnapshot] writes to [current_tasks.json] the
    serialisation of: the full input list, unmodified and in order, for the
    main group; for any other group, exactly the tasks whose [group_folder]
    is that group's folder, in their original order. *)
Theorem C7_writeTasksSnapshot_visibility
    (groupFolder : list N) (main : bool) (tasks : list Task) (d : Disk) :
  let groupIpcDir := DATA_DIR ++ [js "ipc"; groupFolder] in
  let tasksFile := groupIpcDir ++ [js "current_tasks.json"] in
  let own := filter (λ t, group_folder t = groupFolder) tasks in
  groupIpcDir ∉ denied d →
  tasksFile ∉ denied d →
  ∃ d',
    writeTasksSnapshot groupFolder main tasks d = (Ok tt, d')
    ∧ files d' !! tasksFile
      = Some (JSON_stringify_tasks (if main then tasks else own))
    ∧ (∀ t, t ∈ own ↔ t ∈ tasks ∧ group_folder t = groupFolder)
    ∧ own `sublist_of` tasks.
Proof.
  intros groupIpcDir tasksFile own Hdir Hfile.
  unfold writeTasksSnapshot, bind.
  fold groupIpcDir. rewrite (mkdirSync_ok _ _ Hdir).
  fold tasksFile. rewrite writeFileSync_ok by done.
  eexists. split; [reflexivity|]. split.
  - cbn. by rewrite lookup_insert_eq.
  - split.
    + intros t. unfold own. rewrite list_elem_of_filter. tauto.
    + apply sublist_filter.
Qed.

(** C8. For every input group list, [writeGroupsSnapshot] called with
    [isMain = false] writes a snapshot whose groups array is empty; the
    array written is non-empty only for the main group. *)
Theorem C8_writeGroupsSnapshot_main_only
    (groupFolder : list N) (main : bool) (groups : list AvailableGroup) (d : Disk) :
  let groupIpcDir := DATA_DIR ++ [js "ipc"; groupFolder] in
  let groupsFile := groupIpcDir ++ [js "available_groups.json"] in
  let visible := if main then groups else [] in
  groupIpcDir ∉ denied d →
  groupsFile ∉ denied d →
  ∃ d',
    writeGroupsSnapshot groupFolder main groups d = (Ok tt, d')
    ∧ files d' !! groupsFile
      = Some (JSON_stringify_groups visible Date_toISOString)
    ∧ (main = false → visible = [])
    ∧ (visible ≠ [] → main = true).
Proof.
  intros groupIpcDir groupsFile visible Hdir Hfile.
  unfold writeGroupsSnapshot, bind.
  fold groupIpcDir. rewrite (mkdirSync_ok _ _ Hdir).
  fold groupsFile. rewrite writeFileSync_ok by done.
  eexists. split; [reflexivity|]. split.
  - cbn. by rewrite lookup_insert_eq.
  - unfold visible. destruct main; split; try done.
Qed.

End Snapshots.

Lemma C7_witness :
  ∃ d',
    writeTasksSnapshot (cfg := Demo.config) (bi := Demo.builtins)
      (js "family") false
      [Demo.task_of "t1" "main"; Demo.task_of "t2" "family"]
      Demo.empty_disk = (Ok tt, d')
    ∧ files d' !! ((DATA_DIR (cfg := Demo.config) ++ [js "ipc"; js "family"])
                   ++ [js "current_tasks.json"])
      = Some (js "tasks:t2").
Proof.
  destruct (C7_writeTasksSnapshot_visibility (cfg := Demo.config)
              (bi := Demo.builtins) (js "family") false
              [Demo.task_of "t1" "main"; Demo.task_of "t2" "family"]
              Demo.empty_disk) as (d' & Hrun & Hfile & _).
  - apply not_elem_of_empty.
  - apply not_elem_of_empty.
  - exists d'. split; [exact Hrun|]. rewrite Hfile. reflexivity.
Defined.

Lemma C8_witness :
  ∃ d',
    writeGroupsSnapshot (cfg := Demo.config) (bi := Demo.builtins)
      (js "family") false
      [ {| jid := Demo.main_jid; group_name := js "Main";
           lastActivity := js "2024-05-01T10:00:00.000Z";
           isRegistered := true |} ]
      Demo.empty_disk = (Ok tt, d')
    ∧ files d' !! ((DATA_DIR (cfg := Demo.config) ++ [js "ipc"; js "family"])
                   ++ [js "available_groups.json"])
      = Some (js "groups:@2024-05-01T10:00:00.000Z").
Proof.
  destruct (C8_writeGroupsSnapshot_main_only (cfg := Demo.config)
              (bi := Demo.builtins) (js "family") false
              [ {| jid := Demo.main_jid; group_name := js "Main";
                   lastActivity := js "2024-05-01T10:00:00.000Z";
                   isRegistered := true |} ]
              Demo.empty_disk) as (d' & Hrun & Hfile & _).
  - apply not_elem_of_empty.
  - apply not_elem_of_empty.
  - exists d'. split; [exact Hrun|]. rewrite Hfile. reflexivity.
Defined.

End SnapshotSpec.

(* ================================================================== *)
(** * The runner: output cap, failure paths, environment, payload *)
(* ================================================================== *)

Module RunnerSpec.
Import Runner HostFacts JSFacts.

Section Child.
Context {cfg : Config} {bi : Builtins}.

(** ** The output cap *)

Lemma capped_step (buffer : list N) (truncated : bool) (stream chunk : list N) :
  capped buffer truncated stream →
  let remaining := CONTAINER_MAX_OUTPUT_SIZE - len buffer in
  if truncated then capped buffer truncated (stream ++ chunk)
  else if len chunk >? remaining
       then capped (buffer ++ slice chunk 0 remaining) true (stream ++ chunk)
       else capped (buffer ++ chunk) false (stream ++ chunk).
Proof.
  pose proof max_output_positive as Hpos.
  intros (Hbuf & Hfalse & Htrue) remaining.
  destruct truncated.
  - specialize (Htrue eq_refl). repeat split; [|done|rewrite len_app; pose proof (len_nonneg chunk); lia].
    rewrite take_app_le; [done|]. unfold len in *. lia.
  - specialize (Hfalse eq_refl).
    assert (buffer = stream) as ->.
    { rewrite Hbuf. apply take_ge. unfold len in *. lia. }
    subst remaining. destruct (Z.gtb_spec (len chunk) (CONTAINER_MAX_OUTPUT_SIZE - len stream)).
    + repeat split; [|done|rewrite len_app; lia].
      rewrite slice_prefix by lia.
      rewrite take_app_ge by (unfold len in *; lia).
      do 2 f_equal. unfold len in *. lia.
    + repeat split; [|rewrite len_app; lia|done].
      symmetry. apply take_ge. rewrite length_app. unfold len in *. lia.
Qed.

Lemma capped_length (buffer : list N) (truncated : bool) (stream : list N) :
  capped buffer truncated stream → len buffer <= CONTAINER_MAX_OUTPUT_SIZE.
Proof.
  pose proof max_output_positive.
  intros (-> & _). unfold len. rewrite length_take. lia.
Qed.

Lemma handle_capped (st : RunState) (ev : ChildEvent) (out err : list N) :
  capped (stdout st) (stdoutTruncated st) out →
  capped (stderr st) (stderrTruncated st) err →
  capped (stdout (handle st ev)) (stdoutTruncated (handle st ev))
         (out ++ emitted_stdout [ev])
  ∧ capped (stderr (handle st ev)) (stderrTruncated (handle st ev))
           (err ++ emitted_stderr [ev]).
Proof.
  intros Hout Herr.
  destruct ev as [chunk|chunk| |code|]; cbn; rewrite ?app_nil_r.
  - pose proof (capped_step _ _ _ chunk Hout) as Hstep.
    unfold onStdoutData. cbn in Hstep.
    destruct (stdoutTruncated st) eqn:Htr; [by rewrite Htr|].
    by destruct (len chunk >? _).
  - pose proof (capped_step _ _ _ chunk Herr) as Hstep.
    unfold onStderrData. cbn in Hstep.
    destruct (stderrTruncated st) eqn:Htr; [by rewrite Htr|].
    by destruct (len chunk >? _).
  - unfold onTimeout. destruct (timerArmed st); [|done].
    unfold resolve, disarm; cbn. by destruct (settled st).
  - unfold onClose, resolve, disarm; cbn.
    destruct (negb _); cbn; by destruct (settled st).
  - unfold onError, resolve, disarm; cbn. by destruct (settled st).
Qed.

Lemma emitted_stdout_app (e1 e2 : list ChildEvent) :
  emitted_stdout (e1 ++ e2) = emitted_stdout e1 ++ emitted_stdout e2.
Proof. unfold emitted_stdout. by rewrite omap_app, concat_app. Qed.

Lemma emitted_stderr_app (e1 e2 : list ChildEvent) :
  emitted_stderr (e1 ++ e2) = emitted_stderr e1 ++ emitted_stderr e2.
Proof. unfold emitted_stderr. by rewrite omap_app, concat_app. Qed.

Lemma fold_capped (events : list ChildEvent) (st : RunState) (out err : list N) :
  capped (stdout st) (stdoutTruncated st) out →
  capped (stderr st) (stderrTruncated st) err →
  let st' := fold_left handle events st in
  capped (stdout st') (stdoutTruncated st') (out ++ emitted_stdout events)
  ∧ capped (stderr st') (stderrTruncated st') (err ++ emitted_stderr events).
Proof.
  revert st out err. induction events as [|ev events IH]; intros st out err Hout Herr.
  - cbn. by rewrite !app_nil_r.
  - cbn [fold_left].
    destruct (handle_capped st ev out err Hout Herr) as [Hout' Herr'].
    specialize (IH _ _ _ Hout' Herr'). cbn zeta in IH.
    change (ev :: events) with ([ev] ++ events).
    rewrite emitted_stdout_app, emitted_stderr_app, !app_assoc. exact IH.
Qed.


(** ** The first event that ends the turn settles the promise *)

Lemma handle_data (st : RunState) (ev : ChildEvent) :
  is_data ev = true →
  settled (handle st ev) = settled st ∧ timerArmed (handle st ev) = timerArmed st.
Proof.
  destruct ev as [chunk|chunk| | |]; try done; intros _; cbn.
  - unfold onStdoutData. destruct (stdoutTruncated st); [done|].
    by destruct (len chunk >? _).
  - unfold onStderrData. destruct (stderrTruncated st); [done|].
    by destruct (len chunk >? _).
Qed.

Lemma data_keeps_pending (pre : list ChildEvent) (st : RunState) :
  Forall (λ ev, is_data ev = true) pre →
  settled (fold_left handle pre st) = settled st
  ∧ timerArmed (fold_left handle pre st) = timerArmed st.
Proof.
  revert st. induction pre as [|ev pre IH]; intros st Hpre; [done|].
  apply Forall_cons in Hpre as [Hev Hpre]. cbn.
  destruct (IH (handle st ev) Hpre) as [-> ->]. by apply handle_data.
Qed.

Lemma handle_settled (st : RunState) (ev : ChildEvent) (o : ContainerOutput) :
  settled st = Some o → settled (handle st ev) = Some o.
Proof.
  intros Hs. destruct ev as [chunk|chunk| |code|]; cbn.
  - unfold onStdoutData. destruct (stdoutTruncated st); [done|].
    by destruct (len chunk >? _).
  - unfold onStderrData. destruct (stderrTruncated st); [done|].
    by destruct (len chunk >? _).
  - unfold onTimeout, resolve. destruct (timerArmed st); [|done]. cbn. by rewrite Hs.
  - unfold onClose, resolve. destruct (negb _); cbn; by rewrite Hs.
  - unfold onError, resolve. cbn. by rewrite Hs.
Qed.

Lemma settled_is_final (events : list ChildEvent) (st : RunState) (o : ContainerOutput) :
  settled st = Some o → settled (fold_left handle events st) = Some o.
Proof.
  revert st. induction events as [|ev events IH]; intros st Hs; [done|].
  cbn. apply IH. by apply handle_settled.
Qed.

Lemma first_ending (pre post : list ChildEvent) (ev : ChildEvent) :
  Forall (λ ev, is_data ev = true) pre →
  settled (runChild (pre ++ ev :: post))
  = match settled (handle (runChild pre) ev) with
    | Some o => Some o
    | None => settled (fold_left handle post (handle (runChild pre) ev))
    end
  ∧ settled (runChild pre) = None ∧ timerArmed (runChild pre) = true.
Proof.
  intros Hpre. unfold runChild.
  destruct (data_keeps_pending pre spawned Hpre) as [Hs Ht].
  split; [|done].
  rewrite fold_left_app. cbn.
  destruct (settled (handle _ ev)) as [o|] eqn:Ho; [|done].
  by apply settled_is_final.
Qed.


(** C6 (amended). For every sequence of events of the child, the
    accumulated buffer of each stream is the stream cut at the configured
    maximum, counted in UTF-16 code units as [String.prototype.length]
    counts: its length never exceeds the maximum, the chunk that crosses
    the maximum is kept up to it, the truncation flag is raised exactly when
    the stream went over the maximum, and from then on every further chunk
    is consumed and dropped.  In bytes the buffer is bounded by three times
    the maximum only. *)
Theorem C6_output_is_capped (events : list ChildEvent) :
  let st := runChild events in
  len (stdout st) <= CONTAINER_MAX_OUTPUT_SIZE
  ∧ len (stderr st) <= CONTAINER_MAX_OUTPUT_SIZE
  ∧ stdout st = take (Z.to_nat CONTAINER_MAX_OUTPUT_SIZE) (emitted_stdout events)
  ∧ stderr st = take (Z.to_nat CONTAINER_MAX_OUTPUT_SIZE) (emitted_stderr events)
  ∧ (stdoutTruncated st = true
     ↔ CONTAINER_MAX_OUTPUT_SIZE < len (emitted_stdout events))
  ∧ (stderrTruncated st = true
     ↔ CONTAINER_MAX_OUTPUT_SIZE < len (emitted_stderr events))
  ∧ (∀ chunk, stdoutTruncated st = true → onStdoutData chunk st = st)
  ∧ (∀ chunk, stderrTruncated st = true → onStderrData chunk st = st)
  ∧ byteLength (stdout st) <= 3 * CONTAINER_MAX_OUTPUT_SIZE
  ∧ byteLength (stderr st) <= 3 * CONTAINER_MAX_OUTPUT_SIZE.
Proof.
  intros st. pose proof max_output_positive as Hpos.
  destruct (byteLength_bounds (stdout st)) as [[_ Hbo] _].
  destruct (byteLength_bounds (stderr st)) as [[_ Hbe] _].
  assert (Hinit : capped [] false []).
  { repeat split; [by rewrite take_nil|intros _; change (len []) with 0; lia|done]. }
  destruct (fold_capped events spawned [] [] Hinit Hinit) as [Hout Herr].
  cbn zeta in Hout, Herr. rewrite !app_nil_l in Hout, Herr.
  fold (runChild events) in Hout, Herr. fold st in Hout, Herr.
  pose proof (capped_length _ _ _ Hout). pose proof (capped_length _ _ _ Herr).
  destruct Hout as (Hout & Hof & Hot). destruct Herr as (Herr & Hef & Het).
  repeat split; try done.
  - intros Hlt. destruct (stdoutTruncated st); [done|]. specialize (Hof eq_refl). lia.
  - intros Hlt. destruct (stderrTruncated st); [done|]. specialize (Hef eq_refl). lia.
  - intros chunk Ht. unfold onStdoutData. by rewrite Ht.
  - intros chunk Ht. unfold onStderrData. by rewrite Ht.
  - lia.
  - lia.
Qed.

(** ** Events without a listener *)

Lemma deliver_handled (events : list ChildEvent) (rest : list ProcessEvent)
    (st : RunState) :
  deliver st (map Handled events ++ rest)
  = deliver (fold_left handle events st) rest.
Proof.
  revert st. induction events as [|ev events IH]; intros st; [done|].
  cbn. apply IH.
Qed.

Lemma runProcess_handled (events : list ChildEvent) :
  runProcess (map Handled events)
  = match settled (runChild events) with
    | Some o => ResolvedWith o
    | None => StillPending
    end.
Proof.
  unfold runProcess. rewrite <- (app_nil_r (map Handled events)).
  by rewrite deliver_handled.
Qed.

Lemma deliver_terminated (events : list ProcessEvent) (st : RunState) :
  deliver st events = HostTerminated ↔ ∃ stream, In (StreamError stream) events.
Proof.
  revert st. induction events as [|[ev|stream] events IH]; intros st; cbn.
  - split; [by destruct (settled st)|by intros [? []]].
  - rewrite IH. split.
    + intros [stream Hin]. exists stream. by right.
    + intros [stream [[=]|Hin]]. by exists stream.
  - split; [|done]. intros _. exists stream. by left.
Qed.


(** ** The result payload *)

(** C1 (amended). For every accumulated stdout of a child that exits with
    code zero: each marker is located at its first occurrence; when both
    are found and the end marker starts after the start marker, the payload
    is the substring between the end of the start marker and the start of
    the end marker, trimmed; otherwise the payload is the last line of the
    trimmed stdout: it holds no line feed, it ends the trimmed stdout, right
    after a line feed or from its start, and it is empty only when stdout
    is all whitespace.  The payload is parsed as a [ContainerOutput], and
    when the parse fails the promise is resolved with an output of status
    [error]. *)
Theorem C1_payload_extraction (out : list N) :
  let startIdx := indexOf out OUTPUT_START_MARKER in
  let endIdx := indexOf out OUTPUT_END_MARKER in
  let payload := extractPayload out in
  (∀ marker,
     (indexOf out marker = -1
      ∧ ∀ k : nat, (k <= length out)%nat → startsWith (drop k out) marker = false)
     ∨ ∃ n : nat, indexOf out marker = Z.of_nat n
         ∧ startsWith (drop n out) marker = true
         ∧ ∀ k : nat, (k < n)%nat → startsWith (drop k out) marker = false)
  ∧ (startIdx ≠ -1 → endIdx ≠ -1 → endIdx > startIdx →
     payload = trim (slice out (startIdx + len OUTPUT_START_MARKER) endIdx))
  ∧ (∀ pre mid post,
       out = pre ++ OUTPUT_START_MARKER ++ mid ++ OUTPUT_END_MARKER ++ post →
       (∀ k : nat, (k < length pre)%nat →
          startsWith (drop k out) OUTPUT_START_MARKER = false) →
       (∀ k : nat, (k < length (pre ++ OUTPUT_START_MARKER ++ mid))%nat →
          startsWith (drop k out) OUTPUT_END_MARKER = false) →
       payload = trim mid)
  ∧ (¬ (startIdx ≠ -1 ∧ endIdx ≠ -1 ∧ endIdx > startIdx) →
       payload = default [] (last (split LF (trim out)))
       ∧ ¬ In LF payload
       ∧ (∃ before, trim out = before ++ payload
                    ∧ (before = [] ∨ ∃ b, before = b ++ [LF]))
       ∧ (payload = [] ↔ trim out = []))
  ∧ parseOutput out
    = match JSON_parse payload with
      | Some output => output
      | None => errorOutput (js "Failed to parse container output")
      end
  ∧ (JSON_parse payload = None → status (parseOutput out) = StatusError)
  ∧ (∀ st, settled st = None → stdout st = out →
       settled (onClose (Some 0) st) = Some (parseOutput out)).
Proof.
  intros startIdx endIdx payload.
  assert (Hmarkers : startIdx ≠ -1 → endIdx ≠ -1 → endIdx > startIdx →
     payload = trim (slice out (startIdx + len OUTPUT_START_MARKER) endIdx)).
  { intros Hs He Hlt. unfold payload, extractPayload.
    fold startIdx endIdx.
    destruct (Z.eqb_spec startIdx (-1)); [done|].
    destruct (Z.eqb_spec endIdx (-1)); [done|].
    destruct (Z.gtb_spec endIdx startIdx); [done|lia]. }
  split; [|split; [done|]; split; [|split; [|split; [|split]]]].
  - intros marker. destruct (indexOf_spec out marker)
      as [?|(n & ? & ? & ? & ?)]; [by left|right; by exists n].
  - intros pre mid post Hout Hnostart Hnoend.
    assert (Hs : startIdx = len pre).
    { unfold startIdx, indexOf.
      rewrite (indexOf_from_first 0 out OUTPUT_START_MARKER (length pre));
        [unfold len; lia| |done|rewrite Hout, length_app; lia].
      rewrite Hout, drop_app_length. apply startsWith_spec. by eexists. }
    assert (He : endIdx = len pre + len OUTPUT_START_MARKER + len mid).
    { unfold endIdx, indexOf.
      rewrite (indexOf_from_first 0 out OUTPUT_END_MARKER
                 (length (pre ++ OUTPUT_START_MARKER ++ mid)));
        [unfold len; rewrite !length_app; lia| |done
        |rewrite Hout, !length_app; lia].
      rewrite Hout.
      replace (pre ++ OUTPUT_START_MARKER ++ mid ++ OUTPUT_END_MARKER ++ post)
        with ((pre ++ OUTPUT_START_MARKER ++ mid) ++ OUTPUT_END_MARKER ++ post)
        by by rewrite <- !app_assoc.
      rewrite drop_app_length. apply startsWith_spec. by eexists. }
    pose proof (len_nonneg pre). pose proof (len_nonneg mid).
    assert (0 < len OUTPUT_START_MARKER) by done.
    rewrite Hmarkers by lia. f_equal. rewrite Hs, He, Hout.
    rewrite (app_assoc pre), <- len_app. apply slice_middle.
  - intros Hnot.
    assert (payload = default [] (last (split LF (trim out)))) as Hp.
    { unfold payload, extractPayload. fold startIdx endIdx.
      destruct (Z.eqb_spec startIdx (-1)); [done|].
      destruct (Z.eqb_spec endIdx (-1)); [done|].
      destruct (Z.gtb_spec endIdx startIdx); [|done].
      exfalso. apply Hnot. repeat split; [done|done|lia]. }
    rewrite Hp. split; [done|].
    destruct (last_line_spec LF (trim out)) as [Hfree Hbefore].
    split; [done|]. split; [done|]. apply last_line_empty.
  - done.
  - intros Hparse. unfold parseOutput. fold payload. by rewrite Hparse.
  - intros st Hpending <-. unfold onClose, resolve. cbn. by rewrite Hpending.
Qed.

(** ** The environment file *)

Lemma envLineAllowed_spec (line : list N) :
  envLineAllowed line = true →
  ∃ v rest, In v ALLOWED_ENV_VARS ∧ trim line = v ++ js "=" ++ rest.
Proof.
  unfold envLineAllowed. destruct (negb _ || _); [done|].
  rewrite existsb_exists. intros (v & Hv & Hstart).
  apply startsWith_spec in Hstart as [rest Hrest].
  exists v, rest. by rewrite <- app_assoc in Hrest.
Qed.

Lemma parseLine_allowed (line v rest : list N) :
  In v ALLOWED_ENV_VARS →
  trim line = v ++ js "=" ++ rest →
  LoadEnv.parseLine line = Some (v, trim rest).
Proof.
  intros Hv Htrim. unfold LoadEnv.parseLine. rewrite Htrim.
  unfold ALLOWED_ENV_VARS in Hv. cbn [In] in Hv.
  destruct Hv as [<-|[<-|[<-|[<-|[<-|[]]]]]].
  all: match goal with
       | |- context [indexOf ?s ?p] =>
           let i := eval vm_compute in (indexOf s p) in
           change (indexOf s p) with i
       end.
  all: rewrite slice_prefix, slice_from_drop by lia.
  all: reflexivity.
Qed.

Tactic Notation "step" hyp(H) ident(a) ident(d1) ident(Hstep) :=
  apply bind_inv in H as (a & d1 & Hstep & H).

Lemma buildVolumeMounts_env (group : RegisteredGroup) (main : bool)
    (d d' : Disk) (mounts : list VolumeMount) :
  buildVolumeMounts group main d = (Ok mounts, d') →
  let survivors :=
    match files d !! envFile with
    | Some envContent => filterEnvLines envContent
    | None => []
    end in
  let envMount :=
    {| hostPath := envDir; containerPath := js "/workspace/env-dir";
       readonly := true |} in
  (survivors ≠ [] →
     files d' !! (envDir ++ [js "env"]) = Some (join [LF] survivors ++ [LF])
     ∧ In envMount mounts)
  ∧ (survivors = [] →
     files d' = files d
     ∧ ∀ m, In m mounts → containerPath m = js "/workspace/env-dir" →
         ∃ c requested, containerConfig group = Some c
           ∧ additionalMounts c = Some requested
           ∧ In m (validateAdditionalMounts requested (name group) main)).
Proof.
  intros H survivors envMount. unfold buildVolumeMounts in H.
  step H base d1 Hbase.
  assert (Hbase' : files d1 = files d
            ∧ ∀ m, In m base → containerPath m ≠ js "/workspace/env-dir").
  { destruct main.
    - injection Hbase as <- <-. split; [done|].
      intros m [<-|[<-|[]]]; done.
    - step Hbase ex d0 Hex. apply existsSync_inv in Hex as [-> _].
      injection Hbase as <- <-. split; [done|].
      destruct ex; [intros m [<-|[<-|[]]]|intros m [<-|[]]]; done. }
  destruct Hbase' as [Hf1 Hbase'].
  step H u2 d2 H2. apply mkdirSync_inv in H2 as [Hf2 _].
  step H u3 d3 H3. apply mkdirSync_inv in H3 as [Hf3 _].
  step H u4 d4 H4. apply mkdirSync_inv in H4 as [Hf4 _].
  step H u5 d5 H5. apply mkdirSync_inv in H5 as [Hf5 _].
  step H ex d6 H6. apply existsSync_inv in H6 as [-> Hex].
  assert (Hf : files d5 = files d) by congruence.
  step H mounts1 d7 Henv.
  set (fixed := (base ++ [ {| hostPath := DATA_DIR ++ [js "sessions"; folder group];
                       containerPath := js "/home/user"; readonly := false |} ])
                ++ [ {| hostPath := DATA_DIR ++ [js "ipc"; folder group];
                        containerPath := js "/workspace/ipc"; readonly := false |} ]) in *.
  assert (Hfixed : ∀ m, In m fixed → containerPath m ≠ js "/workspace/env-dir").
  { intros m. unfold fixed. rewrite !in_app_iff.
    intros [[Hm|[<-|[]]]|[<-|[]]]; [by apply Hbase'|done|done]. }
  assert (Hmounts1 :
    (survivors ≠ [] →
       files d7 !! (envDir ++ [js "env"]) = Some (join [LF] survivors ++ [LF])
       ∧ mounts1 = fixed ++ [envMount])
    ∧ (survivors = [] → files d7 = files d ∧ mounts1 = fixed)).
  { destruct ex.
    - step Henv content d8 Hread.
      apply readFileSync_inv in Hread as [-> Hcontent].
      rewrite Hf in Hcontent. unfold survivors. rewrite Hcontent.
      destruct (filterEnvLines content) as [|l ls] eqn:Hlines.
      + cbn in Henv. injection Henv as <- <-. split; [done|]. done.
      + cbn [length] in Henv.
        rewrite (proj2 (Z.ltb_lt 0 _)) in Henv by lia.
        step Henv u9 d9 Hwrite. apply writeFileSync_inv in Hwrite.
        injection Henv as <- <-. split; [|done]. intros _.
        rewrite Hwrite. by rewrite lookup_insert_eq.
    - injection Henv as <- <-.
      destruct (files d !! envFile) as [content|] eqn:Hcontent.
      + rewrite Hf, Hcontent in Hex. by specialize (Hex (mk_is_Some _ _ eq_refl)).
      + unfold survivors. rewrite ?Hcontent. split; [done|]. done. }
  destruct Hmounts1 as [Hsome Hnone].
  assert (Hd' : d' = d7
    ∧ (mounts = mounts1
       ∨ ∃ c requested, containerConfig group = Some c
           ∧ additionalMounts c = Some requested
           ∧ mounts = mounts1 ++ validateAdditionalMounts requested (name group) main)).
  { destruct (containerConfig group) as [c|] eqn:Hc; [|injection H as <- <-; by auto].
    destruct (additionalMounts c) as [requested|] eqn:Hreq;
      injection H as <- <-; [|by auto].
    split; [done|]. right. by exists c, requested. }
  destruct Hd' as [-> Hmounts]. split.
  - intros Hne. destruct (Hsome Hne) as [Hfile ->]. split; [done|].
    destruct Hmounts as [->|(c & requested & _ & _ & ->)];
      rewrite !in_app_iff; cbn; auto.
  - intros Hnil. destruct (Hnone Hnil) as [Hfile ->]. split; [done|].
    intros m Hm Hpath.
    destruct Hmounts as [->|(c & requested & Hc & Hreq & ->)].
    + by apply Hfixed in Hm.
    + apply in_app_iff in Hm as [Hm|Hm]; [by apply Hfixed in Hm|].
      by exists c, requested.
Qed.
Lemma loadLine_keys (lines : list (list N)) (env : gmap (list N) (list N)) (k : list N) :
  fold_left LoadEnv.loadLine lines env !! k ≠ env !! k →
  ∃ line value, In line lines ∧ LoadEnv.parseLine line = Some (k, value).
Proof.
  revert env. induction lines as [|line lines IH]; intros env Hk; [done|].
  cbn in Hk.
  destruct (decide (LoadEnv.loadLine env line !! k = env !! k)) as [Heq|Hne].
  - rewrite <- Heq in Hk. destruct (IH _ Hk) as (l & v & Hl & Hp).
    exists l, v. split; [by right|done].
  - unfold LoadEnv.loadLine in Hne.
    destruct (LoadEnv.parseLine line) as [[key value]|] eqn:Hp; [|done].
    destruct (decide (key = k)) as [->|Hkey].
    + exists line, value. split; [by left|done].
    + by rewrite lookup_insert_ne in Hne.
Qed.

Lemma loader_sets_only_allowed (envContent : list N)
    (env : gmap (list N) (list N)) (k : list N) :
  let survivors := filterEnvLines envContent in
  survivors ≠ [] →
  LoadEnv.loadContainerEnv (join [LF] survivors ++ [LF]) env !! k ≠ env !! k →
  In k ALLOWED_ENV_VARS.
Proof.
  intros survivors Hne Hk. unfold LoadEnv.loadContainerEnv in Hk.
  rewrite split_join_newline in Hk; [|..|done].
  2: { unfold survivors, filterEnvLines. apply List.Forall_forall.
       intros l Hl. apply filter_In in Hl as [Hl _].
       pose proof (split_sep_free LF envContent) as Hall.
       rewrite List.Forall_forall in Hall. by apply Hall. }
  apply loadLine_keys in Hk as (line & value & Hline & Hparse).
  apply in_app_iff in Hline as [Hline|[<-|[]]]; [|done].
  apply filter_In in Hline as [_ Hallowed].
  apply envLineAllowed_spec in Hallowed as (v & rest & Hv & Htrim).
  rewrite (parseLine_allowed line v rest Hv Htrim) in Hparse.
  by injection Hparse as <- _.
Qed.

(** ** The entrypoint script

    What the script makes of a file of lines without a blank. *)
Lemma word_char_not_whitespace (c : N) :
  Entrypoint.is_word_char c = true → is_whitespace c = false.
Proof.
  unfold Entrypoint.is_word_char. intros [Hcov Hblank]%andb_true_iff.
  apply negb_true_iff in Hblank. unfold Entrypoint.is_covered in Hcov.
  rewrite Hblank in Hcov. cbn [orb] in Hcov.
  apply andb_true_iff in Hcov as [[Hlow Hhigh]%andb_true_iff _].
  apply N.ltb_lt in Hlow, Hhigh. unfold is_whitespace.
  repeat match goal with
  | |- context [(?a <=? ?b)%N] => destruct (N.leb_spec a b); try lia
  | |- context [(?a =? ?b)%N] => destruct (N.eqb_spec a b); try lia
  end; done.
Qed.

Lemma trimStart_word (s : list N) :
  Forall (λ c, Entrypoint.is_word_char c = true) s → trimStart s = s.
Proof.
  intros [|c s' Hc _]; [done|]. cbn. by rewrite (word_char_not_whitespace c Hc).
Qed.

Lemma trim_word (s : list N) :
  Forall (λ c, Entrypoint.is_word_char c = true) s → trim s = s.
Proof.
  intros Hs. unfold trim, trimEnd. rewrite (trimStart_word s Hs).
  rewrite trimStart_word; [apply rev_involutive|].
  apply List.Forall_forall. intros c Hc%in_rev.
  rewrite List.Forall_forall in Hs. by apply Hs.
Qed.

Lemma words_from_word (w l rest : list N) :
  Forall (λ c, Entrypoint.is_word_char c = true) l →
  Entrypoint.words_from w (l ++ rest) = Entrypoint.words_from (w ++ l) rest.
Proof.
  intros Hl. revert w. induction Hl as [|c l Hc Hl IH]; intros w.
  - by rewrite app_nil_r.
  - cbn [app Entrypoint.words_from].
    assert (Entrypoint.is_blank c = false) as ->.
    { unfold Entrypoint.is_word_char in Hc. apply andb_true_iff in Hc as [_ Hc].
      by apply negb_true_iff in Hc. }
    rewrite IH. by rewrite <- app_assoc.
Qed.

Lemma words_of_lines (lines : list (list N)) :
  Forall (λ line, line ≠ [] ∧ Forall (λ c, Entrypoint.is_word_char c = true) line) lines →
  Entrypoint.words (join [LF] lines ++ [LF]) = lines.
Proof.
  unfold Entrypoint.words.
  induction lines as [|l ls IH]; intros Hls; [done|].
  apply Forall_cons in Hls as [[Hne Hl] Hls].
  assert (Hflush : ∀ rest, Entrypoint.words_from [] (l ++ LF :: rest)
                           = l :: Entrypoint.words_from [] rest).
  { intros rest. rewrite (words_from_word [] l _ Hl). cbn.
    by destruct l. }
  destruct ls as [|l2 ls].
  - cbn [join]. by rewrite Hflush.
  - change (join [LF] (l :: l2 :: ls)) with (l ++ [LF] ++ join [LF] (l2 :: ls)).
    rewrite <- !app_assoc. cbn [app]. rewrite Hflush. by rewrite IH.
Qed.

Lemma assignment_allowed (v rest : list N) :
  In v ALLOWED_ENV_VARS →
  Entrypoint.assignment (v ++ js "=" ++ rest) = Some (v, rest)
  ∧ startsWith (v ++ js "=" ++ rest) (js "-") = false.
Proof.
  intros Hv. unfold Entrypoint.assignment.
  unfold ALLOWED_ENV_VARS in Hv. cbn [In] in Hv.
  destruct Hv as [<-|[<-|[<-|[<-|[<-|[]]]]]].
  all: split; [|reflexivity].
  all: match goal with
       | |- context [indexOf ?s ?p] =>
           let i := eval vm_compute in (indexOf s p) in
           change (indexOf s p) with i
       end.
  all: cbv beta zeta; rewrite slice_prefix, slice_from_drop by lia.
  all: reflexivity.
Qed.

Lemma covered_lines (lines : list (list N)) :
  Forall (λ line, Forall (λ c, Entrypoint.is_word_char c = true) line) lines →
  forallb Entrypoint.is_covered (join [LF] lines ++ [LF]) = true.
Proof.
  intros Hls. rewrite forallb_app. apply andb_true_iff. split; [|done].
  induction Hls as [|l ls Hl Hls IH]; [done|].
  assert (Hcov : forallb Entrypoint.is_covered l = true).
  { apply forallb_forall. intros c Hc. rewrite List.Forall_forall in Hl.
    specialize (Hl c Hc). unfold Entrypoint.is_word_char in Hl.
    by apply andb_true_iff in Hl as [Hl _]. }
  destruct ls as [|l2 ls]; [done|].
  change (join [LF] (l :: l2 :: ls)) with (l ++ [LF] ++ join [LF] (l2 :: ls)).
  rewrite !forallb_app, Hcov, IH. done.
Qed.

(** For a file of allowed lines without a blank, the script and the
    loader read the same assignments. *)
Lemma entrypoint_reads_as_loader (lines : list (list N))
    (env : gmap (list N) (list N)) :
  Forall (λ line, envLineAllowed line = true) lines →
  Forall (λ line, Forall (λ c, Entrypoint.is_word_char c = true) line) lines →
  Entrypoint.exported (join [LF] lines ++ [LF]) env
  = Some (fold_left LoadEnv.loadLine lines env).
Proof.
  intros Hallowed Hwords.
  assert (Hline : Forall (λ line, ∃ v rest, In v ALLOWED_ENV_VARS
                     ∧ line = v ++ js "=" ++ rest
                     ∧ LoadEnv.parseLine line = Some (v, rest)) lines).
  { apply List.Forall_forall. intros line Hin.
    rewrite List.Forall_forall in Hallowed, Hwords.
    destruct (envLineAllowed_spec line (Hallowed line Hin)) as (v & rest & Hv & Htrim).
    pose proof (parseLine_allowed line v rest Hv Htrim) as Hparse.
    rewrite (trim_word line (Hwords line Hin)) in Htrim.
    exists v, rest. split; [done|]. split; [done|].
    rewrite Hparse. f_equal. f_equal. apply trim_word.
    specialize (Hwords line Hin). rewrite Htrim in Hwords.
    apply Forall_app in Hwords as [_ Hwords].
    by apply Forall_app in Hwords as [_ Hwords]. }
  unfold Entrypoint.exported, Entrypoint.exports.
  rewrite (covered_lines lines Hwords). rewrite words_of_lines.
  2: { apply List.Forall_forall. intros line Hin.
       rewrite List.Forall_forall in Hline, Hwords.
       split; [|by apply Hwords].
       destruct (Hline line Hin) as (v & rest & Hv & -> & _).
       unfold ALLOWED_ENV_VARS in Hv. cbn [In] in Hv.
       by destruct Hv as [<-|[<-|[<-|[<-|[<-|[]]]]]]. }
  assert (forallb (λ word, negb (startsWith word (js "-"))) lines = true) as ->.
  { apply forallb_forall. intros line Hin. rewrite List.Forall_forall in Hline.
    destruct (Hline line Hin) as (v & rest & Hv & -> & _).
    by rewrite (proj2 (assignment_allowed v rest Hv)). }
  cbn [andb]. clear Hallowed Hwords. revert env.
  induction Hline as [|line lines (v & rest & Hv & -> & Hparse) Hlines IH];
    intros env; [done|].
  cbn [foldr fold_left]. rewrite (proj1 (assignment_allowed v rest Hv)).
  assert (LoadEnv.loadLine env (v ++ js "=" ++ rest) = <[v := rest]> env) as ->.
  { unfold LoadEnv.loadLine. by rewrite Hparse. }
  specialize (IH (<[v := rest]> env)).
  destruct (foldr _ _ lines) as [assignments|]; [|done].
  exact IH.
Qed.


End Child.

(** The example of the specification: noise around a marked payload. *)
Lemma C1_witness :
  extractPayload
    ((js "noise" ++ [LF]) ++ OUTPUT_START_MARKER
     ++ ([LF] ++ Demo.ok_payload ++ [LF])
     ++ OUTPUT_END_MARKER ++ ([LF] ++ js "more noise"))
  = Demo.ok_payload.
Proof.
  set (out := (js "noise" ++ [LF]) ++ OUTPUT_START_MARKER
              ++ ([LF] ++ Demo.ok_payload ++ [LF])
              ++ OUTPUT_END_MARKER ++ ([LF] ++ js "more noise")).
  destruct (C1_payload_extraction (bi := Demo.builtins) out)
    as (Hfirst & _ & Hbetween & _).
  rewrite (Hbetween (js "noise" ++ [LF]) ([LF] ++ Demo.ok_payload ++ [LF])
             ([LF] ++ js "more noise")).
  - vm_compute. reflexivity.
  - reflexivity.
  - destruct (Hfirst OUTPUT_START_MARKER) as [[Hnone _]|(n & Hn & _ & Hbefore)].
    + vm_compute in Hnone. discriminate.
    + assert (indexOf out OUTPUT_START_MARKER = 6) as Hsix
        by (vm_compute; reflexivity).
      assert (n = 6%nat) as -> by lia. exact Hbefore.
  - destruct (Hfirst OUTPUT_END_MARKER) as [[Hnone _]|(n & Hn & _ & Hbefore)].
    + vm_compute in Hnone. discriminate.
    + assert (indexOf out OUTPUT_END_MARKER = 69) as Hend
        by (vm_compute; reflexivity).
      assert (n = 69%nat) as -> by lia. exact Hbefore.
Defined.

(** C1, as stated, fails: without markers the payload of this output is
    neither its last non-empty line nor that line trimmed, but that line
    without the whitespace that ends it. *)
Lemma C1_counterexample :
  let out := js "a" ++ [LF] ++ js " ok " ++ [LF] in
  indexOf out OUTPUT_START_MARKER = -1
  ∧ indexOf out OUTPUT_END_MARKER = -1
  ∧ spec_lastNonEmptyLine out = js " ok "
  ∧ extractPayload out = js " ok"
  ∧ extractPayload out ≠ spec_lastNonEmptyLine out
  ∧ extractPayload out ≠ trim (spec_lastNonEmptyLine out).
Proof. vm_compute. repeat split; discriminate. Qed.

(** An end marker printed before the start marker hides the marked payload:
    the first end marker is the one that counts. *)
Example extractPayload_end_marker_first :
  extractPayload
    (OUTPUT_END_MARKER ++ [LF] ++ OUTPUT_START_MARKER ++ Demo.ok_payload
     ++ OUTPUT_END_MARKER)
  = OUTPUT_START_MARKER ++ Demo.ok_payload ++ OUTPUT_END_MARKER.
Proof. vm_compute. reflexivity. Qed.

(** The fallback example of the specification. *)
Example extractPayload_last_line :
  extractPayload (js "starting agent" ++ [LF] ++ Demo.err_payload ++ [LF])
  = Demo.err_payload
  ∧ parseOutput (bi := Demo.builtins)
      (js "starting agent" ++ [LF] ++ Demo.err_payload ++ [LF])
    = Demo.err_output.
Proof. vm_compute. split; reflexivity. Qed.





Lemma C6_witness :
  let st := runChild (cfg := Demo.small_cap) (bi := Demo.builtins)
              [StdoutData (js "hello"); StdoutData (js "more")] in
  stdout st = js "hell"
  ∧ onStdoutData (cfg := Demo.small_cap) (js "again") st = st.
Proof.
  intros st.
  destruct (C6_output_is_capped (cfg := Demo.small_cap) (bi := Demo.builtins)
              [StdoutData (js "hello"); StdoutData (js "more")])
    as (_ & _ & Hout & _ & Hflag & _ & Hdrop & _).
  split.
  - unfold st. rewrite Hout. reflexivity.
  - apply Hdrop, Hflag. vm_compute. reflexivity.
Defined.

(** C6, as stated, fails: the cap counts UTF-16 code units, not bytes.
    Four times U+044F, two bytes each in UTF-8 as in UTF-16, fit a cap of
    four and are kept whole: eight bytes. *)
Lemma C6_counterexample :
  let st := runChild (cfg := Demo.small_cap) (bi := Demo.builtins)
              [StdoutData [1103; 1103; 1103; 1103]%N] in
  CONTAINER_MAX_OUTPUT_SIZE (Config := Demo.small_cap) = 4
  ∧ stdout st = [1103; 1103; 1103; 1103]%N
  ∧ stdoutTruncated st = false
  ∧ byteLength (stdout st) = 8
  ∧ ¬ byteLength (stdout st) <= CONTAINER_MAX_OUTPUT_SIZE (Config := Demo.small_cap).
Proof. vm_compute. repeat split. intros H. apply H. reflexivity. Qed.

End RunnerSpec.

(* ================================================================== *)
(** * The router: sessions and watermarks *)
(* ================================================================== *)

Module RouterSpec.
Import Runner Router HostFacts JSFacts.

Arguments runAgent : simpl never.
Arguments when : simpl never.

Ltac tidy :=
  cbn [fst snd disk calls sessions lastAgentTimestamp registeredGroups db
       files denied dirs record_call set_disk set_sessions set_files
       set_lastAgentTimestamp].

Section Turns.
Context {cfg : Config} {bi : Builtins}.

(** A snapshot writer: the directory is made, then the file written. *)
Lemma snapshot_run (dir : Path) (file content : list N) (d : Disk) :
  ∃ d', denied d' = denied d
    ∧ ((∃ path, (do* mkdirSync dir in writeFileSync (dir ++ [file]) content) d
                = (Throw (EACCES path), d')
         ∧ path ∈ denied d ∧ (path = dir ∨ path = dir ++ [file])
         ∧ files d' = files d)
       ∨ ((do* mkdirSync dir in writeFileSync (dir ++ [file]) content) d = (Ok tt, d')
          ∧ files d' = <[dir ++ [file] := content]> (files d))).
Proof.
  unfold bind, mkdirSync, writeFileSync.
  destruct (decide (dir ∈ denied d)) as [Hdir|Hdir].
  - rewrite bool_decide_eq_true_2 by done. exists d. split; [done|]. left.
    exists dir. auto.
  - rewrite bool_decide_eq_false_2 by done. cbn [denied set_dirs].
    destruct (decide (dir ++ [file] ∈ denied d)) as [Hfile|Hfile].
    + rewrite bool_decide_eq_true_2 by done.
      exists (set_dirs (dirs d ∪ list_to_set (ancestors dir)) d).
      split; [done|]. left. exists (dir ++ [file]). auto.
    + rewrite bool_decide_eq_false_2 by done.
      exists (set_files (<[dir ++ [file] := content]> (files d))
                (set_dirs (dirs d ∪ list_to_set (ancestors dir)) d)).
      split; [done|]. by right.
Qed.

Lemma writeTasksSnapshot_run (f : list N) (m : bool) (ts : list Task) (d : Disk) :
  let ipc := DATA_DIR ++ [js "ipc"; f] in
  let file := ipc ++ [js "current_tasks.json"] in
  ∃ d', denied d' = denied d
    ∧ ((∃ path, writeTasksSnapshot f m ts d = (Throw (EACCES path), d')
         ∧ path ∈ denied d ∧ (path = ipc ∨ path = file) ∧ files d' = files d)
       ∨ (writeTasksSnapshot f m ts d = (Ok tt, d')
          ∧ files d'
            = <[file := JSON_stringify_tasks
                          (if m then ts else filter (λ t, group_folder t = f) ts)]>
                (files d))).
Proof. apply snapshot_run. Qed.

Lemma writeGroupsSnapshot_run (f : list N) (m : bool) (gs : list AvailableGroup)
    (d : Disk) :
  let ipc := DATA_DIR ++ [js "ipc"; f] in
  let file := ipc ++ [js "available_groups.json"] in
  ∃ d', denied d' = denied d
    ∧ ((∃ path, writeGroupsSnapshot f m gs d = (Throw (EACCES path), d')
         ∧ path ∈ denied d ∧ (path = ipc ∨ path = file) ∧ files d' = files d)
       ∨ (writeGroupsSnapshot f m gs d = (Ok tt, d')
          ∧ files d'
            = <[file := JSON_stringify_groups (if m then gs else []) Date_toISOString]>
                (files d))).
Proof. apply snapshot_run. Qed.

Lemma copy_tasks (tasks : list Task) :
  map (λ t, {| id := id t; group_folder := group_folder t;
               task_prompt := task_prompt t; schedule_type := schedule_type t;
               schedule_value := schedule_value t; task_status := task_status t;
               next_run := next_run t |}) tasks = tasks.
Proof. induction tasks as [|[] tasks IH]; [done|]. cbn. by rewrite IH. Qed.

(** The two state files and the two snapshots of a group are four
    different paths. *)
Lemma state_file_not_snapshot (name f file : list N) :
  DATA_DIR ++ [name] ≠ (DATA_DIR ++ [js "ipc"; f]) ++ [file].
Proof.
  rewrite <- app_assoc. intros Heq. apply app_inv_head in Heq. discriminate.
Qed.

Lemma state_file_not_sessions_file :
  DATA_DIR ++ [js "router_state.json"] ≠ DATA_DIR ++ [js "sessions.json"].
Proof.
  intros Heq. apply app_inv_head in Heq. vm_compute in Heq. discriminate.
Qed.

Lemma snapshots_apart (f : list N) :
  (DATA_DIR ++ [js "ipc"; f]) ++ [js "current_tasks.json"]
  ≠ (DATA_DIR ++ [js "ipc"; f]) ++ [js "available_groups.json"].
Proof.
  intros Heq. apply app_inv_head in Heq. vm_compute in Heq. discriminate.
Qed.

(** The run of [saveState]: the watermarks are written, then the session
    handles; a refused write throws, and what was written before stays. *)
Lemma saveState_run (w : World) :
  let stateFile := DATA_DIR ++ [js "router_state.json"] in
  let sessionsFile := DATA_DIR ++ [js "sessions.json"] in
  let r := fst (saveState w) in
  let w' := snd (saveState w) in
  sessions w' = sessions w
  ∧ lastAgentTimestamp w' = lastAgentTimestamp w
  ∧ registeredGroups w' = registeredGroups w
  ∧ db w' = db w
  ∧ calls w' = calls w
  ∧ denied (disk w') = denied (disk w)
  ∧ (∀ p, p ≠ stateFile → p ≠ sessionsFile →
       files (disk w') !! p = files (disk w) !! p)
  ∧ ((r = Ok tt
      ∧ files (disk w') !! stateFile
        = Some (JSON_stringify_state (lastAgentTimestamp w))
      ∧ files (disk w') !! sessionsFile
        = Some (JSON_stringify_sessions (sessions w)))
     ∨ (∃ path, r = Throw (EACCES path) ∧ path ∈ denied (disk w)
          ∧ (path = stateFile ∨ path = sessionsFile))).
Proof.
  intros stateFile sessionsFile r w'. subst r w'.
  unfold saveState, saveJson, on_disk, zoom, bind, get, writeFileSync.
  destruct (decide (stateFile ∈ denied (disk w))) as [Hstate|Hstate].
  { fold stateFile. rewrite bool_decide_eq_true_2 by done. tidy.
    repeat (split; [done|]). right. exists stateFile. auto. }
  fold stateFile. rewrite bool_decide_eq_false_2 by done. tidy.
  destruct (decide (sessionsFile ∈ denied (disk w))) as [Hsess|Hsess].
  { fold sessionsFile. rewrite bool_decide_eq_true_2 by done. tidy.
    repeat (split; [done|]).
    split; [intros p Hp _; by apply lookup_insert_ne|].
    right. exists sessionsFile. auto. }
  fold sessionsFile. rewrite bool_decide_eq_false_2 by done. tidy.
  repeat (split; [done|]).
  split; [intros p Hp Hp'; by rewrite !lookup_insert_ne|].
  left. split; [done|]. split; [|by rewrite lookup_insert_eq].
  rewrite lookup_insert_ne by (symmetry; apply state_file_not_sessions_file).
  by rewrite lookup_insert_eq.
Qed.

(** What a call of [runAgent] leaves alone. *)
Lemma runAgent_inv (run : ContainerInput -> RunOutcome) (g : RegisteredGroup)
    (p jid : list N) (w : World) :
  let w' := snd (runAgent run g p jid w) in
  lastAgentTimestamp w' = lastAgentTimestamp w
  ∧ registeredGroups w' = registeredGroups w
  ∧ db w' = db w.
Proof.
  unfold runAgent, bind, get, on_disk, zoom, try_catch, modify, ret, throw, saveJson.
  cbn zeta.
  destruct (writeTasksSnapshot _ _ _ _) as [[[]|e1] d1]; cbn; [|done].
  destruct (writeGroupsSnapshot _ _ _ _) as [[[]|e2] d2]; cbn; [|done].
  match goal with |- context [run ?i] => destruct (run i) as [o|e] end; cbn; [|done].
  destruct (truthy_opt (newSessionId o)); cbn.
  - unfold on_disk, zoom; cbn.
    destruct (writeFileSync _ _ _) as [[[]|e3] d3]; cbn; [|done].
    by case_bool_decide.
  - by case_bool_decide.
Qed.

(** The run of [runAgent]: either a snapshot could not be written, and it
    throws before the container is called; or the container is called once,
    with the stored session handle of the group, and the handle its output
    carries is stored and written to the sessions file before the status of
    the output is looked at. *)
Lemma runAgent_run (run : ContainerInput → RunOutcome) (g : RegisteredGroup)
    (p jid : list N) (w : World) :
  let main := bool_decide (folder g = MAIN_GROUP_FOLDER) in
  let input :=
    {| prompt := p; sessionId := sessions w !! folder g;
       groupFolder := folder g; chatJid := jid; isMain := main;
       isScheduledTask := None |} in
  let ipc := DATA_DIR ++ [js "ipc"; folder g] in
  let tasksFile := ipc ++ [js "current_tasks.json"] in
  let groupsFile := ipc ++ [js "available_groups.json"] in
  let sessionsFile := DATA_DIR ++ [js "sessions.json"] in
  let r := fst (runAgent run g p jid w) in
  let w' := snd (runAgent run g p jid w) in
  denied (disk w') = denied (disk w)
  ∧ (∀ q, q ≠ tasksFile → q ≠ groupsFile → q ≠ sessionsFile →
       files (disk w') !! q = files (disk w) !! q)
  ∧ ((∃ path, r = Throw (EACCES path) ∧ path ∈ denied (disk w)
        ∧ (path = ipc ∨ path = tasksFile ∨ path = groupsFile)
        ∧ calls w' = calls w ∧ sessions w' = sessions w
        ∧ files (disk w') !! sessionsFile = files (disk w) !! sessionsFile)
     ∨ (calls w' = calls w ++ [CallRunContainerAgent g input]
        ∧ files (disk w') !! tasksFile
          = Some (JSON_stringify_tasks
                    (if main then db_tasks (db w)
                     else filter (λ t, group_folder t = folder g) (db_tasks (db w))))
        ∧ files (disk w') !! groupsFile
          = Some (JSON_stringify_groups
                    (if main then getAvailableGroups w else []) Date_toISOString)
        ∧ match run input with
          | Rejected _ =>
              r = Ok None ∧ sessions w' = sessions w
              ∧ files (disk w') !! sessionsFile = files (disk w) !! sessionsFile
          | Resolved o =>
              sessions w'
              = (if truthy_opt (newSessionId o)
                 then <[folder g := default [] (newSessionId o)]> (sessions w)
                 else sessions w)
              ∧ (r = Ok None
                 ∨ status o = StatusSuccess ∧ r = Ok (result o))
              ∧ (sessionsFile ∉ denied (disk w) →
                 status o = StatusSuccess → r = Ok (result o))
              ∧ (if truthy_opt (newSessionId o)
                 then sessionsFile ∈ denied (disk w) ∧ r = Ok None
                      ∧ files (disk w') !! sessionsFile
                        = files (disk w) !! sessionsFile
                      ∨ (sessionsFile ∉ denied (disk w))
                        ∧ files (disk w') !! sessionsFile
                          = Some (JSON_stringify_sessions (sessions w'))
                 else files (disk w') !! sessionsFile
                      = files (disk w) !! sessionsFile)
          end)).
Proof.
  intros main input ipc tasksFile groupsFile sessionsFile r w'. subst r w'.
  destruct (runAgent run g p jid w) as [r w'] eqn:H. cbn [fst snd].
  revert H.
  unfold runAgent, bind, get, on_disk, zoom, try_catch, modify, ret, throw, saveJson.
  cbn zeta. rewrite copy_tasks. fold main input sessionsFile.
  assert (Hst : sessionsFile ≠ tasksFile) by apply state_file_not_snapshot.
  assert (Hsg : sessionsFile ≠ groupsFile) by apply state_file_not_snapshot.
  assert (Htg : tasksFile ≠ groupsFile) by apply snapshots_apart.
  destruct (writeTasksSnapshot_run (folder g) main (db_tasks (db w)) (disk w))
    as (d1 & Hn1 & [(path & -> & Hpath & Hwhich & Hf1)|[-> Hf1]]).
  { intros [= <- <-]. tidy. rewrite Hf1. split; [done|]. split; [done|].
    left. exists path. intuition. }
  cbn [disk set_disk].
  fold ipc tasksFile in Hf1.
  destruct (writeGroupsSnapshot_run (folder g) main (getAvailableGroups w) d1)
    as (d2 & Hn2 & [(path & -> & Hpath & Hwhich & Hf2)|[-> Hf2]]).
  { intros [= <- <-]. tidy. rewrite Hf2, Hf1. split; [congruence|].
    split; [intros q Hq _ _; by apply lookup_insert_ne|].
    left. exists path. rewrite <- Hn1.
    rewrite lookup_insert_ne by done. intuition. }
  fold ipc groupsFile in Hf2.
  assert (Hn : denied d2 = denied (disk w)) by congruence.
  assert (Hframe : ∀ q, q ≠ tasksFile → q ≠ groupsFile →
            files d2 !! q = files (disk w) !! q).
  { intros q Hq1 Hq2. rewrite Hf2, Hf1. by rewrite !lookup_insert_ne. }
  assert (Htasks : files d2 !! tasksFile
            = Some (JSON_stringify_tasks
                      (if main then db_tasks (db w)
                       else filter (λ t, group_folder t = folder g) (db_tasks (db w))))).
  { rewrite Hf2, Hf1. rewrite lookup_insert_ne by done. by rewrite lookup_insert_eq. }
  assert (Hgroups : files d2 !! groupsFile
            = Some (JSON_stringify_groups
                      (if main then getAvailableGroups w else []) Date_toISOString)).
  { rewrite Hf2. by rewrite lookup_insert_eq. }
  clear Hf1 Hf2 Hn1 Hn2.
  cbn [fst snd disk set_disk record_call calls sessions].
  destruct (run input) as [o|e] eqn:Hrun; cbn [fst snd disk calls sessions].
  2: { intros [= <- <-]. tidy. split; [done|].
       split; [intros q Hq1 Hq2 _; by apply Hframe|].
       right. repeat (split; [done|]). by apply Hframe. }
  destruct (truthy_opt (newSessionId o)) eqn:Hsid; tidy.
  - unfold writeFileSync, on_disk, zoom. tidy.
    destruct (decide (sessionsFile ∈ denied d2)) as [Hden|Hden].
    + rewrite bool_decide_eq_true_2 by done. intros [= <- <-]. tidy.
      split; [done|]. split; [intros q Hq1 Hq2 _; by apply Hframe|].
      right. repeat (split; [done|]).
      split; [by left|]. split; [intros Hok; destruct Hok; congruence|].
      left. split; [congruence|]. split; [done|]. by apply Hframe.
    + rewrite bool_decide_eq_false_2 by done. tidy.
      assert (Hfree : sessionsFile ∉ denied (disk w)) by congruence.
      destruct (status o) eqn:Hstatus; cbn; intros [= <- <-]; tidy.
      all: split; [done|].
      all: split; [intros q Hq1 Hq2 Hq3; rewrite lookup_insert_ne by done;
                   by apply Hframe|].
      all: right; rewrite !lookup_insert_ne by done; rewrite lookup_insert_eq.
      all: repeat (split; [done|]).
      all: split; [auto|]; split; [auto; intros; discriminate|]; right; done.
  - destruct (status o) eqn:Hstatus; cbn; intros [= <- <-]; tidy.
    all: split; [done|].
    all: split; [intros q Hq1 Hq2 _; by apply Hframe|].
    all: right; repeat (split; [done|]).
    all: split; [auto|]; split; [auto; intros; discriminate|]; by apply Hframe.
Qed.

(** The wrapper of the prompt keeps it from ever being the empty string, so
    the guard on the prompt in [processMessage] never returns. *)
Lemma buildPrompt_truthy (ms : list NewMessage) : truthy (buildPrompt ms) = true.
Proof. reflexivity. Qed.

(** A message that does not pass the gate changes nothing at all. *)
Lemma processMessage_gated (run : ContainerInput → RunOutcome) (msg : NewMessage)
    (w : World) :
  (registeredGroups w !! chat_jid msg = None
   ∨ ∃ g, registeredGroups w !! chat_jid msg = Some g
       ∧ folder g ≠ MAIN_GROUP_FOLDER
       ∧ TRIGGER_PATTERN_test (trim (content msg)) = false) →
  processMessage run msg w = (Ok tt, w).
Proof.
  unfold processMessage, bind, get. cbn zeta.
  intros [->|(g & -> & Hmain & ->)]; [done|].
  by rewrite bool_decide_eq_false_2.
Qed.

Lemma gate_cases (msg : NewMessage) (w : World) :
  (registeredGroups w !! chat_jid msg = None
   ∨ ∃ g, registeredGroups w !! chat_jid msg = Some g
       ∧ folder g ≠ MAIN_GROUP_FOLDER
       ∧ TRIGGER_PATTERN_test (trim (content msg)) = false)
  ∨ ∃ g, registeredGroups w !! chat_jid msg = Some g
      ∧ (folder g = MAIN_GROUP_FOLDER
         ∨ TRIGGER_PATTERN_test (trim (content msg)) = true).
Proof.
  destruct (registeredGroups w !! chat_jid msg) as [g|]; [|by left; left].
  destruct (decide (folder g = MAIN_GROUP_FOLDER)); [right; eauto|].
  destruct (TRIGGER_PATTERN_test (trim (content msg))) eqn:Ht; [right; eauto|].
  left. right. eauto.
Qed.

(** The run of [processMessage] for a message that passes the gate: a
    snapshot cannot be written and the turn throws before the container is
    called; or the container is called and the turn ends without a reply;
    or the container gave a non-empty result, the watermark of the chat is
    moved, and [saveState] either writes both state files, after which the
    reply is sent, or throws. *)
Lemma processMessage_run (run : ContainerInput → RunOutcome) (msg : NewMessage)
    (w : World) (g : RegisteredGroup) :
  registeredGroups w !! chat_jid msg = Some g →
  folder g = MAIN_GROUP_FOLDER ∨ TRIGGER_PATTERN_test (trim (content msg)) = true →
  let main := bool_decide (folder g = MAIN_GROUP_FOLDER) in
  let typing :=
    if startsWith (chat_jid msg) TELEGRAM_PREFIX
    then [CallSendTypingAction (drop (length TELEGRAM_PREFIX) (chat_jid msg))]
    else [] in
  let input :=
    {| prompt := buildPrompt (getMessagesSince (db w) (chat_jid msg)
                                (watermark w (chat_jid msg)) ASSISTANT_NAME);
       sessionId := sessions w !! folder g;
       groupFolder := folder g; chatJid := chat_jid msg; isMain := main;
       isScheduledTask := None |} in
  let ipc := DATA_DIR ++ [js "ipc"; folder g] in
  let tasksFile := ipc ++ [js "current_tasks.json"] in
  let groupsFile := ipc ++ [js "available_groups.json"] in
  let stateFile := DATA_DIR ++ [js "router_state.json"] in
  let sessionsFile := DATA_DIR ++ [js "sessions.json"] in
  let r := fst (processMessage run msg w) in
  let w' := snd (processMessage run msg w) in
  denied (disk w') = denied (disk w)
  ∧ registeredGroups w' = registeredGroups w
  ∧ db w' = db w
  ∧ ((∃ path, r = Throw (EACCES path) ∧ path ∈ denied (disk w)
        ∧ (path = ipc ∨ path = tasksFile ∨ path = groupsFile)
        ∧ calls w' = calls w ++ typing ∧ sessions w' = sessions w
        ∧ lastAgentTimestamp w' = lastAgentTimestamp w
        ∧ files (disk w') !! stateFile = files (disk w) !! stateFile
        ∧ files (disk w') !! sessionsFile = files (disk w) !! sessionsFile)
     ∨ (files (disk w') !! tasksFile
          = Some (JSON_stringify_tasks
                    (if main then db_tasks (db w)
                     else filter (λ t, group_folder t = folder g) (db_tasks (db w))))
        ∧ files (disk w') !! groupsFile
          = Some (JSON_stringify_groups
                    (if main then getAvailableGroups w else []) Date_toISOString)
        ∧ sessions w'
          = match run input with
            | Resolved o =>
                if truthy_opt (newSessionId o)
                then <[folder g := default [] (newSessionId o)]> (sessions w)
                else sessions w
            | Rejected _ => sessions w
            end
        ∧ ((r = Ok tt
            ∧ calls w' = calls w ++ typing ++ [CallRunContainerAgent g input]
            ∧ lastAgentTimestamp w' = lastAgentTimestamp w
            ∧ files (disk w') !! stateFile = files (disk w) !! stateFile
            ∧ (sessionsFile ∉ denied (disk w) →
               ∀ o text, run input = Resolved o → status o = StatusSuccess →
                 result o = Some text → text = [])
            ∧ match run input with
              | Resolved o =>
                  if truthy_opt (newSessionId o)
                  then sessionsFile ∈ denied (disk w)
                       ∧ files (disk w') !! sessionsFile
                         = files (disk w) !! sessionsFile
                       ∨ (sessionsFile ∉ denied (disk w))
                         ∧ files (disk w') !! sessionsFile
                           = Some (JSON_stringify_sessions (sessions w'))
                  else files (disk w') !! sessionsFile
                       = files (disk w) !! sessionsFile
              | Rejected _ =>
                  files (disk w') !! sessionsFile = files (disk w) !! sessionsFile
              end)
           ∨ (∃ o text, run input = Resolved o ∧ status o = StatusSuccess
                ∧ result o = Some text ∧ text ≠ []
                ∧ lastAgentTimestamp w'
                  = <[chat_jid msg := timestamp msg]> (lastAgentTimestamp w)
                ∧ ((r = Ok tt
                    ∧ calls w'
                      = calls w ++ typing
                        ++ [ CallRunContainerAgent g input;
                             CallSendMessage (chat_jid msg)
                               (MESSAGE_PREFIX ++ ASSISTANT_NAME ++ js ": " ++ text) ]
                    ∧ files (disk w') !! stateFile
                      = Some (JSON_stringify_state (lastAgentTimestamp w'))
                    ∧ files (disk w') !! sessionsFile
                      = Some (JSON_stringify_sessions (sessions w')))
                   ∨ (∃ path, r = Throw (EACCES path) ∧ path ∈ denied (disk w)
                        ∧ (path = stateFile ∨ path = sessionsFile)
                        ∧ calls w'
                          = calls w ++ typing ++ [CallRunContainerAgent g input])))))).
Proof.
  intros Hg Htrig main typing input ipc tasksFile groupsFile stateFile sessionsFile
    r w'. subst r w'.
  destruct (processMessage run msg w) as [r w'] eqn:H. cbn [fst snd].
  revert H. unfold processMessage, bind at 1, get. cbn zeta. rewrite Hg.
  assert (negb (bool_decide (folder g = MAIN_GROUP_FOLDER))
          && negb (TRIGGER_PATTERN_test (trim (content msg))) = false) as ->.
  { destruct Htrig as [Hm| ->]; [|by rewrite andb_false_r].
    by rewrite bool_decide_eq_true_2. }
  rewrite buildPrompt_truthy. cbn [negb].
  fold (watermark w (chat_jid msg)).
  set (p := buildPrompt _) in *.
  assert (Hwhen : ∃ w0,
    when (startsWith (chat_jid msg) TELEGRAM_PREFIX)
      (modify (record_call (CallSendTypingAction
                              (drop (length TELEGRAM_PREFIX) (chat_jid msg))))) w
    = (Ok tt, w0)
    ∧ calls w0 = calls w ++ typing ∧ sessions w0 = sessions w
    ∧ disk w0 = disk w ∧ db w0 = db w ∧ registeredGroups w0 = registeredGroups w
    ∧ lastAgentTimestamp w0 = lastAgentTimestamp w).
  { unfold when, typing. destruct (startsWith _ _).
    - eexists. split; [reflexivity|]. done.
    - exists w. by rewrite app_nil_r. }
  destruct Hwhen as (w0 & Hwhen & Hc0 & Hs0 & Hd0 & Hb0 & Hr0 & Ht0).
  unfold bind at 1. rewrite Hwhen.
  pose proof (runAgent_run run g p (chat_jid msg) w0) as Hrun.
  pose proof (runAgent_inv run g p (chat_jid msg) w0) as Hinv.
  cbn zeta in Hrun, Hinv.
  assert (Hgroups : getAvailableGroups w0 = getAvailableGroups w).
  { unfold getAvailableGroups. by rewrite Hb0, Hr0. }
  rewrite Hs0, Hd0, Hb0, Hc0, Hgroups in Hrun.
  fold main input ipc tasksFile groupsFile sessionsFile in Hrun.
  rewrite Ht0, Hr0, Hb0 in Hinv.
  destruct Hinv as (Ht1 & Hr1 & Hb1).
  unfold bind at 1.
  destruct (runAgent run g p (chat_jid msg) w0) as [r1 w1]. cbn [fst snd] in *.
  assert (Hts : stateFile ≠ tasksFile) by apply state_file_not_snapshot.
  assert (Hgs : stateFile ≠ groupsFile) by apply state_file_not_snapshot.
  assert (Hss : stateFile ≠ sessionsFile) by apply state_file_not_sessions_file.
  assert (Hst : sessionsFile ≠ tasksFile) by apply state_file_not_snapshot.
  assert (Hsg : sessionsFile ≠ groupsFile) by apply state_file_not_snapshot.
  destruct Hrun as (Hden & Hframe & [(path & -> & Hpath & Hwhich & Hc1 & Hs1 & Hf1)
                                    |(Hc1 & Htasks & Hgroupsf & Hout)]).
  { intros [= <- <-]. repeat (split; [done|]). left. exists path.
    repeat (split; [done|]). split; [by apply Hframe|done]. }
  assert (Hsess : sessions w1
          = match run input with
            | Resolved o =>
                if truthy_opt (newSessionId o)
                then <[folder g := default [] (newSessionId o)]> (sessions w)
                else sessions w
            | Rejected _ => sessions w
            end).
  { destruct (run input); [tauto|]. tauto. }
  match goal with |- _ → ?G =>
    assert (Hquiet :
      r1 = Ok None
      ∨ (∃ o, run input = Resolved o ∧ r1 = Ok (result o)
              ∧ truthy_opt (result o) = false) →
      (Ok tt, w1) = (r, w') → G)
  end.
  { intros Hr1' [= <- <-]. repeat (split; [done|]). right.
    repeat (split; [done|]). left.
    split; [done|]. split; [by rewrite Hc1, app_assoc|]. split; [done|].
    split; [by apply Hframe|].
    split.
    - intros Hfree o text Hrun Hstatus Hres. rewrite Hrun in Hout.
      destruct Hout as (_ & _ & Hok & _). specialize (Hok Hfree Hstatus).
      destruct Hr1' as [->|(o' & Hrun' & -> & Hfalsy)].
      + rewrite Hres in Hok. discriminate.
      + rewrite Hrun in Hrun'. injection Hrun' as <-. rewrite Hres in Hfalsy.
        by destruct text.
    - destruct (run input) as [o|e]; [|tauto].
      destruct Hout as (_ & _ & _ & Hfile).
      destruct (truthy_opt (newSessionId o)); [|done].
      destruct Hfile as [(? & _ & ?)|[? ?]]; [by left|by right]. }
  destruct r1 as [[text|]|e].
  - destruct (truthy_opt (Some text)) eqn:Htext.
    + cbn [truthy_opt] in Htext.
      destruct (run input) as [o|e] eqn:Hrun; [|by destruct Hout].
      destruct Hout as (_ & [[=]|[Hstatus [= Hres]]] & _ & Hfile).
      unfold bind at 1, modify at 1.
      set (w2 := set_lastAgentTimestamp _ w1).
      pose proof (saveState_run w2) as Hsave. cbn zeta in Hsave.
      fold stateFile sessionsFile in Hsave.
      unfold bind at 1.
      destruct (saveState w2) as [r3 w3]. cbn [fst snd] in Hsave.
      destruct Hsave as (Hs3 & Ht3 & Hr3 & Hb3 & Hc3 & Hd3 & Hframe3 & Hsave).
      subst w2. cbn [sessions lastAgentTimestamp registeredGroups db calls disk
                     set_lastAgentTimestamp] in *.
      assert (Hcommon : denied (disk w3) = denied (disk w)
                ∧ files (disk w3) !! tasksFile = files (disk w1) !! tasksFile
                ∧ files (disk w3) !! groupsFile = files (disk w1) !! groupsFile).
      { split; [congruence|]. split; apply Hframe3; done. }
      destruct Hcommon as (Hd3' & Htasks3 & Hgroups3).
      destruct Hsave as [(-> & Hstate & Hsessions)|(path & -> & Hpath & Hwhich)].
      * unfold modify. intros [= <- <-]. tidy.
        split; [done|]. split; [congruence|]. split; [congruence|]. right.
        split; [congruence|]. split; [congruence|]. split; [congruence|]. right.
        exists o, text. repeat (split; [done|]). split; [by destruct text|].
        split; [by rewrite Ht3, Ht1|]. left.
        split; [done|]. split; [by rewrite Hc3, Hc1, <- !app_assoc|].
        split; [by rewrite Ht3|by rewrite Hs3].
      * intros [= <- <-].
        split; [done|]. split; [congruence|]. split; [congruence|]. right.
        split; [congruence|]. split; [congruence|]. split; [congruence|]. right.
        exists o, text. repeat (split; [done|]). split; [by destruct text|].
        split; [by rewrite Ht3, Ht1|]. right. exists path.
        split; [done|]. split; [congruence|]. split; [done|].
        by rewrite Hc3, Hc1, <- !app_assoc.
    + cbn [truthy_opt] in Htext. unfold ret. apply Hquiet. right.
      destruct (run input) as [o|e] eqn:Hrun; [|by destruct Hout].
      destruct Hout as (_ & [[=]|[Hstatus [= Hres]]] & _).
      exists o. rewrite <- Hres. done.
  - cbn [truthy_opt]. unfold ret. apply Hquiet. by left.
  - destruct (run input); [|by destruct Hout].
    destruct Hout as (_ & [[=]|[_ [=]]] & _).
Qed.

(** What a turn can do to the maps of the router. *)
Lemma processMessage_inv (run : ContainerInput -> RunOutcome) (msg : NewMessage) (w : World) :
  let w' := snd (processMessage run msg w) in
  registeredGroups w' = registeredGroups w
  ∧ db w' = db w
  ∧ (sessions w' = sessions w
     ∨ ∃ g i o sid, registeredGroups w !! chat_jid msg = Some g
         ∧ run i = Resolved o ∧ newSessionId o = Some sid ∧ sid ≠ []
         ∧ sessions w' = <[folder g := sid]> (sessions w))
  ∧ (lastAgentTimestamp w' = lastAgentTimestamp w
     ∨ lastAgentTimestamp w' = <[chat_jid msg := timestamp msg]> (lastAgentTimestamp w)
       ∧ ∃ i o text, run i = Resolved o ∧ status o = StatusSuccess
           ∧ result o = Some text ∧ text ≠ []).
Proof.
  intros w'. subst w'.
  destruct (gate_cases msg w) as [Hgated|(g & Hg & Hpass)].
  { rewrite (processMessage_gated run msg w Hgated). cbn. auto. }
  pose proof (processMessage_run run msg w g Hg Hpass) as Hrun. cbn zeta in Hrun.
  set (input := Build_ContainerInput _ _ _ _ _ _) in Hrun.
  destruct Hrun as (_ & Hr & Hb & Hrun). split; [done|]. split; [done|].
  destruct Hrun as [(path & _ & _ & _ & _ & Hs & Ht & _)|(_ & _ & Hs & Hrun)];
    [auto|].
  split.
  - destruct (run input) as [o|e] eqn:Ho; [|by left].
    destruct (newSessionId o) as [sid|] eqn:Hsid; [|by left].
    cbn [truthy_opt default] in Hs. destruct (truthy sid) eqn:Htruthy; [|by left].
    right. exists g, input, o, sid. repeat (split; [done|]).
    split; [by destruct sid|done].
  - destruct Hrun as [(_ & _ & Ht & _)|(o & text & Ho & Hst & Hres & Hne & Ht & _)];
      [by left|].
    right. split; [done|]. by exists input, o, text.
Qed.

Lemma playTurn_watermark (w : World) (t : Turn) (jid : list N) :
  watermark (playTurn w t) jid = watermark w jid
  ∨ chat_jid (turn_msg t) = jid
    ∧ watermark (playTurn w t) jid = timestamp (turn_msg t).
Proof.
  unfold playTurn, watermark.
  destruct (processMessage_inv (turn_run t) (turn_msg t) (set_db (turn_db t) w))
    as (_ & _ & _ & [->|(-> & _)]); cbn; [by left|].
  destruct (decide (chat_jid (turn_msg t) = jid)) as [<-|Hne].
  - right. by rewrite lookup_insert_eq.
  - left. by rewrite lookup_insert_ne.
Qed.

Lemma chat_timestamps_cons (jid : list N) (t : Turn) (ts : list Turn) :
  chat_timestamps jid (t :: ts)
  = if decide (chat_jid (turn_msg t) = jid)
    then timestamp (turn_msg t) :: chat_timestamps jid ts
    else chat_timestamps jid ts.
Proof. unfold chat_timestamps. rewrite filter_cons. by case_decide. Qed.

Lemma StronglySorted_skip {A} (R : relation A) (x y : A) (l : list A) :
  StronglySorted R (x :: y :: l) → StronglySorted R (x :: l).
Proof.
  intros Hs. apply StronglySorted_inv in Hs as [Hs Hx].
  apply StronglySorted_inv in Hs as [Hs _].
  constructor; [done|]. by apply Forall_inv_tail in Hx.
Qed.

Lemma playTurn_keeps_order (w : World) (t : Turn) (ts : list Turn) (jid : list N) :
  StronglySorted le (watermark w jid :: chat_timestamps jid (t :: ts)) →
  le (watermark w jid) (watermark (playTurn w t) jid)
  ∧ StronglySorted le (watermark (playTurn w t) jid :: chat_timestamps jid ts).
Proof.
  rewrite chat_timestamps_cons. intros Hs.
  destruct (playTurn_watermark w t jid) as [->|[Hjid ->]].
  - split; [reflexivity|]. case_decide; [|done]. by eapply StronglySorted_skip.
  - rewrite decide_True in Hs by done.
    apply StronglySorted_inv in Hs as [Hs Hx]. split; [|done].
    by apply Forall_inv in Hx.
Qed.

Lemma play_keeps_order (w : World) (t1 t2 : list Turn) (jid : list N) :
  StronglySorted le (watermark w jid :: chat_timestamps jid (t1 ++ t2)) →
  le (watermark w jid) (watermark (play w t1) jid)
  ∧ StronglySorted le (watermark (play w t1) jid :: chat_timestamps jid t2).
Proof.
  revert w. induction t1 as [|t t1 IH]; intros w Hs; cbn.
  - split; [reflexivity|done].
  - apply playTurn_keeps_order in Hs as [Hle Hs].
    apply IH in Hs as [Hle' Hs]. split; [|done]. by etrans.
Qed.



Lemma processMessage_answered (run : ContainerInput -> RunOutcome)
    (msg : NewMessage) (w : World) (g : RegisteredGroup) :
  registeredGroups w !! chat_jid msg = Some g →
  folder g = MAIN_GROUP_FOLDER ∨ TRIGGER_PATTERN_test (trim (content msg)) = true →
  denied (disk w) = ∅ →
  (∀ i, ∃ o text, run i = Resolved o ∧ status o = StatusSuccess
                  ∧ result o = Some text ∧ text ≠ []) →
  lastAgentTimestamp (snd (processMessage run msg w))
  = <[chat_jid msg := timestamp msg]> (lastAgentTimestamp w).
Proof.
  intros Hg Htrig Hd Hrun.
  pose proof (processMessage_run run msg w g Hg Htrig) as Hturn. cbn zeta in Hturn.
  set (input := Build_ContainerInput _ _ _ _ _ _) in Hturn.
  destruct Hturn as (_ & _ & _ & [(path & _ & Hpath & _)|(_ & _ & _ & Hturn)]).
  { rewrite Hd in Hpath. by apply elem_of_empty in Hpath. }
  destruct Hturn as [(_ & _ & _ & _ & Hquiet & _)|(o & text & _ & _ & _ & _ & Ht & _)];
    [|done].
  destruct (Hrun input) as (o & text & Ho & Hst & Hres & Hne).
  destruct Hne. apply (Hquiet ltac:(rewrite Hd; apply not_elem_of_empty) o); done.
Qed.

(** C10. For every inbound message whose chat identifier has no registered
    group, [processMessage] returns at once and leaves the host as it was:
    the container runner is not called, and neither the sessions, the
    watermarks, what was made durable nor any file changes. *)
Theorem C10_unregistered_chat_is_ignored
    (run : ContainerInput -> RunOutcome) (msg : NewMessage) (w : World) :
  registeredGroups w !! chat_jid msg = None →
  processMessage run msg w = (Ok tt, w).
Proof.
  intros Hg. unfold processMessage, bind, get. cbn zeta. by rewrite Hg.
Qed.

(** C2 (amended). For every turn in which every output of the container
    has status [error], the router leaves every watermark unchanged, in
    memory and in the state file.  The stored session handle of the group is
    not protected: the handle is stored before the status is looked at, so
    the sessions change only by the group's handle being replaced by the
    non-empty [newSessionId] of an output, and they are unchanged, in memory
    and in the sessions file, when no output carries one.  When the turn of
    a registered group passes the gate and returns, and the error output for
    its input carries a non-empty [newSessionId], that handle does replace
    the stored one, and is written to the sessions file when the host may
    write it. *)
Theorem C2_error_turn_keeps_watermark
    (run : ContainerInput -> RunOutcome) (msg : NewMessage) (w : World) :
  (∀ i o, run i = Resolved o → status o = StatusError) →
  let w' := snd (processMessage run msg w) in
  let stateFile := DATA_DIR ++ [js "router_state.json"] in
  let sessionsFile := DATA_DIR ++ [js "sessions.json"] in
  lastAgentTimestamp w' = lastAgentTimestamp w
  ∧ files (disk w') !! stateFile = files (disk w) !! stateFile
  ∧ (sessions w' = sessions w
     ∨ ∃ g i o sid, registeredGroups w !! chat_jid msg = Some g
         ∧ run i = Resolved o ∧ status o = StatusError
         ∧ newSessionId o = Some sid ∧ sid ≠ []
         ∧ sessions w' = <[folder g := sid]> (sessions w))
  ∧ ((∀ i o, run i = Resolved o → truthy_opt (newSessionId o) = false) →
     sessions w' = sessions w
     ∧ files (disk w') !! sessionsFile = files (disk w) !! sessionsFile)
  ∧ (∀ g o sid,
       registeredGroups w !! chat_jid msg = Some g →
       folder g = MAIN_GROUP_FOLDER
       ∨ TRIGGER_PATTERN_test (trim (content msg)) = true →
       fst (processMessage run msg w) = Ok tt →
       run {| prompt := buildPrompt (getMessagesSince (db w) (chat_jid msg)
                                       (watermark w (chat_jid msg)) ASSISTANT_NAME);
              sessionId := sessions w !! folder g;
              groupFolder := folder g; chatJid := chat_jid msg;
              isMain := bool_decide (folder g = MAIN_GROUP_FOLDER);
              isScheduledTask := None |}
       = Resolved o →
       newSessionId o = Some sid → sid ≠ [] →
       sessions w' = <[folder g := sid]> (sessions w)
       ∧ (sessionsFile ∉ denied (disk w) →
          files (disk w') !! sessionsFile
          = Some (JSON_stringify_sessions (<[folder g := sid]> (sessions w))))).
Proof.
  intros Herr w' stateFile sessionsFile. subst w'.
  destruct (gate_cases msg w) as [Hgated|(g & Hg & Hpass)].
  { rewrite (processMessage_gated run msg w Hgated). cbn [fst snd].
    repeat (split; [auto; done|]).
    intros g o sid Hg Hpass _ _ _ _.
    destruct Hgated as [Hnone|(g' & Hg' & Hmain & Htrig)]; [congruence|].
    assert (g' = g) as -> by congruence.
    destruct Hpass; [done|congruence]. }
  pose proof (processMessage_run run msg w g Hg Hpass) as Hrun. cbn zeta in Hrun.
  set (input := Build_ContainerInput _ _ _ _ _ _) in Hrun.
  fold stateFile sessionsFile in Hrun.
  destruct Hrun as (_ & _ & _ & Hrun).
  destruct Hrun as [(path & Hthrow & _ & _ & _ & Hs & Ht & Hstate & Hfile)
                   |(_ & _ & Hs & Hrun)].
  { repeat (split; [auto; done|]).
    intros g' o sid _ _ Hok. rewrite Hthrow in Hok. discriminate. }
  destruct Hrun as [(_ & _ & Ht & Hstate & _ & Hfile)
                   |(o & text & Ho & Hst & _)].
  2: { apply Herr in Ho. congruence. }
  split; [done|]. split; [done|]. split; [|split].
  - destruct (run input) as [o|e] eqn:Ho; [|by left].
    destruct (newSessionId o) as [sid|] eqn:Hsid; [|by left].
    cbn [truthy_opt default] in Hs. destruct (truthy sid) eqn:Htruthy; [|by left].
    right. exists g, input, o, sid. split; [done|]. split; [done|].
    split; [by eapply Herr|]. split; [done|]. split; [by destruct sid|done].
  - intros Hnone. destruct (run input) as [o|e] eqn:Ho; [|done].
    rewrite (Hnone _ _ Ho) in Hs, Hfile. done.
  - intros g' o sid Hg' _ _ Ho Hsid Hne.
    assert (g' = g) as -> by congruence.
    fold input in Ho. rewrite Ho, Hsid in Hs, Hfile.
    cbn [truthy_opt default] in Hs, Hfile.
    assert (truthy sid = true) as Htruthy by (by destruct sid).
    rewrite Htruthy in Hs, Hfile. split; [done|].
    intros Hfree. destruct Hfile as [[Hden _]|[_ Hfile]]; [done|].
    by rewrite Hfile, Hs.
Qed.

(** C3 (amended). A turn changes the watermarks only by setting the
    watermark of its chat to the timestamp of its triggering message, and
    only when the container returned a non-empty textual result; a null or
    empty result, and every error, leave them as they were.  When the host
    may write its files, a turn of a registered and triggered chat with a
    non-empty result does set the watermark to that timestamp.  When the
    messages of a chat are delivered in the order of their timestamps,
    none earlier than the stored watermark, the watermark of that chat
    never decreases along the sequence of turns. *)
Theorem C3_watermark_advances_on_success
    (w : World) (turns : list Turn) (chatJid : list N) :
  (∀ w0 t,
     let w1 := playTurn w0 t in
     lastAgentTimestamp w1 = lastAgentTimestamp w0
     ∨ lastAgentTimestamp w1
       = <[chat_jid (turn_msg t) := timestamp (turn_msg t)]> (lastAgentTimestamp w0)
       ∧ ∃ i o text, turn_run t i = Resolved o ∧ status o = StatusSuccess
           ∧ result o = Some text ∧ text ≠ [])
  ∧ (∀ w0 t g,
       registeredGroups w0 !! chat_jid (turn_msg t) = Some g →
       folder g = MAIN_GROUP_FOLDER
       ∨ TRIGGER_PATTERN_test (trim (content (turn_msg t))) = true →
       denied (disk w0) = ∅ →
       (∀ i, ∃ o text, turn_run t i = Resolved o ∧ status o = StatusSuccess
                       ∧ result o = Some text ∧ text ≠ []) →
       watermark (playTurn w0 t) (chat_jid (turn_msg t)) = timestamp (turn_msg t))
  ∧ (Sorted le (watermark w chatJid :: chat_timestamps chatJid turns) →
     ∀ t1 t2, turns = t1 ++ t2 →
       le (watermark (play w t1) chatJid) (watermark (play w turns) chatJid)).
Proof.
  split; [|split].
  - intros w0 t w1. unfold w1, playTurn.
    destruct (processMessage_inv (turn_run t) (turn_msg t) (set_db (turn_db t) w0))
      as (_ & _ & _ & [Ht|(Ht & Hex)]); [by left|by right].
  - intros w0 t g Hg Htrig Hd Hrun. unfold playTurn, watermark.
    rewrite (processMessage_answered _ _ _ g); [|done..].
    cbn. by rewrite lookup_insert_eq.
  - intros Hsorted t1 t2 ->.
    apply Sorted_StronglySorted in Hsorted; [|apply le_transitive].
    apply play_keeps_order in Hsorted as [_ Hsorted].
    unfold play at 2. rewrite fold_left_app. fold (play w t1).
    fold (play (play w t1) t2).
    pose proof (play_keeps_order (play w t1) t2 [] chatJid) as Hle.
    rewrite app_nil_r in Hle. by apply Hle.
Qed.

End Turns.

Lemma C10_witness :
  processMessage (cfg := Demo.config) (bi := Demo.builtins)
    (Demo.answers "hi")
    (Demo.message_at "telegram_9" (js "telegram@chat:99")
       "2024-05-01T10:00:00.000Z" "hello")
    Demo.world
  = (Ok tt, Demo.world).
Proof.
  apply (C10_unregistered_chat_is_ignored (cfg := Demo.config)
           (bi := Demo.builtins)).
  vm_compute. reflexivity.
Defined.

Lemma C2_witness :
  let w' := snd (processMessage (cfg := Demo.config) (bi := Demo.builtins)
                   Demo.fails_with_session Demo.first_msg Demo.world) in
  lastAgentTimestamp w' = lastAgentTimestamp Demo.world
  ∧ sessions w' = <[js "main" := js "s2"]> (sessions Demo.world).
Proof.
  destruct (C2_error_turn_keeps_watermark (cfg := Demo.config)
              (bi := Demo.builtins) Demo.fails_with_session Demo.first_msg
              Demo.world) as (Ht & _ & _ & _ & Hs).
  - intros i o [= <-]. reflexivity.
  - split; [exact Ht|].
    apply (Hs Demo.main_group Demo.session_error_output (js "s2")).
    + vm_compute. reflexivity.
    + left. reflexivity.
    + vm_compute. reflexivity.
    + reflexivity.
    + reflexivity.
    + discriminate.
Defined.

(** C2, as stated, fails: an error output that carries a new session handle
    replaces the stored handle of the group, in memory and in the sessions
    file. *)
Lemma C2_counterexample :
  let w' := snd (processMessage (cfg := Demo.config) (bi := Demo.builtins)
                   Demo.fails_with_session Demo.first_msg Demo.world) in
  let sessionsFile := DATA_DIR (cfg := Demo.config) ++ [js "sessions.json"] in
  Demo.fails_with_session
    {| prompt := []; sessionId := None; groupFolder := js "main";
       chatJid := Demo.main_jid; isMain := true; isScheduledTask := None |}
  = Resolved Demo.session_error_output
  ∧ status Demo.session_error_output = StatusError
  ∧ sessions Demo.world !! js "main" = None
  ∧ sessions w' !! js "main" = Some (js "s2")
  ∧ sessions w' ≠ sessions Demo.world
  ∧ files (disk Demo.world) !! sessionsFile = None
  ∧ files (disk w') !! sessionsFile = Some (js "sessions:s2").
Proof.
  repeat split; try (vm_compute; reflexivity).
  intros Heq. apply (f_equal (λ m, m !! js "main")) in Heq.
  vm_compute in Heq. discriminate.
Qed.

(** C9. The window of the second of two messages sent in the same second
    is empty once the first is answered, and the container is run all the
    same, on a prompt that holds no message. *)
Theorem C9_empty_window_still_runs :
  let w := Demo.world_answered in
  let msg := Demo.same_second_msg in
  let w' := snd (processMessage (cfg := Demo.config) (bi := Demo.builtins)
                   (Demo.answers "hi") msg w) in
  getMessagesSince (db w) (chat_jid msg) (watermark w (chat_jid msg))
    (ASSISTANT_NAME (Config := Demo.config)) = []
  ∧ calls w = []
  ∧ calls w'
    = [ CallSendTypingAction (js "1");
        CallRunContainerAgent Demo.main_group
          {| prompt := js "<messages>" ++ [LF; LF] ++ js "</messages>";
             sessionId := None; groupFolder := js "main";
             chatJid := Demo.main_jid; isMain := true;
             isScheduledTask := None |};
        CallSendMessage Demo.main_jid (js "Neo: hi") ].
Proof. vm_compute. repeat split. Qed.

Lemma C3_witness :
  let t1 := Demo.turn_of Demo.first_msg (Demo.answers "hi") in
  let t2 := Demo.turn_of Demo.later_msg (Demo.answers "welcome") in
  le (watermark (play (cfg := Demo.config) (bi := Demo.builtins) Demo.world [t1])
        Demo.main_jid)
     (watermark (play (cfg := Demo.config) (bi := Demo.builtins) Demo.world [t1; t2])
        Demo.main_jid).
Proof.
  intros t1 t2.
  destruct (C3_watermark_advances_on_success (cfg := Demo.config)
              (bi := Demo.builtins) Demo.world [t1; t2] Demo.main_jid)
    as (_ & _ & Hmono).
  apply (Hmono ltac:(vm_compute; repeat constructor) [t1] [t2] eq_refl).
Defined.

(** C3, as stated, fails twice: a message with an earlier timestamp that is
    answered moves the watermark back, and a result that is the empty
    string, which is not null, does not move the watermark to the
    timestamp of its message. *)
Lemma C3_counterexample :
  let t1 := Demo.turn_of Demo.first_msg (Demo.answers "hi") in
  let t2 := Demo.turn_of Demo.earlier_msg (Demo.answers "hi") in
  let t3 := Demo.turn_of Demo.first_msg (Demo.answers "") in
  let play := play (cfg := Demo.config) (bi := Demo.builtins) in
  watermark (play Demo.world [t1]) Demo.main_jid = js "2024-05-01T10:00:00.000Z"
  ∧ watermark (play Demo.world [t1; t2]) Demo.main_jid = js "2024-05-01T09:00:00.000Z"
  ∧ ltb (watermark (play Demo.world [t1; t2]) Demo.main_jid)
        (watermark (play Demo.world [t1]) Demo.main_jid) = true
  ∧ Demo.answers ""
      {| prompt := []; sessionId := None; groupFolder := js "main";
         chatJid := Demo.main_jid; isMain := true; isScheduledTask := None |}
    = Resolved {| status := StatusSuccess; result := Some [];
                  newSessionId := None; error := None |}
  ∧ watermark (play Demo.world [t3]) Demo.main_jid = []
  ∧ watermark (play Demo.world [t3]) Demo.main_jid ≠ timestamp Demo.first_msg.
Proof. vm_compute. repeat split. discriminate. Qed.

End RouterSpec.

(* ================================================================== *)
(** * Numbers in decimal *)
(* ================================================================== *)

Module NumberFacts.
Import Transport.

Lemma js_cons (c : ascii) (s : string) : js (String c s) = N_of_ascii c :: js s.
Proof. reflexivity. Qed.

Lemma digits_value_pos (d : Decimal.uint) (p : positive) :
  digits_value (Z.pos p) (js (NilEmpty.string_of_uint d))
  = Z.pos (Pos.of_uint_acc d p).
Proof.
  revert p. induction d; intros p;
    cbn [NilEmpty.string_of_uint Pos.of_uint_acc]; rewrite ?js_cons; [done|..];
    cbn; rewrite <- IHd; f_equal; lia.
Qed.

Lemma digits_value_uint (d : Decimal.uint) :
  digits_value 0 (js (NilEmpty.string_of_uint d)) = Z.of_uint d.
Proof.
  unfold Z.of_uint.
  induction d; cbn [NilEmpty.string_of_uint Pos.of_uint]; rewrite ?js_cons;
    [done|exact IHd|..]; cbn; (etrans; [apply (digits_value_pos d)|done]).
Qed.

Lemma string_of_uint_digits (d : Decimal.uint) :
  Forall (λ c, is_digit c = true) (js (NilEmpty.string_of_uint d)).
Proof. induction d; cbn [NilEmpty.string_of_uint]; rewrite ?js_cons; by constructor. Qed.

Lemma string_of_uint_zero (d : Decimal.uint) :
  ∃ c s, js (NilZero.string_of_uint d) = c :: s ∧ is_digit c = true
         ∧ Forall (λ c, is_digit c = true) s
         ∧ digits_value 0 (c :: s) = Z.of_uint d.
Proof.
  destruct d eqn:Hd.
  1: { exists 48%N, []. done. }
  all: rewrite <- Hd;
    assert (NilZero.string_of_uint d = NilEmpty.string_of_uint d) as ->
      by (by subst d);
    pose proof (string_of_uint_digits d) as Hall;
    pose proof (digits_value_uint d) as Hval;
    destruct (js (NilEmpty.string_of_uint d)) as [|c s] eqn:Hs;
      [by subst d|];
    apply Forall_cons in Hall as [Hc Hall]; by exists c, s.
Qed.

Lemma digit_not_space (c : N) : is_digit c = true → is_whitespace c = false.
Proof.
  unfold is_digit, is_whitespace. intros [H1 H2]%andb_true_iff.
  apply N.leb_le in H1, H2.
  repeat match goal with
  | |- context [(?a <=? ?b)%N] => destruct (N.leb_spec a b); try lia
  | |- context [(?a =? ?b)%N] => destruct (N.eqb_spec a b); try lia
  end; done.
Qed.

Lemma digit_not_sign (c : N) : is_digit c = true → (c =? 45)%N = false ∧ (c =? 43)%N = false.
Proof.
  unfold is_digit. intros [H1 H2]%andb_true_iff. apply N.leb_le in H1, H2.
  split; apply N.eqb_neq; lia.
Qed.

(** Printing a number and reading it back. *)
Lemma parseInt10_of_Z (z : Z) : parseInt10 (of_Z z) = Some z.
Proof.
  unfold of_Z. rewrite <- (DecimalZ.of_to z) at 2.
  destruct (Z.to_int z) as [d|d]; cbn [NilZero.string_of_int Z.of_int].
  - destruct (string_of_uint_zero d) as (c & s & -> & Hc & _ & Hval).
    unfold parseInt10. cbn [trimStart]. rewrite (digit_not_space c Hc).
    destruct (digit_not_sign c Hc) as [-> ->]. cbn [fst snd]. rewrite Hc, Hval.
    f_equal; lia.
  - rewrite js_cons.
    destruct (string_of_uint_zero d) as (c & s & -> & Hc & _ & Hval).
    unfold parseInt10. cbn [trimStart]. change (is_whitespace (N_of_ascii "-")) with false.
    cbn iota. change (N_of_ascii "-" =? 45)%N with true. cbn [fst snd].
    rewrite Hc, Hval. f_equal; lia.
Qed.

Lemma of_Z_chars (z : Z) :
  of_Z z ≠ [] ∧ Forall (λ c, is_digit c = true ∨ c = 45%N) (of_Z z).
Proof.
  unfold of_Z. destruct (Z.to_int z) as [d|d]; cbn [NilZero.string_of_int];
    rewrite ?js_cons;
    destruct (string_of_uint_zero d) as (c & s & -> & Hc & Hs & _).
  - split; [done|]. constructor; [by left|].
    eapply Forall_impl; [exact Hs|]. by left.
  - split; [done|]. constructor; [by right|]. constructor; [by left|].
    eapply Forall_impl; [exact Hs|]. by left.
Qed.

End NumberFacts.

(* ================================================================== *)
(** * The transport: chat identifiers, the adapter and the polling loop *)
(* ================================================================== *)

Module TransportSpec.
Import Runner Router Transport JSFacts NumberFacts.

Lemma trimStart_app_stop (s r : list N) (c : N) :
  is_whitespace c = false → trimStart (s ++ c :: r) = trimStart s ++ c :: r.
Proof.
  intros Hc. induction s as [|x s IH]; cbn; [by rewrite Hc|].
  by destruct (is_whitespace x).
Qed.

Lemma digits_value_stop (s r : list N) (c : N) (acc : Z) :
  is_digit c = false → digits_value acc (s ++ c :: r) = digits_value acc s.
Proof.
  intros Hc. revert acc. induction s as [|x s IH]; intros acc; cbn; [by rewrite Hc|].
  by destruct (is_digit x).
Qed.

(** [parseInt] stops reading at a character that is neither white space,
    a sign nor a digit. *)
Lemma parseInt10_stop (s r : list N) (c : N) :
  is_whitespace c = false → is_digit c = false → c ≠ 45%N → c ≠ 43%N →
  parseInt10 (s ++ c :: r) = parseInt10 s.
Proof.
  intros Hw Hd H45 H43. unfold parseInt10. rewrite trimStart_app_stop by done.
  apply N.eqb_neq in H45, H43.
  destruct (trimStart s) as [|x t]; cbn [app].
  - rewrite H45, H43. cbn [fst snd]. by rewrite Hd.
  - destruct (x =? 45)%N; [|destruct (x =? 43)%N]; cbn [fst snd].
    + destruct t as [|y t]; cbn [app]; [by rewrite Hd|].
      destruct (is_digit y); [|done].
      by rewrite app_comm_cons, digits_value_stop.
    + destruct t as [|y t]; cbn [app]; [by rewrite Hd|].
      destruct (is_digit y); [|done].
      by rewrite app_comm_cons, digits_value_stop.
    + cbn [app]. destruct (is_digit x); [|done].
      by rewrite app_comm_cons, digits_value_stop.
Qed.

Lemma split_head (sep : N) (s : list N) :
  ∃ seg more, split sep s = seg :: more
    ∧ (s = seg ∨ ∃ r, s = seg ++ sep :: r).
Proof.
  pose proof (join_split sep s) as Hjoin.
  pose proof (split_nonempty sep s) as Hne.
  destruct (split sep s) as [|seg more]; [done|]. exists seg, more.
  split; [done|]. destruct more as [|l more]; [by left|].
  right. exists (join [sep] (l :: more)). by rewrite <- Hjoin.
Qed.

(** What [sendMessage] does with a Telegram chat identifier: the text goes
    to the chat whose number follows the prefix, if a number follows. *)
Lemma sendMessage_prefix (rest text : list N) :
  sendMessage (TELEGRAM_PREFIX ++ rest) text
  = option_map (λ chatId, (chatId, text)) (parseInt10 rest).
Proof.
  unfold sendMessage.
  rewrite (proj2 (startsWith_spec _ _)) by eauto.
  change (TELEGRAM_PREFIX ++ rest) with (js "telegram@chat" ++ 58%N :: rest).
  rewrite split_app_sep by (vm_compute; intuition discriminate).
  cbn [lookup list_lookup].
  destruct (split_head 58 rest) as (seg & more & -> & Hrest). cbn [lookup list_lookup default].
  assert (parseInt10 rest = parseInt10 seg) as ->.
  { destruct Hrest as [->|[r ->]]; [done|]. by apply parseInt10_stop. }
  destruct seg as [|c seg]; [done|]. cbn [truthy_opt truthy negb].
  unfold Datatypes.id. by destruct (parseInt10 (c :: seg)).
Qed.

Section Adapter.
Variable toISOString : Z → list N.

(** X14.  A message of a chat other than a Telegram chat is dropped; for a
    Telegram chat the reply goes to the chat the typing indicator went to,
    and it is dropped exactly when the number of that chat is [NaN]. *)
Theorem reply_goes_to_typing_chat (jid text : list N) :
  (startsWith jid TELEGRAM_PREFIX = false → sendMessage jid text = None)
  ∧ (startsWith jid TELEGRAM_PREFIX = true →
     sendMessage jid text
     = option_map (λ chatId, (chatId, text))
         (typingChatId (drop (length TELEGRAM_PREFIX) jid))).
Proof.
  split.
  - intros Hp. unfold sendMessage. by rewrite Hp.
  - intros [rest ->]%startsWith_spec. rewrite sendMessage_prefix.
    by rewrite drop_app_length.
Qed.


Lemma or_else_truthy (a : option (list N)) (b : list N) :
  b ≠ [] → or_else a b ≠ [].
Proof.
  intros Hb. unfold or_else. destruct a as [[|c a]|]; cbn; done.
Qed.



End Adapter.

(** X18.  One round of polling moves the offset forward only, past updates
    that were handled: an update whose handling threw, and every one after
    it, is at or beyond the new offset and is fetched again. *)
Theorem pollRound_offset (throws : Z → bool) (updates : list Z) (offset : Z) :
  Forall (λ u, offset <= u) updates →
  StronglySorted Z.lt updates →
  let offset' := pollRound throws updates offset in
  offset <= offset'
  ∧ (∀ u, u ∈ updates → u < offset' → throws u = false)
  ∧ (∀ u, u ∈ updates → throws u = true → offset' <= u)
  ∧ (Forall (λ u, throws u = false) updates →
     offset' = default offset ((λ u, u + 1) <$> last updates)).
Proof.
  revert offset. induction updates as [|u updates IH]; intros offset Hge Hsorted; cbn.
  - split; [lia|]. split; [intros ? []%elem_of_nil|]. split; [intros ? []%elem_of_nil|done].
  - apply Forall_cons in Hge as [Hu Hge].
    apply StronglySorted_inv in Hsorted as [Hsorted Hlt].
    destruct (throws u) eqn:Hthrows.
    + split; [lia|]. split; [|split]; [| |intros [? _]%Forall_cons; congruence].
      * intros v [->|Hv]%elem_of_cons; [lia|].
        rewrite Forall_forall in Hlt. specialize (Hlt v Hv). lia.
      * intros v [->|Hv]%elem_of_cons; [lia|].
        rewrite Forall_forall in Hge. specialize (Hge v Hv). lia.
    + destruct (IH (u + 1)) as (Hle & Hhandled & Hthrown & Hall); [|done|].
      { eapply Forall_impl; [exact Hlt|]. cbn. lia. }
      cbn zeta in *. split; [lia|]. split; [|split].
      * intros v [->|Hv]%elem_of_cons; [done|]. by apply Hhandled.
      * intros v [->|Hv]%elem_of_cons; [congruence|]. by apply Hthrown.
      * intros [_ Hno]%Forall_cons. rewrite (Hall Hno).
        rewrite (last_cons u). by destruct (last updates).
Qed.



Lemma pollRound_offset_witness :
  let offset' := pollRound Samples.third_throws Samples.round 10 in
  10 <= offset'
  ∧ ∀ u, u ∈ Samples.round → Samples.third_throws u = true → offset' <= u.
Proof.
  destruct (pollRound_offset Samples.third_throws Samples.round 10)
    as (Hle & _ & Hthrown & _).
  - unfold Samples.round. repeat (apply Forall_cons; split); [lia..|constructor].
  - unfold Samples.round. repeat constructor.
  - split; [exact Hle|exact Hthrown].
Defined.

End TransportSpec.

(* ================================================================== *)
(** * Start-up values *)
(* ================================================================== *)

Module ConfigSpec.
Import Transport ConfigLoad JSFacts NumberFacts.

(** The value accepted for a bounded setting lies within its bounds, and
    every decimal within the bounds is accepted as written. *)
Lemma parseBounded_spec (limit : Z) (dflt : list N) (env : option (list N)) (n : Z) :
  parseBounded limit dflt env = Some n → 0 < n <= limit.
Proof.
  unfold parseBounded. destruct (parseInt10 _) as [k|]; [|done].
  destruct (Z.ltb_spec 0 k), (Z.leb_spec k limit); cbn; intros [=]; lia.
Qed.

Lemma parseBounded_of_Z (limit : Z) (dflt : list N) (n : Z) :
  0 < n <= limit → parseBounded limit dflt (Some (of_Z n)) = Some n.
Proof.
  intros Hn. unfold parseBounded.
  destruct (of_Z_chars n) as [Hne _].
  assert (or_else (Some (of_Z n)) dflt = of_Z n) as ->.
  { unfold or_else. by destruct (of_Z n). }
  rewrite parseInt10_of_Z.
  destruct (Z.ltb_spec 0 n), (Z.leb_spec n limit); cbn; [done|lia..].
Qed.

(** X19.  The output cap and the container timeout read at start-up are
    positive and at most 100 MB and one hour, as the runner takes the cap to
    be; every decimal within its bounds is read as written, and without the
    variables the cap is 10 MB and the timeout five minutes. *)
Theorem start_up_limits (env : option (list N)) :
  (∀ n, load_CONTAINER_MAX_OUTPUT_SIZE env = Some n → 0 < n <= 104857600)
  ∧ (∀ n, load_CONTAINER_TIMEOUT env = Some n → 0 < n <= 3600000)
  ∧ (∀ n, 0 < n <= 104857600 →
       load_CONTAINER_MAX_OUTPUT_SIZE (Some (of_Z n)) = Some n)
  ∧ (∀ n, 0 < n <= 3600000 → load_CONTAINER_TIMEOUT (Some (of_Z n)) = Some n)
  ∧ (truthy_opt env = false →
     load_CONTAINER_MAX_OUTPUT_SIZE env = Some 10485760
     ∧ load_CONTAINER_TIMEOUT env = Some 300000).
Proof.
  split; [|split; [|split; [|split]]].
  - intros n. apply parseBounded_spec.
  - intros n. apply parseBounded_spec.
  - intros n. apply parseBounded_of_Z.
  - intros n. apply parseBounded_of_Z.
  - intros Henv.
    unfold load_CONTAINER_MAX_OUTPUT_SIZE, load_CONTAINER_TIMEOUT, parseBounded, or_else.
    rewrite Henv. split; by vm_compute.
Qed.

(** X20.  The list of allowed users read at start-up holds positive numbers
    only, one for each comma-separated entry of the variable; it is empty
    only when the variable is unset or empty. *)
Theorem allowed_users_are_positive (env : option (list N)) (ids : list Z) :
  load_TELEGRAM_ALLOWED_USER_IDS env = Some ids →
  Forall (λ id, 0 < id) ids
  ∧ (truthy_opt env = true →
     length ids = length (split 44 (default [] env))
     ∧ Forall2 (λ entry id, parseInt10 (trim entry) = Some id)
         (split 44 (default [] env)) ids)
  ∧ (ids = [] ↔ truthy_opt env = false).
Proof.
  unfold load_TELEGRAM_ALLOWED_USER_IDS.
  destruct (truthy_opt env) eqn:Henv.
  2: { intros [= <-]. repeat split; done. }
  pose proof (split_nonempty 44 (default [] env)) as Hne.
  set (entries := split 44 (default [] env)) in *.
  clearbody entries.
  destruct (forallb _ _) eqn:Hall; [|done]. intros [= <-].
  assert (Hgen :
     Forall (λ id, 0 < id)
       (omap (λ id, id) (map (λ entry, parseInt10 (trim entry)) entries))
     ∧ Forall2 (λ entry id, parseInt10 (trim entry) = Some id) entries
         (omap (λ id, id) (map (λ entry, parseInt10 (trim entry)) entries))).
  { clear Hne. induction entries as [|e entries IH]; [by split; constructor|].
    cbn in Hall. apply andb_true_iff in Hall as [He Hall].
    destruct (IH Hall) as [IH1 IH2]. cbn.
    destruct (parseInt10 (trim e)) as [k|] eqn:Hk; [|done]. cbn.
    apply Z.ltb_lt in He. split; by constructor. }
  destruct Hgen as [Hpos Hmatch].
  split; [done|]. split.
  - intros _. split; [|done]. symmetry. by eapply Forall2_length.
  - split; [|done]. intros Hnil. rewrite Hnil in Hmatch.
    apply Forall2_nil_inv_r in Hmatch. done.
Qed.

Lemma allowed_users_are_positive_witness :
  load_TELEGRAM_ALLOWED_USER_IDS (Some (js "42, 7")) = Some [42; 7]
  ∧ Forall (λ id, 0 < id) [42; 7].
Proof.
  assert (Hload : load_TELEGRAM_ALLOWED_USER_IDS (Some (js "42, 7")) = Some [42; 7])
    by (vm_compute; reflexivity).
  split; [exact Hload|].
  exact (proj1 (allowed_users_are_positive (Some (js "42, 7")) [42; 7] Hload)).
Defined.

End ConfigSpec.

(* ================================================================== *)
(** * Escaping in the prompt *)
(* ================================================================== *)

Module PromptSpec.
Import Router Prompt.

Lemma replaceAll_app (c : N) (rep a b : list N) :
  replaceAll c rep (a ++ b) = replaceAll c rep a ++ replaceAll c rep b.
Proof. unfold replaceAll. apply flat_map_app. Qed.

Lemma escapeXml_cons (c : N) (s : list N) :
  escapeXml (c :: s) = escapeXml [c] ++ escapeXml s.
Proof. unfold escapeXml. cbn [flat_map]. by rewrite app_nil_r. Qed.

Lemma escapeXml_chained_cons (c : N) (s : list N) :
  escapeXml_chained (c :: s) = escapeXml_chained [c] ++ escapeXml_chained s.
Proof.
  unfold escapeXml_chained.
  change (c :: s) with ([c] ++ s). by rewrite !replaceAll_app.
Qed.

(** What [escapeXml] writes for one character. *)
Lemma escapeXml_char (c : N) :
  (c = 38%N ∧ escapeXml [c] = [38; 97; 109; 112; 59]%N)
  ∨ (c = 60%N ∧ escapeXml [c] = [38; 108; 116; 59]%N)
  ∨ (c = 62%N ∧ escapeXml [c] = [38; 103; 116; 59]%N)
  ∨ (c = 34%N ∧ escapeXml [c] = [38; 113; 117; 111; 116; 59]%N)
  ∨ (c ≠ 38%N ∧ c ≠ 60%N ∧ c ≠ 62%N ∧ c ≠ 34%N ∧ escapeXml [c] = [c]).
Proof.
  unfold escapeXml. cbn [flat_map]. rewrite app_nil_r.
  destruct (N.eqb_spec c 38) as [->|?]; [by left|].
  destruct (N.eqb_spec c 60) as [->|?]; [by right; left|].
  destruct (N.eqb_spec c 62) as [->|?]; [by right; right; left|].
  destruct (N.eqb_spec c 34) as [->|?]; [by right; right; right; left|].
  by right; right; right; right.
Qed.

Lemma escapeXml_chained_char (c : N) : escapeXml_chained [c] = escapeXml [c].
Proof.
  destruct (escapeXml_char c) as [[-> ->]|[[-> ->]|[[-> ->]|[[-> ->]|(H1 & H2 & H3 & H4 & ->)]]]];
    [by vm_compute..|].
  unfold escapeXml_chained, replaceAll. cbn [flat_map app].
  rewrite (proj2 (N.eqb_neq c 38)) by done. cbn [flat_map app].
  rewrite (proj2 (N.eqb_neq c 60)) by done. cbn [flat_map app].
  rewrite (proj2 (N.eqb_neq c 62)) by done. cbn [flat_map app].
  by rewrite (proj2 (N.eqb_neq c 34)) by done.
Qed.

(** X12.  The four replacements chained as the source chains them, the
    ampersand first, rewrite each character of the input once: no
    replacement text is rewritten again by a later call. *)
Theorem escapeXml_chained_is_one_pass (s : list N) :
  escapeXml_chained s = escapeXml s.
Proof.
  induction s as [|c s IH]; [done|].
  by rewrite escapeXml_chained_cons, escapeXml_cons, IH, escapeXml_chained_char.
Qed.

(** X13.  Escaped text holds no angle bracket and no double quote, so that
    no sender name or content can close the attribute or the element it is
    written into; and distinct texts stay distinct once escaped. *)
Theorem escapeXml_is_safe_and_injective (s : list N) :
  Forall (λ c, c ≠ 60%N ∧ c ≠ 62%N ∧ c ≠ 34%N) (escapeXml s)
  ∧ ∀ t, escapeXml s = escapeXml t → s = t.
Proof.
  split.
  - induction s as [|c s IH]; [constructor|].
    rewrite escapeXml_cons. apply Forall_app. split; [|done].
    destruct (escapeXml_char c) as [[-> ->]|[[-> ->]|[[-> ->]|[[-> ->]|(H1 & H2 & H3 & H4 & ->)]]]];
      repeat constructor; done.
  - induction s as [|c s IH]; intros t Ht.
    + destruct t as [|d t]; [done|]. rewrite escapeXml_cons in Ht.
      destruct (escapeXml_char d) as [[-> Hd]|[[-> Hd]|[[-> Hd]|[[-> Hd]|(_ & _ & _ & _ & Hd)]]]];
        rewrite Hd in Ht; discriminate.
    + destruct t as [|d t].
      * rewrite escapeXml_cons in Ht.
        destruct (escapeXml_char c) as [[-> Hc]|[[-> Hc]|[[-> Hc]|[[-> Hc]|(_ & _ & _ & _ & Hc)]]]];
          rewrite Hc in Ht; discriminate.
      * rewrite (escapeXml_cons c), (escapeXml_cons d) in Ht.
        destruct (escapeXml_char c) as [[-> Hc]|[[-> Hc]|[[-> Hc]|[[-> Hc]|(? & ? & ? & ? & Hc)]]]];
        destruct (escapeXml_char d) as [[-> Hd]|[[-> Hd]|[[-> Hd]|[[-> Hd]|(? & ? & ? & ? & Hd)]]]];
          rewrite ?Hc, ?Hd in Ht; cbn [app] in Ht; try discriminate;
          try (injection Ht as Ht; f_equal; by apply IH);
          try (injection Ht as ? Ht; congruence).
        injection Ht as -> Ht. f_equal. by apply IH.
Qed.

End PromptSpec.

(* ================================================================== *)
(** * The command line of the container *)
(* ================================================================== *)

Module ArgsSpec.
Import Runner.
Section Args.
Variable pathString : list (list N) → list N.
Variables getuid getgid : option Z.
Variable CONTAINER_IMAGE : list N.

Lemma fold_left_mountArgs (mounts : list VolumeMount) (args : list (list N)) :
  fold_left (λ args mount, args ++ Args.mountArgs pathString mount) mounts args
  = args ++ flat_map (Args.mountArgs pathString) mounts.
Proof.
  revert args. induction mounts as [|m mounts IH]; intros args; cbn.
  - by rewrite app_nil_r.
  - by rewrite IH, <- app_assoc.
Qed.

Lemma mountArgs_lookup (mounts : list VolumeMount) (i : nat) (m : VolumeMount) :
  mounts !! i = Some m →
  flat_map (Args.mountArgs pathString) mounts !! (2 * i)%nat
  = Args.mountArgs pathString m !! 0%nat
  ∧ flat_map (Args.mountArgs pathString) mounts !! (2 * i + 1)%nat
    = Args.mountArgs pathString m !! 1%nat.
Proof.
  revert i. induction mounts as [|m0 mounts IH]; intros i Hi; [done|].
  assert (Hlen : ∃ a b, Args.mountArgs pathString m0 = [a; b]).
  { unfold Args.mountArgs. destruct (readonly m0); eauto. }
  destruct Hlen as (a & b & Hab).
  destruct i as [|i]; cbn [flat_map].
  - injection Hi as ->. by rewrite Hab.
  - rewrite Hab. cbn in Hi. destruct (IH i Hi) as [H0 H1].
    replace (2 * S i)%nat with (S (S (2 * i))) by lia.
    replace (S (S (2 * i)) + 1)%nat with (S (S (2 * i + 1))) by lia.
    done.
Qed.

(** X4.  The command line of the container: seven fixed arguments, then two
    arguments for each mount in the order of the mounts, [--mount] with a
    [readonly] bind for a read-only mount and [-v] for a writable one, and
    the image last. *)
Theorem buildContainerArgs_layout (mounts : list VolumeMount) :
  let args :=
    Args.buildContainerArgs pathString getuid getgid CONTAINER_IMAGE mounts in
  take 7 args
  = [ js "run"; js "-i"; js "--rm"; js "--user";
      of_Z (default 1000 getuid) ++ js ":" ++ of_Z (default 1000 getgid);
      js "-e"; js "HOME=/home/user" ]
  ∧ length args = (8 + 2 * length mounts)%nat
  ∧ last args = Some CONTAINER_IMAGE
  ∧ ∀ i m, mounts !! i = Some m →
      args !! (7 + 2 * i)%nat
      = Some (if readonly m then js "--mount" else js "-v")
      ∧ args !! (8 + 2 * i)%nat
        = Some (if readonly m
                then js "type=bind,source=" ++ pathString (hostPath m)
                     ++ js ",target=" ++ containerPath m ++ js ",readonly"
                else pathString (hostPath m) ++ js ":" ++ containerPath m).
Proof.
  intros args. subst args. unfold Args.buildContainerArgs. cbn zeta.
  rewrite fold_left_mountArgs.
  set (fixed := ([js "run"; js "-i"; js "--rm"] ++ _) ++ _).
  assert (Hfixed : length fixed = 7%nat) by done.
  split; [|split; [|split]].
  - rewrite <- !app_assoc. by rewrite take_app_length' by done.
  - rewrite !length_app, Hfixed. cbn [length].
    assert (length (flat_map (Args.mountArgs pathString) mounts)
            = (2 * length mounts)%nat) as ->; [|lia].
    induction mounts as [|m mounts IH]; [done|]. cbn [flat_map length].
    rewrite length_app, IH. unfold Args.mountArgs. destruct (readonly m); cbn; lia.
  - by rewrite last_snoc.
  - intros i m Hi. destruct (mountArgs_lookup mounts i m Hi) as [H0 H1].
    assert (Hlt : (2 * i + 1 < length (flat_map (Args.mountArgs pathString) mounts))%nat).
    { apply lookup_lt_is_Some. rewrite H1. unfold Args.mountArgs.
      destruct (readonly m); by eexists. }
    rewrite <- !app_assoc.
    rewrite !(lookup_app_r fixed) by (rewrite Hfixed; lia). rewrite Hfixed.
    replace (7 + 2 * i - 7)%nat with (2 * i)%nat by lia.
    replace (8 + 2 * i - 7)%nat with (2 * i + 1)%nat by lia.
    rewrite !lookup_app_l by lia. rewrite H0, H1.
    unfold Args.mountArgs. by destruct (readonly m).
Qed.

End Args.
End ArgsSpec.

(* ================================================================== *)
(** * Mounts and the preparation of a run *)
(* ================================================================== *)

Module MountSpec.
Import Runner HostFacts JSFacts.

Tactic Notation "unbind" hyp(H) "as" ident(a) ident(d1) ident(Hstep) :=
  apply bind_inv in H as (a & d1 & Hstep & H).

Section Mounts.
Context {cfg : Config} {bi : Builtins}.

Lemma elem_of_ancestors (p q : Path) :
  p ∈ ancestors q ↔ p ≠ [] ∧ p `prefix_of` q.
Proof.
  revert p. induction q as [|seg q IH]; intros p; cbn [ancestors].
  - split; [by intros ?%elem_of_nil|]. intros [Hne Hp].
    by apply prefix_nil_inv in Hp.
  - rewrite elem_of_cons, list_elem_of_In, in_map_iff. split.
    + intros [->|(y & <- & [Hy Hpre]%list_elem_of_In%IH)].
      * split; [done|]. by apply prefix_cons, prefix_nil.
      * split; [done|]. by apply prefix_cons.
    + intros [Hne Hpre]. destruct p as [|x p]; [done|].
      pose proof (prefix_cons_inv_1 _ _ _ _ Hpre) as ->.
      apply prefix_cons_inv_2 in Hpre.
      destruct p as [|y p]; [by left|]. right. exists (y :: p).
      split; [done|]. by apply list_elem_of_In, IH.
Qed.

Lemma mkdirSync_run (p : Path) (d d' : Disk) (u : unit) :
  mkdirSync p d = (Ok u, d') →
  files d' = files d ∧ denied d' = denied d
  ∧ dirs d' = dirs d ∪ list_to_set (ancestors p).
Proof. unfold mkdirSync. case_bool_decide; [done|]. by intros [= _ <-]. Qed.

Lemma made_directory (p q : Path) (d d' : Disk) (u : unit) :
  mkdirSync q d = (Ok u, d') → p ≠ [] → p `prefix_of` q → p ∈ dirs d'.
Proof.
  intros (_ & _ & ->)%mkdirSync_run Hne Hpre.
  apply elem_of_union_r, elem_of_list_to_set, elem_of_ancestors. done.
Qed.

(** The run of [buildVolumeMounts]: the mounts it returns and what it does
    to the disk, told from the disk it started on. *)
Lemma buildVolumeMounts_run (group : RegisteredGroup) (main : bool)
    (d d' : Disk) (mounts : list VolumeMount) :
  buildVolumeMounts group main d = (Ok mounts, d') →
  let survivors :=
    match files d !! envFile with
    | Some envContent => filterEnvLines envContent
    | None => []
    end in
  let globalDir := GROUPS_DIR ++ [js "global"] in
  let groupMount :=
    {| hostPath := GROUPS_DIR ++ [folder group];
       containerPath := js "/workspace/group"; readonly := false |} in
  let base :=
    if main then
      [ {| hostPath := PROJECT_ROOT; containerPath := js "/workspace/project";
           readonly := false |}; groupMount ]
    else if bool_decide (globalDir ∈ dirs d) || bool_decide (is_Some (files d !! globalDir))
    then [ groupMount;
           {| hostPath := globalDir; containerPath := js "/workspace/global";
              readonly := true |} ]
    else [ groupMount ] in
  let additional :=
    match containerConfig group with
    | Some c =>
        match additionalMounts c with
        | Some requested => validateAdditionalMounts requested (name group) main
        | None => []
        end
    | None => []
    end in
  mounts
  = base
    ++ [ {| hostPath := DATA_DIR ++ [js "sessions"; folder group];
            containerPath := js "/home/user"; readonly := false |};
         {| hostPath := DATA_DIR ++ [js "ipc"; folder group];
            containerPath := js "/workspace/ipc"; readonly := false |} ]
    ++ (match survivors with
        | [] => []
        | _ => [ {| hostPath := envDir; containerPath := js "/workspace/env-dir";
                    readonly := true |} ]
        end)
    ++ additional
  ∧ files d'
    = match survivors with
      | [] => files d
      | _ => <[envDir ++ [js "env"] := join [LF] survivors ++ [LF]]> (files d)
      end
  ∧ denied d' = denied d
  ∧ dirs d ⊆ dirs d'
  ∧ Forall (λ p, p ∈ dirs d')
      [ DATA_DIR ++ [js "sessions"; folder group; js ".claude"];
        DATA_DIR ++ [js "sessions"; folder group];
        DATA_DIR ++ [js "ipc"; folder group; js "messages"];
        DATA_DIR ++ [js "ipc"; folder group; js "tasks"];
        DATA_DIR ++ [js "ipc"; folder group];
        envDir ].
Proof.
  intros H survivors globalDir groupMount base additional.
  unfold buildVolumeMounts in H.
  unbind H as base0 d1 Hbase.
  assert (Hbase' : d1 = d ∧ base0 = base).
  { destruct main.
    - by injection Hbase as <- <-.
    - unbind Hbase as ex d0 Hex. injection Hex as <- <-.
      injection Hbase as <- <-. split; [done|]. unfold base.
      by destruct (_ || _). }
  destruct Hbase' as [-> ->].
  unbind H as u2 d2 H2. pose proof (mkdirSync_run _ _ _ _ H2) as (Hf2 & Hn2 & Hd2).
  unbind H as u3 d3 H3. pose proof (mkdirSync_run _ _ _ _ H3) as (Hf3 & Hn3 & Hd3).
  unbind H as u4 d4 H4. pose proof (mkdirSync_run _ _ _ _ H4) as (Hf4 & Hn4 & Hd4).
  unbind H as u5 d5 H5. pose proof (mkdirSync_run _ _ _ _ H5) as (Hf5 & Hn5 & Hd5).
  unbind H as ex d6 H6. apply existsSync_inv in H6 as [-> Hex].
  assert (Hf : files d5 = files d) by congruence.
  assert (Hn : denied d5 = denied d) by congruence.
  assert (Hsub4 : dirs d4 ⊆ dirs d5) by (rewrite Hd5; apply union_subseteq_l).
  assert (Hsub3 : dirs d3 ⊆ dirs d5)
    by (etrans; [|exact Hsub4]; rewrite Hd4; apply union_subseteq_l).
  assert (Hsub2 : dirs d2 ⊆ dirs d5)
    by (etrans; [|exact Hsub3]; rewrite Hd3; apply union_subseteq_l).
  assert (Hsub : dirs d ⊆ dirs d5)
    by (etrans; [|exact Hsub2]; rewrite Hd2; apply union_subseteq_l).
  assert (Hne : ∀ rest, DATA_DIR ++ rest ≠ []).
  { intros rest. unfold DATA_DIR. by destruct PROJECT_ROOT. }
  assert (Hmade : Forall (λ p, p ∈ dirs d5)
      [ DATA_DIR ++ [js "sessions"; folder group; js ".claude"];
        DATA_DIR ++ [js "sessions"; folder group];
        DATA_DIR ++ [js "ipc"; folder group; js "messages"];
        DATA_DIR ++ [js "ipc"; folder group; js "tasks"];
        DATA_DIR ++ [js "ipc"; folder group];
        envDir ]).
  { repeat apply Forall_cons_2; [..|constructor].
    - apply Hsub2. eapply made_directory; [exact H2|apply Hne|].
      rewrite <- app_assoc. done.
    - apply Hsub2. eapply made_directory; [exact H2|apply Hne|].
      rewrite <- app_assoc. apply prefix_app, prefix_cons, prefix_cons, prefix_nil.
    - apply Hsub3. eapply made_directory; [exact H3|apply Hne|].
      rewrite <- app_assoc. done.
    - apply Hsub4. eapply made_directory; [exact H4|apply Hne|].
      rewrite <- app_assoc. done.
    - apply Hsub3. eapply made_directory; [exact H3|apply Hne|].
      rewrite <- app_assoc. apply prefix_app, prefix_cons, prefix_cons, prefix_nil.
    - eapply made_directory; [exact H5|apply Hne|done]. }
  unbind H as mounts1 d7 Henv.
  match type of Henv with context [if ex then _ else ret ?m] => set (fixed := m) in * end.
  assert (Hmounts1 :
    mounts1 = fixed ++ match survivors with
                       | [] => []
                       | _ => [ {| hostPath := envDir;
                                   containerPath := js "/workspace/env-dir";
                                   readonly := true |} ]
                       end
    ∧ files d7 = match survivors with
                 | [] => files d
                 | _ => <[envDir ++ [js "env"] := join [LF] survivors ++ [LF]]> (files d)
                 end
    ∧ denied d7 = denied d ∧ dirs d7 = dirs d5).
  { destruct ex.
    - unbind Henv as content d8 Hread.
      apply readFileSync_inv in Hread as [-> Hcontent].
      rewrite Hf in Hcontent. unfold survivors. rewrite Hcontent.
      destruct (filterEnvLines content) as [|l ls] eqn:Hlines.
      + cbn in Henv. injection Henv as <- <-. by rewrite app_nil_r.
      + cbn [length] in Henv.
        rewrite (proj2 (Z.ltb_lt 0 _)) in Henv by lia.
        unbind Henv as u9 d9 Hwrite. injection Henv as <- <-.
        unfold writeFileSync in Hwrite. case_bool_decide; [done|].
        injection Hwrite as _ <-. cbn [files denied dirs set_files]. by rewrite Hf.
    - injection Henv as <- <-.
      destruct (files d !! envFile) as [content|] eqn:Hcontent.
      + rewrite Hf, Hcontent in Hex. by specialize (Hex (mk_is_Some _ _ eq_refl)).
      + unfold survivors. rewrite ?Hcontent. by rewrite app_nil_r. }
  destruct Hmounts1 as (-> & Hf7 & Hn7 & Hd7).
  assert (Hd' : d' = d7 ∧ mounts = (fixed ++ match survivors with
                       | [] => []
                       | _ => [ {| hostPath := envDir;
                                   containerPath := js "/workspace/env-dir";
                                   readonly := true |} ]
                       end) ++ additional).
  { unfold additional.
    destruct (containerConfig group) as [c|];
      [destruct (additionalMounts c) as [requested|]|];
      injection H as <- <-; by rewrite ?app_nil_r. }
  destruct Hd' as [-> ->].
  split; [|split; [done|split; [done|split]]].
  - unfold fixed. by rewrite <- !app_assoc.
  - by rewrite Hd7.
  - by rewrite Hd7.
Qed.

(** What [path.join] makes of a path whose segments are ordinary names:
    the path itself. *)
Lemma split_name (seg : list N) :
  existsb (N.eqb 47) seg = false → split 47 seg = [seg].
Proof.
  induction seg as [|c seg IH]; [done|]. cbn [existsb split].
  intros [Hc Hseg]%orb_false_iff. rewrite N.eqb_sym in Hc. rewrite Hc.
  by rewrite (IH Hseg).
Qed.

Lemma normalizeStep_name (acc : Path) (seg : list N) :
  Paths.isName seg = true →
  fold_left Paths.normalizeStep (split 47 seg) acc = acc ++ [seg].
Proof.
  unfold Paths.isName. rewrite !andb_true_iff, !negb_true_iff.
  intros [[[Hne Hdot] Hdots] Hslash]. rewrite (split_name seg Hslash).
  cbn [fold_left]. unfold Paths.normalizeStep.
  rewrite Hdot, Hdots. rewrite bool_decide_eq_false_2 by (by destruct seg). done.
Qed.

Lemma normalize_names_app (p q : Path) (acc : Path) :
  Forall (λ seg, Paths.isName seg = true) p →
  fold_left Paths.normalizeStep (flat_map (split 47) (p ++ q)) acc
  = fold_left Paths.normalizeStep (flat_map (split 47) q) (acc ++ p).
Proof.
  intros Hp. revert acc. induction Hp as [|seg p Hseg Hp IH]; intros acc.
  - by rewrite app_nil_r.
  - cbn [app flat_map]. rewrite fold_left_app, (normalizeStep_name acc seg Hseg).
    rewrite IH. by rewrite <- app_assoc.
Qed.

Lemma normalize_names (p : Path) :
  Forall (λ seg, Paths.isName seg = true) p → Paths.normalize p = p.
Proof.
  intros Hp. unfold Paths.normalize.
  rewrite <- (app_nil_r p) at 1. by rewrite (normalize_names_app p [] [] Hp).
Qed.


(** X2.  [buildVolumeMounts] writes one file at most, the filtered
    environment file, and only when a line of the host's environment file
    survives the filter; it changes no permission, removes no directory, and
    the directories it mounts for sessions, IPC and the environment exist
    when it returns. *)
Theorem mounts_touch_only_env_file (group : RegisteredGroup) (main : bool)
    (d d' : Disk) (mounts : list VolumeMount) :
  buildVolumeMounts group main d = (Ok mounts, d') →
  (∀ p, p ≠ envDir ++ [js "env"] → files d' !! p = files d !! p)
  ∧ (files d' !! (envDir ++ [js "env"]) ≠ files d !! (envDir ++ [js "env"]) →
     ∃ envContent, files d !! envFile = Some envContent
       ∧ filterEnvLines envContent ≠ [])
  ∧ denied d' = denied d
  ∧ dirs d ⊆ dirs d'
  ∧ DATA_DIR ++ [js "sessions"; folder group] ∈ dirs d'
  ∧ DATA_DIR ++ [js "ipc"; folder group] ∈ dirs d'
  ∧ envDir ∈ dirs d'.
Proof.
  intros H.
  pose proof (buildVolumeMounts_run _ _ _ _ _ H) as (_ & Hf & Hn & Hsub & Hdirs).
  cbn zeta in Hf.
  rewrite !Forall_cons in Hdirs. destruct Hdirs as (_ & Hs & _ & _ & Hi & He & _).
  split; [|split]; [| |done].
  - intros p Hp. rewrite Hf.
    destruct (match files d !! envFile with Some _ => _ | None => _ end); [done|].
    by rewrite lookup_insert_ne.
  - intros Hchange. rewrite Hf in Hchange.
    destruct (files d !! envFile) as [envContent|]; [|done].
    exists envContent. split; [done|]. by intros Heq; rewrite Heq in Hchange.
Qed.

End Mounts.

Lemma mounts_touch_only_env_file_witness :
  match buildVolumeMounts (cfg := Demo.config) (bi := Demo.builtins)
          Demo.main_group true Demo.env_disk with
  | (Ok _, d') =>
      files d' !! envFile (cfg := Demo.config) = Some Demo.env_content
      ∧ envDir (cfg := Demo.config) ∈ dirs d'
  | (Throw _, _) => False
  end.
Proof.
  destruct (buildVolumeMounts (cfg := Demo.config) (bi := Demo.builtins)
              Demo.main_group true Demo.env_disk)
    as [[mounts|e] d'] eqn:Hrun.
  - destruct (mounts_touch_only_env_file (cfg := Demo.config) (bi := Demo.builtins)
                Demo.main_group true Demo.env_disk d' mounts Hrun)
      as (Hfiles & _ & _ & _ & _ & _ & Henv).
    split; [|exact Henv]. rewrite Hfiles; [reflexivity|]. discriminate.
  - apply (f_equal (λ r, match fst r with Ok _ => true | Throw _ => false end))
      in Hrun.
    vm_compute in Hrun. discriminate.
Defined.

End MountSpec.

(* ================================================================== *)
(** * The promise of a run *)
(* ================================================================== *)

Module ChildSpec.
Import Runner JSFacts RunnerSpec.
Section Child.
Context {cfg : Config} {bi : Builtins}.

Lemma ending_settles (st : RunState) (ev : ChildEvent) :
  is_data ev = false → settled st = None → timerArmed st = true →
  is_Some (settled (handle st ev)).
Proof.
  intros Hev Hs Ht. destruct ev as [chunk|chunk| |code|]; try done; cbn.
  - unfold onTimeout, resolve. rewrite Ht. cbn. by rewrite Hs.
  - unfold onClose, resolve. destruct (negb _); cbn; by rewrite Hs.
  - unfold onError, resolve. cbn. by rewrite Hs.
Qed.

(** X5.  The promise is pending exactly as long as the child has only
    written output: the first close, error or timeout settles it. *)
Theorem pending_iff_only_output (events : list ChildEvent) :
  settled (runChild events) = None ↔ Forall (λ ev, is_data ev = true) events.
Proof.
  unfold runChild.
  assert (Hgen : ∀ st, settled st = None → timerArmed st = true →
    settled (fold_left handle events st) = None
    ↔ Forall (λ ev, is_data ev = true) events); [|by apply Hgen].
  induction events as [|ev events IH]; intros st Hs Ht; cbn [fold_left].
  - split; [constructor|done].
  - destruct (is_data ev) eqn:Hev.
    + destruct (handle_data st ev Hev) as [Hs' Ht'].
      rewrite IH by congruence. rewrite Forall_cons. intuition.
    + destruct (ending_settles st ev Hev Hs Ht) as [o Ho].
      rewrite (settled_is_final events _ o Ho). split; [done|].
      intros [? _]%Forall_cons. congruence.
Qed.

(** X6.  A child that writes its output and exits with code zero resolves to
    what its standard output, cut at the cap, parses to; its standard error
    and whatever happens after the exit play no part. *)
Theorem clean_exit_resolves_to_capped_stdout (pre post : list ChildEvent) :
  Forall (λ ev, is_data ev = true) pre →
  settled (runChild (pre ++ Close (Some 0) :: post))
  = Some (parseOutput (take (Z.to_nat CONTAINER_MAX_OUTPUT_SIZE) (emitted_stdout pre))).
Proof.
  intros Hpre. destruct (first_ending pre post (Close (Some 0)) Hpre) as (-> & Hs & _).
  pose proof max_output_positive as Hpos.
  destruct (fold_capped pre spawned [] []) as [(Hout & _) _].
  { split; [by rewrite take_nil|]. split; [intros _; change (len []) with 0; lia|done]. }
  { split; [by rewrite take_nil|]. split; [intros _; change (len []) with 0; lia|done]. }
  cbn [app] in Hout. fold (runChild pre) in Hout.
  cbn [handle]. unfold onClose, resolve. cbn. rewrite Hs. cbn. by rewrite Hout.
Qed.

End Child.
(** With a cap of four code units the payload is cut short, and the clean
    exit resolves to a parse failure. *)
Lemma clean_exit_witness :
  settled (runChild (cfg := Demo.small_cap) (bi := Demo.builtins)
             ([StdoutData Demo.ok_payload; StderrData (js "warn")]
              ++ Close (Some 0) :: [TimerFired]))
  = Some (errorOutput (js "Failed to parse container output")).
Proof.
  rewrite (clean_exit_resolves_to_capped_stdout (cfg := Demo.small_cap)
             (bi := Demo.builtins)
             [StdoutData Demo.ok_payload; StderrData (js "warn")] [TimerFired]).
  - vm_compute. reflexivity.
  - repeat constructor.
Defined.

End ChildSpec.

(* ================================================================== *)
(** * The trace of a turn *)
(* ================================================================== *)

Module TraceSpec.
Import Runner Router HostFacts JSFacts RouterSpec.

Section Trace.
Context {cfg : Config} {bi : Builtins}.

(** On a host that refuses no write, a turn that passes the gate calls
    the container once, after the typing indicator, and at most a reply
    follows. *)
Lemma passing_turn_calls (run : ContainerInput → RunOutcome) (msg : NewMessage)
    (w : World) (g : RegisteredGroup) :
  registeredGroups w !! chat_jid msg = Some g →
  folder g = MAIN_GROUP_FOLDER ∨ TRIGGER_PATTERN_test (trim (content msg)) = true →
  denied (disk w) = ∅ →
  ∃ reply,
    calls (snd (processMessage run msg w))
    = calls w
      ++ (if startsWith (chat_jid msg) TELEGRAM_PREFIX
          then [CallSendTypingAction (drop (length TELEGRAM_PREFIX) (chat_jid msg))]
          else [])
      ++ CallRunContainerAgent g
           {| prompt := buildPrompt (getMessagesSince (db w) (chat_jid msg)
                                       (watermark w (chat_jid msg)) ASSISTANT_NAME);
              sessionId := sessions w !! folder g;
              groupFolder := folder g; chatJid := chat_jid msg;
              isMain := bool_decide (folder g = MAIN_GROUP_FOLDER);
              isScheduledTask := None |} :: reply
    ∧ (reply = [] ∨ ∃ text, reply = [CallSendMessage (chat_jid msg) text]).
Proof.
  intros Hg Hpass Hd.
  destruct (processMessage_run run msg w g Hg Hpass)
    as (_ & _ & _ & [(path & _ & Hpath & _)
                    |(_ & _ & _ & [(_ & Hc & _)
                                  |(o & text & _ & _ & _ & _ & _ &
                                    [(_ & Hc & _)|(path & _ & Hpath & _)])])]).
  - rewrite Hd in Hpath. by apply elem_of_empty in Hpath.
  - exists []. split; [exact Hc|by left].
  - eexists. split; [exact Hc|]. right. by eexists.
  - rewrite Hd in Hpath. by apply elem_of_empty in Hpath.
Qed.

(** X7.  The gate of [processMessage]: a message of a group other than the
    main group that does not match the trigger changes nothing; a message of
    the main group, or one that matches the trigger, gets the container
    called once, after the typing indicator, with the stored session handle
    of the group and the window of unconsumed messages as its prompt. *)
Theorem trigger_gates_the_container (run : ContainerInput → RunOutcome)
    (msg : NewMessage) (w : World) (g : RegisteredGroup) :
  registeredGroups w !! chat_jid msg = Some g →
  denied (disk w) = ∅ →
  let passes :=
    bool_decide (folder g = MAIN_GROUP_FOLDER)
    || TRIGGER_PATTERN_test (trim (content msg)) in
  let typing :=
    if startsWith (chat_jid msg) TELEGRAM_PREFIX
    then [CallSendTypingAction (drop (length TELEGRAM_PREFIX) (chat_jid msg))]
    else [] in
  let input :=
    {| prompt := buildPrompt (getMessagesSince (db w) (chat_jid msg)
                                (watermark w (chat_jid msg)) ASSISTANT_NAME);
       sessionId := sessions w !! folder g;
       groupFolder := folder g; chatJid := chat_jid msg;
       isMain := bool_decide (folder g = MAIN_GROUP_FOLDER);
       isScheduledTask := None |} in
  if passes then
    ∃ reply, calls (snd (processMessage run msg w))
             = calls w ++ typing ++ CallRunContainerAgent g input :: reply
      ∧ (reply = [] ∨ ∃ text, reply = [CallSendMessage (chat_jid msg) text])
  else processMessage run msg w = (Ok tt, w).
Proof.
  intros Hg Hd passes typing input. unfold passes.
  destruct (decide (folder g = MAIN_GROUP_FOLDER)) as [Hmain|Hmain].
  - rewrite bool_decide_eq_true_2 by done. cbn [orb].
    by apply (passing_turn_calls run msg w g Hg (or_introl Hmain)).
  - rewrite bool_decide_eq_false_2 by done. cbn [orb].
    destruct (TRIGGER_PATTERN_test (trim (content msg))) eqn:Htrig.
    + by apply (passing_turn_calls run msg w g Hg (or_intror Htrig)).
    + apply processMessage_gated. right. eauto.
Qed.

(** X8.  Every reply the router sends is the non-empty result of an output
    of the container with status [success], behind the prefix and the name
    of the assistant; it goes to the chat of the message and is the last
    call of the turn, which returns.  By then the watermark of the chat has
    been moved to the timestamp of the message, and the state file and the
    sessions file hold the watermarks and the session handles as they are
    in memory. *)
Theorem replies_carry_successful_results (run : ContainerInput → RunOutcome)
    (msg : NewMessage) (w : World) :
  let w' := snd (processMessage run msg w) in
  ∃ new, calls w' = calls w ++ new
    ∧ ∀ jid text, CallSendMessage jid text ∈ new →
        jid = chat_jid msg
        ∧ last new = Some (CallSendMessage jid text)
        ∧ fst (processMessage run msg w) = Ok tt
        ∧ watermark w' (chat_jid msg) = timestamp msg
        ∧ files (disk w') !! (DATA_DIR ++ [js "router_state.json"])
          = Some (JSON_stringify_state (lastAgentTimestamp w'))
        ∧ files (disk w') !! (DATA_DIR ++ [js "sessions.json"])
          = Some (JSON_stringify_sessions (sessions w'))
        ∧ ∃ input o answer, run input = Resolved o ∧ status o = StatusSuccess
            ∧ result o = Some answer ∧ answer ≠ []
            ∧ text = MESSAGE_PREFIX ++ ASSISTANT_NAME ++ js ": " ++ answer.
Proof.
  intros w'. subst w'.
  destruct (gate_cases msg w) as [Hgated|(g & Hg & Hpass)].
  { rewrite (processMessage_gated run msg w Hgated). exists [].
    split; [by rewrite app_nil_r|]. by intros ? ? ?%elem_of_nil. }
  pose proof (processMessage_run run msg w g Hg Hpass) as Hrun. cbn zeta in Hrun.
  set (typing := if startsWith _ _ then _ else _) in Hrun.
  assert (Htyping : ∀ jid text, CallSendMessage jid text ∉ typing).
  { intros jid text. unfold typing. destruct (startsWith _ _).
    - by intros [=]%list_elem_of_singleton.
    - by intros ?%elem_of_nil. }
  destruct Hrun as (_ & _ & _ & [(path & _ & _ & _ & Hc & _)
                        |(_ & _ & _ & [(_ & Hc & _)
                            |(o & answer & Ho & Hst & Hres & Hne & Ht &
                              [(Hok & Hc & Hstate & Hsess)|(path & _ & _ & _ & Hc)])])]).
  - exists typing. split; [done|]. intros jid text Hin. by apply Htyping in Hin.
  - eexists. split; [exact Hc|]. intros jid text [Hin|Hin]%elem_of_app.
    + by apply Htyping in Hin.
    + by apply list_elem_of_singleton in Hin.
  - eexists. split; [exact Hc|]. intros jid text [Hin|Hin]%elem_of_app.
    { by apply Htyping in Hin. }
    apply elem_of_cons in Hin as [[=]|Hin].
    apply list_elem_of_singleton in Hin. injection Hin as -> ->.
    split; [done|]. split.
    { by rewrite last_app. }
    split; [done|].
    split; [unfold watermark; by rewrite Ht, lookup_insert_eq|].
    split; [done|]. split; [done|]. eauto 10.
  - eexists. split; [exact Hc|]. intros jid text [Hin|Hin]%elem_of_app.
    + by apply Htyping in Hin.
    + by apply list_elem_of_singleton in Hin.
Qed.

(** X9.  [processMessage] throws only when the host refuses a write (the
    store and the transport are taken not to throw): no rejection of the
    runner and no failure to write the sessions file inside [runAgent]
    makes it throw.  Either a snapshot for the container could not be
    written, and then the container has not been called and sessions and
    watermarks are as they were; or the container gave a non-empty result
    and [saveState] could not write the state file or the sessions file,
    and then the watermark of the chat has been moved in memory although
    the container was the last call made.  In both cases no reply is
    sent. *)
Theorem processMessage_throws_on_refused_writes (run : ContainerInput → RunOutcome)
    (msg : NewMessage) (w : World) (e : Exn) :
  fst (processMessage run msg w) = Throw e →
  let w' := snd (processMessage run msg w) in
  ∃ g path, registeredGroups w !! chat_jid msg = Some g
    ∧ e = EACCES path ∧ path ∈ denied (disk w)
    ∧ (∀ jid text, CallSendMessage jid text ∈ calls w' →
         CallSendMessage jid text ∈ calls w)
    ∧ (path ∈ [ DATA_DIR ++ [js "ipc"; folder g];
                (DATA_DIR ++ [js "ipc"; folder g]) ++ [js "current_tasks.json"];
                (DATA_DIR ++ [js "ipc"; folder g]) ++ [js "available_groups.json"] ]
       ∧ sessions w' = sessions w
       ∧ lastAgentTimestamp w' = lastAgentTimestamp w
       ∧ (∀ g' input, CallRunContainerAgent g' input ∈ calls w' →
            CallRunContainerAgent g' input ∈ calls w)
       ∨ path ∈ [ DATA_DIR ++ [js "router_state.json"];
                  DATA_DIR ++ [js "sessions.json"] ]
         ∧ lastAgentTimestamp w'
           = <[chat_jid msg := timestamp msg]> (lastAgentTimestamp w)
         ∧ ∃ input o text, run input = Resolved o ∧ status o = StatusSuccess
             ∧ result o = Some text ∧ text ≠ []
             ∧ last (calls w') = Some (CallRunContainerAgent g input)).
Proof.
  intros Hthrow w'. subst w'.
  destruct (gate_cases msg w) as [Hgated|(g & Hg & Hpass)].
  { by rewrite (processMessage_gated run msg w Hgated) in Hthrow. }
  pose proof (processMessage_run run msg w g Hg Hpass) as Hrun. cbn zeta in Hrun.
  set (typing := if startsWith _ _ then _ else _) in Hrun.
  assert (Htyping : ∀ c, c ∈ typing →
            ∃ chat, c = CallSendTypingAction chat).
  { intros c. unfold typing. destruct (startsWith _ _).
    - intros ->%list_elem_of_singleton. by eexists.
    - by intros ?%elem_of_nil. }
  destruct Hrun as (_ & _ & _ & [(path & He & Hpath & Hwhich & Hc & Hs & Ht & _)
                        |(_ & _ & _ & [(Hok & _)
                            |(o & text & Ho & Hst & Hres & Hne & Ht &
                              [(Hok & _)|(path & He & Hpath & Hwhich & Hc)])])]).
  - rewrite He in Hthrow. injection Hthrow as <-.
    exists g, path. split; [done|]. split; [done|]. split; [done|].
    split.
    { intros jid text. rewrite Hc. intros [Hin|Hin]%elem_of_app; [done|].
      by apply Htyping in Hin as [chat [=]]. }
    left. split.
    { rewrite !elem_of_cons. tauto. }
    split; [done|]. split; [done|].
    intros g' input. rewrite Hc. intros [Hin|Hin]%elem_of_app; [done|].
    by apply Htyping in Hin as [chat [=]].
  - rewrite Hok in Hthrow. discriminate.
  - rewrite Hok in Hthrow. discriminate.
  - rewrite He in Hthrow. injection Hthrow as <-.
    exists g, path. split; [done|]. split; [done|]. split; [done|].
    split.
    { intros jid answer. rewrite Hc.
      intros [Hin|[Hin|Hin]%elem_of_app]%elem_of_app; [done| |].
      - by apply Htyping in Hin as [chat [=]].
      - by apply list_elem_of_singleton in Hin. }
    right. split.
    { rewrite !elem_of_cons. tauto. }
    split; [done|]. eexists _, o, text. repeat (split; [done|]).
    by rewrite Hc, app_assoc, last_app.
Qed.

(** X10.  The session handle an output carries is stored even when the
    output reports an error, and the next turn of the group hands it to the
    container. *)
Theorem session_is_resumed (run1 run2 : ContainerInput → RunOutcome)
    (msg1 msg2 : NewMessage) (w : World) (g : RegisteredGroup)
    (o : ContainerOutput) (sid : list N) :
  registeredGroups w !! chat_jid msg1 = Some g →
  chat_jid msg2 = chat_jid msg1 →
  folder g = MAIN_GROUP_FOLDER
  ∨ TRIGGER_PATTERN_test (trim (content msg1)) = true
    ∧ TRIGGER_PATTERN_test (trim (content msg2)) = true →
  denied (disk w) = ∅ →
  (∀ input, run1 input = Resolved o) →
  newSessionId o = Some sid → sid ≠ [] →
  let w1 := snd (processMessage run1 msg1 w) in
  let w2 := snd (processMessage run2 msg2 w1) in
  sessions w1 !! folder g = Some sid
  ∧ ∃ typing input reply,
      calls w2 = calls w1 ++ typing ++ CallRunContainerAgent g input :: reply
      ∧ sessionId input = Some sid.
Proof.
  intros Hg Hjid Hpass Hd Hrun1 Hsid Hne w1 w2. subst w1 w2.
  assert (Hpass1 : folder g = MAIN_GROUP_FOLDER
                   ∨ TRIGGER_PATTERN_test (trim (content msg1)) = true) by tauto.
  assert (Hpass2 : folder g = MAIN_GROUP_FOLDER
                   ∨ TRIGGER_PATTERN_test (trim (content msg2)) = true) by tauto.
  pose proof (processMessage_run run1 msg1 w g Hg Hpass1) as H1.
  pose proof (processMessage_inv run1 msg1 w) as (Hreg & _).
  cbn zeta in H1, Hreg.
  destruct (processMessage run1 msg1 w) as [r1 w1]. cbn [fst snd] in *.
  destruct H1 as (Hd1 & _ & _ & [(path & _ & Hpath & _)|(_ & _ & Hs1 & _)]).
  { rewrite Hd in Hpath. by apply elem_of_empty in Hpath. }
  rewrite Hrun1, Hsid in Hs1. cbn [truthy_opt default] in Hs1.
  assert (truthy sid = true) as Htruthy by (by destruct sid).
  rewrite Htruthy in Hs1.
  assert (Hstored : sessions w1 !! folder g = Some sid).
  { rewrite Hs1. by rewrite lookup_insert_eq. }
  split; [done|].
  assert (Hg1 : registeredGroups w1 !! chat_jid msg2 = Some g) by congruence.
  destruct (passing_turn_calls run2 msg2 w1 g Hg1 Hpass2) as (reply & Hc & _).
  { by rewrite Hd1. }
  eexists _, _, reply. split; [exact Hc|]. cbn [sessionId]. done.
Qed.

(** X11.  A turn that passes the gate and does not throw leaves both
    snapshots of the group on disk as the container will read them: all
    tasks and all chats for the group whose folder is the main folder, the
    tasks of its own folder and no chat for any other group. *)
Theorem turn_writes_both_snapshots (run : ContainerInput → RunOutcome)
    (msg : NewMessage) (w : World) (g : RegisteredGroup) :
  registeredGroups w !! chat_jid msg = Some g →
  folder g = MAIN_GROUP_FOLDER ∨ TRIGGER_PATTERN_test (trim (content msg)) = true →
  fst (processMessage run msg w) = Ok tt →
  let w' := snd (processMessage run msg w) in
  let ipc := DATA_DIR ++ [js "ipc"; folder g] in
  files (disk w') !! (ipc ++ [js "current_tasks.json"])
  = Some (JSON_stringify_tasks
            (if bool_decide (folder g = MAIN_GROUP_FOLDER) then db_tasks (db w)
             else filter (λ t, group_folder t = folder g) (db_tasks (db w))))
  ∧ files (disk w') !! (ipc ++ [js "available_groups.json"])
    = Some (JSON_stringify_groups
              (if bool_decide (folder g = MAIN_GROUP_FOLDER)
               then getAvailableGroups w else [])
              Date_toISOString).
Proof.
  intros Hg Hpass Hok w' ipc. subst w' ipc.
  pose proof (processMessage_run run msg w g Hg Hpass) as Hrun. cbn zeta in Hrun.
  destruct Hrun as (_ & _ & _ & [(path & He & _)|(Htasks & Hgroups & _)]).
  - rewrite He in Hok. discriminate.
  - done.
Qed.

End Trace.

Lemma trigger_gates_the_container_witness :
  ∃ input reply,
    calls (snd (processMessage (cfg := Demo.config) (bi := Demo.builtins)
                  (Demo.answers "hi") Samples.triggered_msg Demo.world))
    = [CallSendTypingAction (js "2")]
      ++ CallRunContainerAgent Demo.family_group input :: reply
    ∧ isMain input = false ∧ sessionId input = None.
Proof.
  pose proof (trigger_gates_the_container (cfg := Demo.config)
                (bi := Demo.builtins) (Demo.answers "hi") Samples.triggered_msg
                Demo.world Demo.family_group) as Hgate.
  destruct Hgate as (reply & Hcalls & _).
  - vm_compute. reflexivity.
  - reflexivity.
  - eexists _, reply. split; [exact Hcalls|]. split; reflexivity.
Defined.

Lemma processMessage_throws_witness :
  let w' := snd (processMessage (cfg := Demo.config) (bi := Demo.builtins)
                   (Demo.answers "hi") Demo.first_msg Samples.locked_state_world) in
  lastAgentTimestamp w' !! Demo.main_jid = Some (timestamp Demo.first_msg)
  ∧ calls w'
    = [ CallSendTypingAction (js "1");
        CallRunContainerAgent Demo.main_group
          {| prompt := js "<messages>" ++ [LF]
                       ++ formatMessage Demo.first_msg ++ [LF]
                       ++ formatMessage Demo.same_second_msg ++ [LF]
                       ++ js "</messages>";
             sessionId := None; groupFolder := js "main";
             chatJid := Demo.main_jid; isMain := true;
             isScheduledTask := None |} ].
Proof.
  destruct (processMessage_throws_on_refused_writes (cfg := Demo.config)
              (bi := Demo.builtins) (Demo.answers "hi") Demo.first_msg
              Samples.locked_state_world
              (EACCES [js "srv"; js "gigaclaw"; js "data"; js "router_state.json"]))
    as (g & path & Hg & He & _ & _ & Hcases).
  - vm_compute. reflexivity.
  - injection He as <-. destruct Hcases as [(Hin & _)|(_ & Ht & _)].
    + rewrite !elem_of_cons in Hin.
      destruct Hin as [Hin|[Hin|[Hin|Hin]]];
        [vm_compute in Hin; discriminate..|by apply elem_of_nil in Hin].
    + split; [|vm_compute; reflexivity].
      etrans; [exact (f_equal (λ m, m !! Demo.main_jid) Ht)|].
      apply lookup_insert_eq.
Defined.

Lemma session_is_resumed_witness :
  let w1 := snd (processMessage (cfg := Demo.config) (bi := Demo.builtins)
                   Demo.fails_with_session Samples.triggered_msg Demo.world) in
  sessions w1 !! js "family" = Some (js "s2").
Proof.
  refine (proj1 (session_is_resumed (cfg := Demo.config) (bi := Demo.builtins)
                   Demo.fails_with_session (Demo.answers "hi")
                   Samples.triggered_msg Samples.reminder_msg Demo.world
                   Demo.family_group Demo.session_error_output (js "s2")
                   _ _ _ _ _ _ _)).
  - vm_compute. reflexivity.
  - reflexivity.
  - right. split; vm_compute; reflexivity.
  - reflexivity.
  - reflexivity.
  - reflexivity.
  - discriminate.
Defined.

Lemma turn_writes_both_snapshots_witness :
  let w' := snd (processMessage (cfg := Demo.config) (bi := Demo.builtins)
                   (Demo.answers "hi") Samples.triggered_msg Demo.world) in
  files (disk w') !! ((DATA_DIR (cfg := Demo.config) ++ [js "ipc"; js "family"])
                      ++ [js "current_tasks.json"])
  = Some (js "tasks:t2")
  ∧ files (disk w') !! ((DATA_DIR (cfg := Demo.config) ++ [js "ipc"; js "family"])
                        ++ [js "available_groups.json"])
    = Some (js "groups:@2024-05-01T10:00:00.000Z").
Proof.
  destruct (turn_writes_both_snapshots (cfg := Demo.config) (bi := Demo.builtins)
              (Demo.answers "hi") Samples.triggered_msg Demo.world
              Demo.family_group) as [Htasks Hgroups].
  - vm_compute. reflexivity.
  - right. vm_compute. reflexivity.
  - vm_compute. reflexivity.
  - split; [etrans; [exact Htasks|]|etrans; [exact Hgroups|]];
      vm_compute; reflexivity.
Defined.

End TraceSpec.

(* ================================================================== *)
(** * The loader, line by line *)
(* ================================================================== *)

Module LoaderSpec.
Import LoadEnv JSFacts.

Lemma split_app_lines (sep : N) (a b : list N) :
  split sep (a ++ sep :: b) = split sep a ++ split sep b.
Proof.
  induction a as [|c a IH]; cbn [app split].
  - by rewrite N.eqb_refl.
  - destruct (c =? sep)%N; rewrite IH; [done|].
    pose proof (split_nonempty sep a). by destruct (split sep a).
Qed.

Lemma split_one_line (sep : N) (line : list N) :
  ¬ In sep line → split sep line = [line].
Proof.
  induction line as [|c line IH]; intros Hfree; [done|]. cbn [split].
  destruct (N.eqb_spec c sep) as [->|_]; [by destruct Hfree; left|].
  rewrite IH; [done|]. intros ?. apply Hfree. by right.
Qed.

Lemma trimStart_snoc (s : list N) (c : N) :
  is_whitespace c = false → trimStart (s ++ [c]) = trimStart s ++ [c].
Proof. apply TransportSpec.trimStart_app_stop. Qed.

Lemma trimEnd_cons (c : N) (s : list N) :
  is_whitespace c = false → trimEnd (c :: s) = c :: trimEnd s.
Proof.
  intros Hc. unfold trimEnd. cbn [rev].
  by rewrite trimStart_snoc, rev_app_distr.
Qed.

Lemma trimStart_suffix (s : list N) : ∃ ws, s = ws ++ trimStart s.
Proof.
  induction s as [|c s [ws IH]]; [by exists []|]. cbn.
  destruct (is_whitespace c); [|by exists []].
  exists (c :: ws). cbn. by rewrite <- IH.
Qed.

Lemma trimEnd_prefix (s : list N) : ∃ ws, s = trimEnd s ++ ws.
Proof.
  unfold trimEnd. destruct (trimStart_suffix (rev s)) as [ws Hws].
  exists (rev ws). rewrite <- rev_app_distr, <- Hws. by rewrite rev_involutive.
Qed.

(** A trimmed string that is not empty starts with a character that is
    not white space. *)
Lemma trim_head (s : list N) :
  trim s = [] ∨ ∃ c t, trim s = c :: t ∧ is_whitespace c = false.
Proof.
  unfold trim. destruct (trimStart_spec s) as [->|(c & t & -> & Hc)]; [by left|].
  right. rewrite trimEnd_cons by done. eauto.
Qed.

(** X21.  The loader reads its file line by line, in order: what a later
    line assigns replaces what an earlier line assigned to the same name,
    and blank lines and comments assign nothing. *)
Theorem loader_reads_line_by_line (before after : list N)
    (env : gmap (list N) (list N)) :
  loadContainerEnv (before ++ LF :: after) env
  = loadContainerEnv after (loadContainerEnv before env)
  ∧ (¬ In LF after →
     (∀ key value, parseLine after = Some (key, value) →
        loadContainerEnv (before ++ LF :: after) env !! key = Some value)
     ∧ (trim after = [] ∨ startsWith (trim after) (js "#") = true →
        loadContainerEnv (before ++ LF :: after) env = loadContainerEnv before env)).
Proof.
  assert (Hseq : loadContainerEnv (before ++ LF :: after) env
                 = loadContainerEnv after (loadContainerEnv before env)).
  { unfold loadContainerEnv. by rewrite split_app_lines, fold_left_app. }
  split; [done|]. intros Hfree. rewrite Hseq.
  unfold loadContainerEnv at 1 3. rewrite (split_one_line LF after Hfree).
  cbn [fold_left]. unfold loadLine. split.
  - intros key value ->. by rewrite lookup_insert_eq.
  - intros Hskip. unfold parseLine.
    destruct Hskip as [->| ->]; [done|]. by rewrite orb_true_r.
Qed.

Lemma trimEnd_snoc (s : list N) (c : N) :
  is_whitespace c = false → trimEnd (s ++ [c]) = s ++ [c].
Proof.
  intros Hc. unfold trimEnd. rewrite rev_app_distr. cbn [rev app trimStart].
  rewrite Hc. cbn [rev]. by rewrite rev_involutive.
Qed.

Lemma trim_idemp (s : list N) : trim (trim s) = trim s.
Proof.
  destruct (trim_head s) as [->|(c & t & Hs & Hc)]; [done|].
  unfold trim at 1. rewrite Hs. cbn [trimStart]. rewrite Hc, <- Hs.
  unfold trim. destruct (trimEnd_spec (trimStart s)) as [->|(t' & c' & -> & Hc')]; [done|].
  by apply trimEnd_snoc.
Qed.

(** X22.  Every name the loader assigns is the text before the first [=] of
    its trimmed line, trimmed again: it is not empty, holds no [=], and
    starts with a character that is neither white space nor [#]; the value
    is the trimmed rest of the line, which may hold further [=] signs. *)
Theorem loader_names_are_well_formed (line key value : list N) :
  parseLine line = Some (key, value) →
  (∃ c rest, key = c :: rest ∧ is_whitespace c = false ∧ c ≠ 35%N)
  ∧ ¬ In 61%N key
  ∧ trim key = key ∧ trim value = value
  ∧ ∃ name rest, trim line = name ++ 61%N :: rest
      ∧ key = trim name ∧ value = trim rest.
Proof.
  unfold parseLine.
  destruct (trim_head line) as [->|(c & t & Htrim & Hc)]; [done|].
  rewrite Htrim. cbn [truthy negb orb].
  destruct (startsWith (c :: t) (js "#")) eqn:Hhash; [done|]. cbn [orb].
  destruct (indexOf_spec (c :: t) (js "=")) as [[-> _]|(n & -> & Hn & Hat & Hbefore)];
    [done|].
  destruct (Z.gtb_spec (Z.of_nat n) 0) as [Hpos|]; [|done].
  rewrite slice_prefix, slice_from_drop by lia.
  rewrite Nat2Z.id. replace (Z.to_nat (Z.of_nat n + 1)) with (S n) by lia.
  intros [= <- <-].
  destruct n as [|n]; [lia|]. cbn [take].
  assert (Hkey : trim (c :: take n t) = c :: trimEnd (take n t)).
  { unfold trim. cbn [trimStart]. rewrite Hc. by apply trimEnd_cons. }
  destruct (trimEnd_prefix (take n t)) as [ws Hws].
  assert (Hfree : ¬ In 61%N (c :: take n t)).
  { change (c :: take n t) with (take (S n) (c :: t)).
    intros [k [Hk Hlt]%lookup_take_Some]%list_elem_of_In%list_elem_of_lookup.
    specialize (Hbefore k Hlt). rewrite (drop_S _ _ _ Hk) in Hbefore.
    change (js "=") with [61%N] in Hbefore. by cbn in Hbefore. }
  split; [|split; [|split; [|split]]].
  - exists c, (trimEnd (take n t)). split; [done|]. split; [done|].
    intros ->. by cbn in Hhash.
  - rewrite Hkey. intros Hin. apply Hfree.
    destruct Hin as [->|Hin]; [by left|]. right. rewrite Hws.
    apply in_app_iff. by left.
  - apply trim_idemp.
  - apply trim_idemp.
  - apply startsWith_spec in Hat as [r Hr].
    exists (c :: take n t), r. split; [|split; [done|]].
    + rewrite <- (take_drop (S n) (c :: t)) at 1. by rewrite Hr.
    + change (drop (S n) t) with (drop (S (S n)) (c :: t)).
      replace (S (S n)) with (S n + 1)%nat by lia.
      by rewrite <- drop_drop, Hr.
Qed.

Lemma loader_names_are_well_formed_witness :
  parseLine (js "  TZ = Europe/Rome ") = Some (js "TZ", js "Europe/Rome")
  ∧ ¬ In 61%N (js "TZ") ∧ trim (js "TZ") = js "TZ".
Proof.
  assert (Hparse : parseLine (js "  TZ = Europe/Rome ")
                   = Some (js "TZ", js "Europe/Rome")) by (vm_compute; reflexivity).
  destruct (loader_names_are_well_formed _ _ _ Hparse) as (_ & Hfree & Htrim & _).
  split; [exact Hparse|]. split; [exact Hfree|exact Htrim].
Defined.

End LoaderSpec.
